(** * CobolAnlyzer: tokenizer, structural parser and cross-program analyzer

    A shallow embedding of [CobolTokenizer.py], [CobolParser.py] and the
    registration part of [CobolAnalyzer.py], with the properties of the
    specification stated and proved (or refuted) over it.

    Modelling conventions.
    - A Python [str] is a Rocq [string]; the model covers ASCII source text
      ([str.upper] maps [a-z] only, [\s], [\d] and [str.splitlines] are the
      ASCII parts of Python's Unicode classes).
    - Python integers that the code subtracts from (lines, columns, levels)
      are [Z]; list indices and lengths are [nat].
    - A [while] loop is a fuelled iteration in the [result] monad.  [Raise]
      is a Python exception, [OutOfFuel] is a loop that was cut off; each
      loop is given the fuel its termination lemma asks for.
    - [dict] is [gmap], [set] is [gset], [list] is [list]. *)

From Stdlib Require Import ZArith Ascii String List Lia.
From stdpp Require Import base option list strings gmap fin_maps fin_sets sorting.

#[local] Set Warnings "-clear-no-such-hyp".

Local Open Scope string_scope.
Local Open Scope Z_scope.
Local Open Scope list_scope.

(** ** Exceptions and loops *)

Inductive exn : Type := IndexError | KeyError.

Inductive result (A : Type) : Type :=
  | Ok (a : A)
  | Raise (e : exn)
  | OutOfFuel.
Arguments Ok {A} a.
Arguments Raise {A} e.
Arguments OutOfFuel {A}.

Definition result_bind {A B} (f : A → result B) (r : result A) : result B :=
  match r with
  | Ok a => f a
  | Raise e => Raise e
  | OutOfFuel => OutOfFuel
  end.

#[global] Instance result_mret : MRet result := @Ok.
#[global] Instance result_mbind : MBind result := @result_bind.

(** [while cond: body] with loop state [s]. *)
Fixpoint while {St : Type} (fuel : nat) (cond : St → result bool)
    (body : St → result St) (s : St) : result St :=
  match fuel with
  | O => OutOfFuel
  | S fuel' =>
      c ← cond s;
      if c : bool then s' ← body s; while fuel' cond body s' else Ok s
  end.

(** Python's short-circuit [and] over conditions that may raise. *)
Definition and_then (a b : result bool) : result bool :=
  x ← a; if x : bool then b else Ok false.
Infix "<&>" := and_then (at level 41, right associativity).

(** [l[i]] on a list: [IndexError] out of range. *)
Definition list_index {A} (l : list A) (i : nat) : result A :=
  match l !! i with
  | Some x => Ok x
  | None => Raise IndexError
  end.

(** ** Strings *)

Definition char_in (lo hi : ascii) (c : ascii) : bool :=
  ((nat_of_ascii lo <=? nat_of_ascii c) && (nat_of_ascii c <=? nat_of_ascii hi))%nat.

Definition is_lower (c : ascii) : bool := char_in "a" "z" c.
Definition is_upper (c : ascii) : bool := char_in "A" "Z" c.
Definition is_digit (c : ascii) : bool := char_in "0" "9" c.
Definition is_alnum (c : ascii) : bool := is_lower c || is_upper c || is_digit c.

(** [str.isspace] / [\s] on ASCII: TAB..CR, FS..US and the space. *)
Definition is_space (c : ascii) : bool :=
  let n := nat_of_ascii c in
  (((9 <=? n) && (n <=? 13)) || ((28 <=? n) && (n <=? 31)) || (n =? 32))%nat.

Definition LF : ascii := ascii_of_nat 10.
Definition CR : ascii := ascii_of_nat 13.
Definition DQUOTE : ascii := ascii_of_nat 34.

(** Line boundaries of [str.splitlines] on ASCII: LF, VT, FF, CR, FS, GS, RS. *)
Definition is_linebreak (c : ascii) : bool :=
  let n := nat_of_ascii c in
  (((10 <=? n) && (n <=? 13)) || ((28 <=? n) && (n <=? 30)))%nat.

Definition upper_char (c : ascii) : ascii :=
  if is_lower c then ascii_of_nat (nat_of_ascii c - 32) else c.

Fixpoint upper (s : string) : string :=
  match s with
  | EmptyString => EmptyString
  | String c s' => String (upper_char c) (upper s')
  end.

(** [s[n:]] and [s[:n]]. *)
Fixpoint str_drop (n : nat) (s : string) : string :=
  match n, s with
  | O, _ => s
  | S n', String _ s' => str_drop n' s'
  | S _, EmptyString => EmptyString
  end.

Fixpoint str_take (n : nat) (s : string) : string :=
  match n, s with
  | S n', String c s' => String c (str_take n' s')
  | _, _ => EmptyString
  end.

Arguments str_drop : simpl nomatch.
Arguments str_take : simpl nomatch.

(** [s[i]]: [IndexError] out of range. *)
Definition str_index (s : string) (i : nat) : result ascii :=
  match String.get i s with
  | Some c => Ok c
  | None => Raise IndexError
  end.

(** Length of the longest prefix whose characters all satisfy [p]. *)
Fixpoint span (p : ascii → bool) (s : string) : nat :=
  match s with
  | String c s' => if p c then S (span p s') else O
  | EmptyString => O
  end.

Fixpoint lstrip (s : string) : string :=
  match s with
  | String c s' => if is_space c then lstrip s' else s
  | EmptyString => EmptyString
  end.

Fixpoint rstrip (s : string) : string :=
  match s with
  | String c s' =>
      match rstrip s' with
      | EmptyString => if is_space c then EmptyString else String c EmptyString
      | r => String c r
      end
  | EmptyString => EmptyString
  end.

Definition strip (s : string) : string := lstrip (rstrip s).

Fixpoint splitlines (s : string) : list string :=
  match s with
  | EmptyString => []
  | String c s' =>
      if is_linebreak c then
        match s' with
        | String c' s'' =>
            if Ascii.eqb c CR && Ascii.eqb c' LF
            then EmptyString :: splitlines s''
            else EmptyString :: splitlines s'
        | EmptyString => [EmptyString]
        end
      else
        match splitlines s' with
        | [] => [String c EmptyString]
        | l :: ls => String c l :: ls
        end
  end.

Definition str_in (s : string) (l : list string) : bool :=
  existsb (String.eqb s) l.

(** ** Data model ([main.py]) *)

Inductive TokenType : Type :=
  | KEYWORD | IDENTIFIER | LITERAL | NUMBER | OPERATOR | PUNCTUATION | COMMENT
  | DIVISION | SECTION | PARAGRAPH | STATEMENT | SPECIAL | UNKNOWN.

#[global] Instance TokenType_eq_dec : EqDecision TokenType.
Proof. solve_decision. Defined.

Definition is_type (a b : TokenType) : bool := bool_decide (a = b).

Module Token.
Record t : Type := mk { type : TokenType; value : string; line : Z; column : Z }.
End Token.

Module FileReference.
Record t : Type := mk {
  name : string;
  access_mode : string;
  organization : option string;
  record_key : option string;
  location : Z * Z
}.
End FileReference.

Module ProgramCall.
Record t : Type := mk {
  target : string;
  is_dynamic : bool;
  parameters : list string;
  location : Z * Z
}.
End ProgramCall.

Module DataItem.
Record t : Type := mk {
  name : string;
  level : Z;
  picture : option string;
  usage : option string;
  value : option string;
  redefines : option string;
  occurs : option Z;
  indexed_by : list string;
  location : Z * Z
}.
End DataItem.

(** [statements] and [calls] of a paragraph are never written by the parser
    and are left out. *)
Module Paragraph.
Record t : Type := mk { name : string; start_line : Z; end_line : Z }.
End Paragraph.

Module Section.
Record t : Type := mk {
  name : string;
  start_line : Z;
  end_line : Z;
  paragraphs : gmap string Paragraph.t
}.
End Section.

Module Division.
Record t : Type := mk {
  name : string;
  start_line : Z;
  end_line : Z;
  sections : gmap string Section.t
}.
End Division.

Module Resource.
Record t : Type := mk {
  name : string;
  type : string;
  operation : string;
  location : Z * Z
}.
End Resource.

Module CobolProgram.
Record t : Type := mk {
  name : string;
  source_path : string;
  divisions : gmap string Division.t;
  data_items : gmap string DataItem.t;
  files : list FileReference.t;
  calls : list ProgramCall.t;
  resources : list Resource.t;
  called_by : gset string;
  maps_used : gset string;
  copybooks : gset string
}.

(** [CobolProgram(name=..., source_path=...)] *)
Definition new (name source_path : string) : t :=
  mk name source_path ∅ ∅ [] [] [] ∅ ∅ ∅.

Definition set_divisions (p : t) (d : gmap string Division.t) : t :=
  mk (name p) (source_path p) d (data_items p) (files p) (calls p)
     (resources p) (called_by p) (maps_used p) (copybooks p).
Definition set_data_items (p : t) (d : gmap string DataItem.t) : t :=
  mk (name p) (source_path p) (divisions p) d (files p) (calls p)
     (resources p) (called_by p) (maps_used p) (copybooks p).
Definition set_files (p : t) (l : list FileReference.t) : t :=
  mk (name p) (source_path p) (divisions p) (data_items p) l (calls p)
     (resources p) (called_by p) (maps_used p) (copybooks p).
Definition set_calls (p : t) (l : list ProgramCall.t) : t :=
  mk (name p) (source_path p) (divisions p) (data_items p) (files p) l
     (resources p) (called_by p) (maps_used p) (copybooks p).
Definition set_resources (p : t) (l : list Resource.t) : t :=
  mk (name p) (source_path p) (divisions p) (data_items p) (files p) (calls p)
     l (called_by p) (maps_used p) (copybooks p).
Definition set_maps_used (p : t) (m : gset string) : t :=
  mk (name p) (source_path p) (divisions p) (data_items p) (files p) (calls p)
     (resources p) (called_by p) m (copybooks p).
Definition set_copybooks (p : t) (c : gset string) : t :=
  mk (name p) (source_path p) (divisions p) (data_items p) (files p) (calls p)
     (resources p) (called_by p) (maps_used p) c.
End CobolProgram.

(** ** Tokenizer ([CobolTokenizer.py]) *)

Definition KEYWORDS : list string :=
  [
    "ACCEPT"; "ACCESS"; "ADD"; "ADDRESS"; "ADVANCING"; "AFTER"; "ALL"; "ALPHABET"; 
    "ALPHABETIC"; "ALPHABETIC-LOWER"; "ALPHABETIC-UPPER"; "ALPHANUMERIC"; 
    "ALPHANUMERIC-EDITED"; "ALSO"; "ALTER"; "ALTERNATE"; "AND"; "ANY"; "APPLY"; "ARE"; "AREA"; 
    "AREAS"; "ASCENDING"; "ASSIGN"; "AT"; "AUTHOR"; "BASIS"; "BEFORE"; "BEGINNING"; "BINARY"; 
    "BLANK"; "BLOCK"; "BOTTOM"; "BY"; "CALL"; "CANCEL"; "CBL"; "CD"; "CF"; "CH"; "CHARACTER"; 
    "CHARACTERS"; "CLASS"; "CLOCK-UNITS"; "CLOSE"; "COBOL"; "CODE"; "CODE-SET"; "COLLATING"; 
    "COLUMN"; "COMMA"; "COMMON"; "COMMUNICATION"; "COMP"; "COMP-1"; "COMP-2"; "COMP-3"; 
    "COMP-4"; "COMPUTATIONAL"; "COMPUTATIONAL-1"; "COMPUTATIONAL-2"; "COMPUTATIONAL-3"; 
    "COMPUTATIONAL-4"; "COMPUTE"; "CONFIGURATION"; "CONTAINS"; "CONTENT"; "CONTINUE"; 
    "CONTROL"; "CONTROLS"; "CONVERTING"; "COPY"; "CORR"; "CORRESPONDING"; "COUNT"; "CURRENCY"; 
    "DATA"; "DATE"; "DATE-COMPILED"; "DATE-WRITTEN"; "DAY"; "DAY-OF-WEEK"; "DB"; 
    "DB-ACCESS-CONTROL-KEY"; "DB-DATA-NAME"; "DB-EXCEPTION"; "DB-RECORD-NAME"; "DB-SET-NAME"; 
    "DB-STATUS"; "DBCS"; "DE"; "DEBUG-CONTENTS"; "DEBUG-ITEM"; "DEBUG-LINE"; "DEBUG-NAME"; 
    "DEBUG-SUB-1"; "DEBUG-SUB-2"; "DEBUG-SUB-3"; "DEBUGGING"; "DECIMAL-POINT"; "DECLARATIVES"; 
    "DELETE"; "DELIMITED"; "DELIMITER"; "DEPENDING"; "DESCENDING"; "DESTINATION"; "DETAIL"; 
    "DISABLE"; "DISPLAY"; "DIVIDE"; "DIVISION"; "DOWN"; "DUPLICATES"; "DYNAMIC"; "EGI"; "ELSE"; 
    "EMI"; "ENABLE"; "ENCRYPTION"; "END"; "END-ADD"; "END-CALL"; "END-COMPUTE"; "END-DELETE"; 
    "END-DIVIDE"; "END-EVALUATE"; "END-EXEC"; "END-IF"; "END-MULTIPLY"; "END-OF-PAGE"; 
    "END-PERFORM"; "END-READ"; "END-RECEIVE"; "END-RETURN"; "END-REWRITE"; "END-SEARCH"; 
    "END-START"; "END-STRING"; "END-SUBTRACT"; "END-UNSTRING"; "END-WRITE"; "ENDING"; "ENTER"; 
    "ENTRY"; "ENVIRONMENT"; "EOP"; "EQUAL"; "ERROR"; "ESI"; "EVALUATE"; "EVERY"; "EXCEPTION"; 
    "EXEC"; "EXECUTE"; "EXIT"; "EXTEND"; "EXTERNAL"; "FALSE"; "FD"; "FILE"; "FILE-CONTROL"; 
    "FILLER"; "FINAL"; "FIRST"; "FOOTING"; "FOR"; "FROM"; "FUNCTION"; "GENERATE"; "GIVING"; 
    "GLOBAL"; "GO"; "GOBACK"; "GREATER"; "GROUP"; "HEADING"; "HIGH-VALUE"; "HIGH-VALUES"; 
    "I-O"; "I-O-CONTROL"; "ID"; "IDENTIFICATION"; "IF"; "IN"; "INDEX"; "INDEXED"; "INDICATE"; 
    "INITIAL"; "INITIALIZE"; "INITIATE"; "INPUT"; "INPUT-OUTPUT"; "INSPECT"; "INSTALLATION"; 
    "INTO"; "INVALID"; "INVOKE"; "IS"; "JUST"; "JUSTIFIED"; "KEY"; "LABEL"; "LAST"; "LEADING"; 
    "LEFT"; "LENGTH"; "LESS"; "LIMIT"; "LIMITS"; "LINAGE"; "LINAGE-COUNTER"; "LINE"; 
    "LINE-COUNTER"; "LINES"; "LINKAGE"; "LOCAL-STORAGE"; "LOCK"; "LOW-VALUE"; "LOW-VALUES"; 
    "MEMORY"; "MERGE"; "MESSAGE"; "METACLASS"; "METHOD"; "METHOD-ID"; "MODE"; "MODULES"; 
    "MORE-LABELS"; "MOVE"; "MULTIPLE"; "MULTIPLY"; "NATIVE"; "NEGATIVE"; "NEXT"; "NO"; "NOT"; 
    "NULL"; "NULLS"; "NUMBER"; "NUMERIC"; "NUMERIC-EDITED"; "OBJECT"; "OBJECT-COMPUTER"; 
    "OCCURS"; "OF"; "OFF"; "OMITTED"; "ON"; "OPEN"; "OPTIONAL"; "OR"; "ORDER"; "ORGANIZATION"; 
    "OTHER"; "OUTPUT"; "OVERFLOW"; "OVERRIDE"; "PACKED-DECIMAL"; "PADDING"; "PAGE"; 
    "PAGE-COUNTER"; "PASSWORD"; "PERFORM"; "PF"; "PH"; "PIC"; "PICTURE"; "PLUS"; "POINTER"; 
    "POSITION"; "POSITIVE"; "PRINTING"; "PROCEDURE"; "PROCEDURES"; "PROCEED"; "PROGRAM"; 
    "PROGRAM-ID"; "PROPERTY"; "PROTOTYPE"; "PURGE"; "QUEUE"; "QUOTE"; "QUOTES"; "RANDOM"; "RD"; 
    "READ"; "READY"; "RECEIVE"; "RECORD"; "RECORDING"; "RECORDS"; "RECURSIVE"; "REDEFINES"; 
    "REEL"; "REFERENCE"; "REFERENCES"; "RELATIVE"; "RELEASE"; "RELOAD"; "REMAINDER"; "REMOVAL"; 
    "RENAMES"; "REPLACE"; "REPLACING"; "REPORT"; "REPORTING"; "REPORTS"; "REPOSITORY"; "RERUN"; 
    "RESERVE"; "RESET"; "RETURN"; "RETURNING"; "REVERSED"; "REWIND"; "REWRITE"; "RF"; "RH"; 
    "RIGHT"; "ROUNDED"; "RUN"; "SAME"; "SD"; "SEARCH"; "SECTION"; "SECURITY"; "SEGMENT"; 
    "SEGMENT-LIMIT"; "SELECT"; "SELF"; "SEND"; "SENTENCE"; "SEPARATE"; "SEQUENCE"; 
    "SEQUENTIAL"; "SERVICE"; "SET"; "SHIFT-IN"; "SHIFT-OUT"; "SIGN"; "SIZE"; "SKIP1"; "SKIP2"; 
    "SKIP3"; "SORT"; "SORT-CONTROL"; "SORT-CORE-SIZE"; "SORT-FILE-SIZE"; "SORT-MERGE"; 
    "SORT-MESSAGE"; "SORT-MODE-SIZE"; "SORT-RETURN"; "SOURCE"; "SOURCE-COMPUTER"; "SPACE"; 
    "SPACES"; "SPECIAL-NAMES"; "STANDARD"; "STANDARD-1"; "STANDARD-2"; "START"; "STATUS"; 
    "STOP"; "STRING"; "SUB-QUEUE-1"; "SUB-QUEUE-2"; "SUB-QUEUE-3"; "SUBTRACT"; "SUM"; "SUPER"; 
    "SUPPRESS"; "SYMBOLIC"; "SYNC"; "SYNCHRONIZED"; "TABLE"; "TALLY"; "TALLYING"; "TAPE"; 
    "TERMINAL"; "TERMINATE"; "TEST"; "TEXT"; "THAN"; "THEN"; "THROUGH"; "THRU"; "TIME"; 
    "TIMES"; "TITLE"; "TO"; "TOP"; "TRACE"; "TRAILING"; "TRUE"; "TYPE"; "UNIT"; "UNSTRING"; 
    "UNTIL"; "UP"; "UPON"; "USAGE"; "USE"; "USING"; "VALUE"; "VALUES"; "VARYING"; "WHEN"; 
    "WITH"; "WORDS"; "WORKING-STORAGE"; "WRITE"; "ZERO"; "ZEROES"; "ZEROS"
  ].

Definition DIVISIONS : list string :=
  ["IDENTIFICATION"; "ENVIRONMENT"; "DATA"; "PROCEDURE"].

(** *** PATTERNS

    Each matcher is [PATTERNS[...].match(rest)]: the pattern is tried at the
    start of [rest] only, and the result is [match.end()]. [match.group(0)]
    is then [str_take (match.end()) rest]. *)

Definition starts_with (c : ascii) (s : string) : bool :=
  match s with
  | String c' _ => Ascii.eqb c c'
  | EmptyString => false
  end.

Definition not_lf (c : ascii) : bool := negb (Ascii.eqb c LF).

(** [$] without MULTILINE: at the end, or before a final newline. *)
Definition at_dollar (s : string) : bool :=
  match s with
  | EmptyString => true
  | String c EmptyString => Ascii.eqb c LF
  | _ => false
  end.

(** [^\*.*$|^/.+/$] *)
Definition match_comment (rest : string) : option nat :=
  match rest with
  | String c tl =>
      let n := span not_lf tl in
      if Ascii.eqb c "*" then
        if at_dollar (str_drop n tl) then Some (S n) else None
      else if Ascii.eqb c "/" then
        if (2 <=? n)%nat && starts_with "/" (str_drop (n - 1) tl)
           && at_dollar (str_drop n tl)
        then Some (S n) else None
      else None
  | EmptyString => None
  end.

(** A double quote, characters other than the double quote, a double quote;
    [group(1)] is [str_take (end - 2) (str_drop 1 rest)]. *)
Definition match_string_literal (rest : string) : option nat :=
  match rest with
  | String c tl =>
      if Ascii.eqb c DQUOTE then
        let n := span (λ x, negb (Ascii.eqb x DQUOTE)) tl in
        if starts_with DQUOTE (str_drop n tl) then Some (n + 2)%nat else None
      else None
  | EmptyString => None
  end.

(** [\d+(\.\d+)?] *)
Definition match_number (rest : string) : option nat :=
  let n := span is_digit rest in
  if (n =? 0)%nat then None
  else
    let after := str_drop n rest in
    let m := span is_digit (str_drop 1 after) in
    if starts_with "." after && negb (m =? 0)%nat then Some (n + 1 + m)%nat
    else Some n.

(** [[A-Za-z0-9][-A-Za-z0-9]*] *)
Definition match_identifier (rest : string) : option nat :=
  match rest with
  | String c tl =>
      if is_alnum c then Some (S (span (λ x, Ascii.eqb x "-" || is_alnum x) tl))
      else None
  | EmptyString => None
  end.

(** [\s+] *)
Definition match_whitespace (rest : string) : option nat :=
  let n := span is_space rest in
  if (n =? 0)%nat then None else Some n.

Definition match_class (chars : string) (rest : string) : option nat :=
  match rest with
  | String c _ =>
      if existsb (Ascii.eqb c) (list_ascii_of_string chars) then Some 1%nat else None
  | EmptyString => None
  end.

(** [[+\-*/=<>]], [[.,;:]] and [[(){}[\]]] *)
Definition match_operator : string → option nat := match_class "+-*/=<>".
Definition match_punctuation : string → option nat := match_class ".,;:".
Definition match_special : string → option nat := match_class "(){}[]".

(** *** _tokenize_line *)

(** The loop state: [position], [self.current_column] and [tokens]. *)
Record scan_state : Type := mk_scan {
  position : nat;
  current_column : Z;
  scanned : list Token.t
}.

Definition advance (st : scan_state) (n : nat) : scan_state :=
  {| position := (position st + n)%nat;
     current_column := current_column st + Z.of_nat n;
     scanned := scanned st |}.

(** [tokens.append(Token(ty, v, self.current_line, self.current_column))],
    then both counters move by [n]. *)
Definition emit (current_line : Z) (st : scan_state) (ty : TokenType)
    (v : string) (n : nat) : scan_state :=
  {| position := (position st + n)%nat;
     current_column := current_column st + Z.of_nat n;
     scanned := scanned st ++ [Token.mk ty v current_line (current_column st)] |}.

Definition identifier_type (text : string) : TokenType :=
  let token_type := if str_in (upper text) KEYWORDS then KEYWORD else IDENTIFIER in
  if str_in (upper text) DIVISIONS then DIVISION else token_type.

(** One iteration of [while position < line_length]. *)
Definition _tokenize_line_body (current_line : Z) (line : string)
    (st : scan_state) : result scan_state :=
  let rest := str_drop (position st) line in
  match match_whitespace rest with
  | Some n => Ok (advance st n)
  | None =>
  match match_comment rest with
  | Some n => Ok (emit current_line st COMMENT (str_take n rest) n)
  | None =>
  match match_string_literal rest with
  | Some n => Ok (emit current_line st LITERAL (str_take (n - 2) (str_drop 1 rest)) n)
  | None =>
  match match_number rest with
  | Some n => Ok (emit current_line st NUMBER (str_take n rest) n)
  | None =>
  match match_identifier rest with
  | Some n =>
      let text := str_take n rest in
      Ok (emit current_line st (identifier_type text) text n)
  | None =>
  match match_operator rest with
  | Some n => Ok (emit current_line st OPERATOR (str_take n rest) n)
  | None =>
  match match_punctuation rest with
  | Some n => Ok (emit current_line st PUNCTUATION (str_take n rest) n)
  | None =>
  match match_special rest with
  | Some n => Ok (emit current_line st SPECIAL (str_take n rest) n)
  | None =>
      c ← str_index line (position st);
      Ok (emit current_line st UNKNOWN (String c EmptyString) 1)
  end end end end end end end end.

Definition _tokenize_line_cond (line : string) (st : scan_state) : result bool :=
  Ok (position st <? String.length line)%nat.

Definition _tokenize_line_from (current_line : Z) (line : string)
    (st : scan_state) : result (list Token.t) :=
  st' ← while (S (String.length line)) (_tokenize_line_cond line)
            (_tokenize_line_body current_line line) st;
  Ok (scanned st').

Definition _tokenize_line (current_line current_column : Z) (line : string)
    : result (list Token.t) :=
  _tokenize_line_from current_line line (mk_scan 0 current_column []).

(** *** tokenize *)

Fixpoint tokenize_lines (lines : list string) (line_num : Z)
    (tokens : list Token.t) : result (list Token.t) :=
  match lines with
  | [] => Ok tokens
  | line :: lines' =>
      if (6 <? String.length line)%nat then
        is_comment ← Ok (7 <? String.length line)%nat
                      <&> (c ← str_index line 6; Ok (Ascii.eqb c "*"));
        if is_comment : bool then
          tokenize_lines lines' (line_num + 1)
            (tokens ++ [Token.mk COMMENT (strip (str_drop 7 line)) line_num 7])
        else
          let line_content := rstrip (str_drop 6 line) in
          line_tokens ← _tokenize_line line_num 7 line_content;
          tokenize_lines lines' (line_num + 1) (tokens ++ line_tokens)
      else tokenize_lines lines' (line_num + 1) tokens
  end.

Definition tokenize (source_code : string) : result (list Token.t) :=
  tokenize_lines (splitlines source_code) 1 [].

(** ** Structural parser ([CobolParser.py]) *)

(** [int(s)] on an ASCII string, in base 10: white space around the number
    (TAB..CR and the space, and no other character), an optional sign,
    digits with single underscores between them, and no more digits than
    [MAX_STR_DIGITS]; [None] is [ValueError]. *)
Definition is_int_space (c : ascii) : bool :=
  let n := nat_of_ascii c in
  (((9 <=? n) && (n <=? 13)) || (n =? 32))%nat.

Fixpoint int_lstrip (s : string) : string :=
  match s with
  | String c s' => if is_int_space c then int_lstrip s' else s
  | EmptyString => EmptyString
  end.

Fixpoint int_rstrip (s : string) : string :=
  match s with
  | String c s' =>
      match int_rstrip s' with
      | EmptyString => if is_int_space c then EmptyString else String c EmptyString
      | r => String c r
      end
  | EmptyString => EmptyString
  end.

(** [sys.get_int_max_str_digits()] as the interpreter starts: a string with
    more digits is refused with [ValueError]. *)
Definition MAX_STR_DIGITS : Z := 4300.

Fixpoint digit_count (s : string) : Z :=
  match s with
  | EmptyString => 0
  | String c s' => (if is_digit c then 1 else 0) + digit_count s'
  end.

Fixpoint int_digits (acc : Z) (after_digit : bool) (s : string) : option Z :=
  match s with
  | EmptyString => if after_digit then Some acc else None
  | String c s' =>
      if is_digit c then
        int_digits (10 * acc + (Z.of_nat (nat_of_ascii c) - 48)) true s'
      else if Ascii.eqb c "_" && after_digit then int_digits acc false s'
      else None
  end.

Definition int (s : string) : option Z :=
  match int_lstrip (int_rstrip s) with
  | String c s' =>
      let signed := Ascii.eqb c "-" || Ascii.eqb c "+" in
      if MAX_STR_DIGITS <? digit_count (if signed then s' else String c s') then None
      else if Ascii.eqb c "-" then Z.opp <$> int_digits 0 false s'
      else if Ascii.eqb c "+" then int_digits 0 false s'
      else int_digits 0 false (String c s')
  | EmptyString => None
  end.

(** Truth value of a string and of an optional string. *)
Definition truthy (s : string) : bool := negb (String.eqb s "").
Definition truthy_opt (o : option string) : bool :=
  match o with Some s => truthy s | None => false end.

Section Parser.
Variable tokens : list Token.t.

Abbreviation len := (length tokens).
Notation "'tok' i" := (list_index tokens i) (at level 9, i at level 9).

Definition value_upper (i : nat) : result string :=
  t ← tok i; Ok (upper (Token.value t)).

Definition value_upper_is (i : nat) (s : string) : result bool :=
  v ← value_upper i; Ok (String.eqb v s).

Definition type_is (i : nat) (ty : TokenType) : result bool :=
  t ← tok i; Ok (is_type (Token.type t) ty).

Definition in_range (i : nat) : result bool := Ok (i <? len)%nat.

(** [self.tokens[-1].line if self.tokens else 0] *)
Definition last_line : Z :=
  match last tokens with
  | Some t => Token.line t
  | None => 0
  end.

(** *** _parse_divisions *)

Record scope_state : Type := mk_scope {
  sc_i : nat;
  current_division : option Division.t;
  current_section : option Section.t;
  current_paragraph : option Paragraph.t;
  sc_program : CobolProgram.t
}.

(** [current_paragraph.end_line = e;
     current_section.paragraphs[current_paragraph.name] = current_paragraph]
    when a paragraph is open. *)
Definition end_paragraph (e : Z) (sec : Section.t)
    (par : option Paragraph.t) : Section.t :=
  match par with
  | Some p =>
      Section.mk (Section.name sec) (Section.start_line sec) (Section.end_line sec)
        (<[Paragraph.name p := Paragraph.mk (Paragraph.name p) (Paragraph.start_line p) e]>
           (Section.paragraphs sec))
  | None => sec
  end.

(** The paragraph is ended, then
    [current_section.end_line = e;
     current_division.sections[current_section.name] = current_section]
    when a section is open. *)
Definition end_section (e : Z) (div : Division.t) (sec : option Section.t)
    (par : option Paragraph.t) : Division.t :=
  match sec with
  | Some s =>
      let s' := end_paragraph e s par in
      Division.mk (Division.name div) (Division.start_line div) (Division.end_line div)
        (<[Section.name s' := Section.mk (Section.name s') (Section.start_line s') e
                                (Section.paragraphs s')]>
           (Division.sections div))
  | None => div
  end.

(** The section is ended, then
    [current_division.end_line = e;
     self.program.divisions[current_division.name] = current_division]
    when a division is open. *)
Definition end_division (e : Z) (program : CobolProgram.t)
    (div : option Division.t) (sec : option Section.t)
    (par : option Paragraph.t) : CobolProgram.t :=
  match div with
  | Some d =>
      let d' := end_section e d sec par in
      CobolProgram.set_divisions program
        (<[Division.name d' := Division.mk (Division.name d') (Division.start_line d') e
                                 (Division.sections d')]>
           (CobolProgram.divisions program))
  | None => program
  end.

(** The clause scan of a data item: [j] and the item built so far. *)
Definition clause_cond (token : Token.t) (st : nat * DataItem.t) : result bool :=
  let j := st.1 in
  in_range j <&> (t ← tok j; Ok (bool_decide (Token.line t = Token.line token))).

Definition clause_body (st : nat * DataItem.t) : result (nat * DataItem.t) :=
  let '(j, d) := st in
  v ← value_upper j;
  has_next ← in_range (j + 1);
  if str_in v ["PIC"; "PICTURE"] && has_next then
    n ← tok (j + 1);
    Ok ((j + 2)%nat,
        DataItem.mk (DataItem.name d) (DataItem.level d) (Some (Token.value n))
          (DataItem.usage d) (DataItem.value d) (DataItem.redefines d)
          (DataItem.occurs d) (DataItem.indexed_by d) (DataItem.location d))
  else if String.eqb v "USAGE" && has_next then
    n ← tok (j + 1);
    Ok ((j + 2)%nat,
        DataItem.mk (DataItem.name d) (DataItem.level d) (DataItem.picture d)
          (Some (Token.value n)) (DataItem.value d) (DataItem.redefines d)
          (DataItem.occurs d) (DataItem.indexed_by d) (DataItem.location d))
  else if String.eqb v "VALUE" && has_next then
    n ← tok (j + 1);
    Ok ((j + 2)%nat,
        DataItem.mk (DataItem.name d) (DataItem.level d) (DataItem.picture d)
          (DataItem.usage d) (Some (Token.value n)) (DataItem.redefines d)
          (DataItem.occurs d) (DataItem.indexed_by d) (DataItem.location d))
  else if String.eqb v "REDEFINES" && has_next then
    n ← tok (j + 1);
    Ok ((j + 2)%nat,
        DataItem.mk (DataItem.name d) (DataItem.level d) (DataItem.picture d)
          (DataItem.usage d) (DataItem.value d) (Some (Token.value n))
          (DataItem.occurs d) (DataItem.indexed_by d) (DataItem.location d))
  else if String.eqb v "OCCURS" && has_next then
    n ← tok (j + 1);
    let occurs := match int (Token.value n) with Some k => k | None => 0 end in
    Ok ((j + 2)%nat,
        DataItem.mk (DataItem.name d) (DataItem.level d) (DataItem.picture d)
          (DataItem.usage d) (DataItem.value d) (DataItem.redefines d)
          (Some occurs) (DataItem.indexed_by d) (DataItem.location d))
  else Ok ((j + 1)%nat, d).

Definition division_named (div : option Division.t) (n : string) : bool :=
  match div with
  | Some d => String.eqb (Division.name d) n
  | None => false
  end.

Definition _parse_divisions_body (st : scope_state) : result scope_state :=
  let i := sc_i st in
  let program := sc_program st in
  token ← tok i;
  (* Look for divisions *)
  if is_type (Token.type token) DIVISION then
    let program' :=
      end_division (Token.line token - 1) program (current_division st)
        (current_section st) (current_paragraph st) in
    let division_name := upper (Token.value token) in
    Ok (mk_scope (i + 1)
          (Some (Division.mk division_name (Token.line token) 0 ∅)) None None program')
  (* Look for sections *)
  else if is_type (Token.type token) SECTION then
    named ← Ok (0 <? i)%nat <&> type_is (i - 1) IDENTIFIER;
    if named : bool then
      section_name ← value_upper (i - 1);
      match current_division st with
      | Some d =>
          let d' := end_section (Token.line token - 1) d (current_section st)
                      (current_paragraph st) in
          Ok (mk_scope (i + 1) (Some d')
                (Some (Section.mk section_name (Token.line token) 0 ∅)) None program)
      | None =>
          Ok (mk_scope (i + 1) None (current_section st) (current_paragraph st) program)
      end
    else
      Ok (mk_scope (i + 1) (current_division st) (current_section st)
            (current_paragraph st) program)
  else
    (* Look for paragraphs *)
    is_par ← Ok (is_type (Token.type token) IDENTIFIER
                 && division_named (current_division st) "PROCEDURE")
             <&> (first_on_line ←
                    (if (i =? 0)%nat then Ok true
                     else p ← tok (i - 1);
                          Ok (negb (bool_decide (Token.line p = Token.line token))));
                  Ok first_on_line
                  <&> in_range (i + 1)
                  <&> (n ← tok (i + 1); Ok (negb (String.eqb (Token.value n) "SECTION"))));
    if is_par : bool then
      let paragraph_name := upper (Token.value token) in
      match current_section st with
      | Some s =>
          let s' := end_paragraph (Token.line token - 1) s (current_paragraph st) in
          Ok (mk_scope (i + 1) (current_division st) (Some s')
                (Some (Paragraph.mk paragraph_name (Token.line token) 0)) program)
      | None =>
          Ok (mk_scope (i + 1) (current_division st) None (current_paragraph st) program)
      end
    else
      (* Process data items if in the DATA DIVISION *)
      is_item ← Ok (division_named (current_division st) "DATA"
                    && is_type (Token.type token) NUMBER)
                <&> in_range (i + 1) <&> type_is (i + 1) IDENTIFIER;
      if is_item : bool then
        match int (Token.value token) with
        | Some level =>
            n ← tok (i + 1);
            let name := upper (Token.value n) in
            let data_item :=
              DataItem.mk name level None None None None None []
                (Token.line token, Token.column token) in
            r ← while (S len) (clause_cond token) clause_body ((i + 2)%nat, data_item);
            Ok (mk_scope (i + 1) (current_division st) (current_section st)
                  (current_paragraph st)
                  (CobolProgram.set_data_items program
                     (<[name := r.2]> (CobolProgram.data_items program))))
        | None =>
            (* except ValueError: pass *)
            Ok (mk_scope (i + 1) (current_division st) (current_section st)
                  (current_paragraph st) program)
        end
      else
        Ok (mk_scope (i + 1) (current_division st) (current_section st)
              (current_paragraph st) program).

Definition _parse_divisions (program : CobolProgram.t) : result CobolProgram.t :=
  st ← while (S len) (λ st, in_range (sc_i st)) _parse_divisions_body
          (mk_scope 0 None None None program);
  (* Close any open structures *)
  Ok (end_division last_line (sc_program st) (current_division st)
        (current_section st) (current_paragraph st)).

(** *** _extract_file_references *)

(** The look-ahead after [SELECT <name>]: [j], whether [break] was taken,
    [access_mode], [organization] and [record_key]. *)
Record select_state : Type := mk_select {
  sel_j : nat;
  sel_break : bool;
  sel_access_mode : string;
  sel_organization : option string;
  sel_record_key : option string
}.

Definition select_cond (st : select_state) : result bool :=
  Ok (negb (sel_break st)) <&> in_range (sel_j st)
  <&> (b ← value_upper_is (sel_j st) "SELECT"; Ok (negb b)).

Definition select_body (st : select_state) : result select_state :=
  let j := sel_j st in
  is_org ← value_upper_is j "ORGANIZATION" <&> in_range (j + 1);
  st' ←
    (if is_org : bool then
       v ← value_upper (j + 1);
       Ok (mk_select j false (sel_access_mode st) (Some v) (sel_record_key st))
     else
       is_acc ← value_upper_is j "ACCESS" <&> in_range (j + 1)
                <&> value_upper_is (j + 1) "MODE" <&> in_range (j + 2);
       if is_acc : bool then
         v ← value_upper (j + 2);
         Ok (mk_select j false v (sel_organization st) (sel_record_key st))
       else
         is_key ← value_upper_is j "RECORD" <&> in_range (j + 1)
                  <&> value_upper_is (j + 1) "KEY" <&> in_range (j + 2);
         if is_key : bool then
           v ← value_upper (j + 2);
           Ok (mk_select j false (sel_access_mode st) (sel_organization st) (Some v))
         else Ok st);
  let j' := (j + 1)%nat in
  stop ← (in_bounds ← in_range j';
          if in_bounds : bool then value_upper_is j' "." else Ok true);
  Ok (mk_select j' stop (sel_access_mode st') (sel_organization st')
        (sel_record_key st')).

Definition select_scan_body (st : nat * CobolProgram.t)
    : result (nat * CobolProgram.t) :=
  let '(i, program) := st in
  is_select ← type_is i KEYWORD <&> value_upper_is i "SELECT"
              <&> in_range (i + 1) <&> type_is (i + 1) IDENTIFIER;
  if is_select : bool then
    t ← tok i;
    file_name ← value_upper (i + 1);
    r ← while (S len) select_cond select_body
          (mk_select (i + 2) false "SEQUENTIAL" None None);
    let file_ref :=
      FileReference.mk file_name (sel_access_mode r) (sel_organization r)
        (sel_record_key r) (Token.line t, Token.column t) in
    Ok ((i + 1)%nat,
        CobolProgram.set_files program (CobolProgram.files program ++ [file_ref]))
  else Ok ((i + 1)%nat, program).

Definition IO_VERBS : list string :=
  ["OPEN"; "CLOSE"; "READ"; "WRITE"; "REWRITE"; "DELETE"; "START"].

(** [for file_ref in self.program.files: if file_ref.name == file_name: ...] *)
Definition file_exists (files : list FileReference.t) (file_name : string) : bool :=
  existsb (λ file_ref, String.eqb (FileReference.name file_ref) file_name) files.

(** The look-ahead for file names on the line of token [i]. *)
Definition verb_cond (i : nat) (st : nat * CobolProgram.t) : result bool :=
  let j := st.1 in
  in_range j
  <&> (a ← tok j; b ← tok i; Ok (bool_decide (Token.line a = Token.line b))).

Definition verb_body (i : nat) (st : nat * CobolProgram.t)
    : result (nat * CobolProgram.t) :=
  let '(j, program) := st in
  t ← tok j;
  if is_type (Token.type t) IDENTIFIER then
    let file_name := upper (Token.value t) in
    if file_exists (CobolProgram.files program) file_name then
      Ok ((j + 1)%nat, program)
    else
      ti ← tok i;
      let file_ref :=
        FileReference.mk file_name "UNKNOWN" None None
          (Token.line ti, Token.column ti) in
      Ok ((j + 1)%nat,
          CobolProgram.set_files program (CobolProgram.files program ++ [file_ref]))
  else Ok ((j + 1)%nat, program).

(** In [CobolParser.py] the look-ahead is at the indentation of the [if]
    on the I/O verb, not inside it: the [if] only assigns [operation],
    which nothing reads, and the look-ahead runs for every token [i]. *)
Definition verb_scan_body (st : nat * CobolProgram.t)
    : result (nat * CobolProgram.t) :=
  let '(i, program) := st in
  is_verb ← type_is i KEYWORD
            <&> (v ← value_upper i; Ok (str_in v IO_VERBS));
  operation ← (if is_verb : bool then v ← value_upper i; Ok (Some v) else Ok None);
  r ← while (S len) (verb_cond i) (verb_body i) ((i + 1)%nat, program);
  Ok ((i + 1)%nat, r.2).

Definition _extract_file_references (program : CobolProgram.t)
    : result CobolProgram.t :=
  r1 ← while (S len) (λ st, in_range st.1) select_scan_body (0%nat, program);
  r2 ← while (S len) (λ st, in_range st.1) verb_scan_body (0%nat, r1.2);
  Ok r2.2.

(** *** _extract_program_calls *)

Record using_state : Type := mk_using {
  us_j : nat;
  using_found : bool;
  us_parameters : list string
}.

Definition using_cond (i : nat) (st : using_state) : result bool :=
  in_range (us_j st)
  <&> (a ← tok (us_j st); b ← tok i; Ok (bool_decide (Token.line a = Token.line b))).

Definition using_body (st : using_state) : result using_state :=
  let j := us_j st in
  is_using ← type_is j KEYWORD <&> value_upper_is j "USING";
  if is_using : bool then Ok (mk_using (j + 1) true (us_parameters st))
  else
    is_param ← Ok (using_found st) <&> type_is j IDENTIFIER;
    if is_param : bool then
      v ← value_upper j;
      Ok (mk_using (j + 1) (using_found st) (us_parameters st ++ [v]))
    else Ok (mk_using (j + 1) (using_found st) (us_parameters st)).

Definition calls_body (st : nat * CobolProgram.t) : result (nat * CobolProgram.t) :=
  let '(i, program) := st in
  is_call ← type_is i KEYWORD <&> value_upper_is i "CALL";
  if is_call : bool then
    t ← tok i;
    has_next ← in_range (i + 1);
    target ←
      (if has_next : bool then
         n ← tok (i + 1);
         if is_type (Token.type n) LITERAL then Ok (Some (Token.value n), false)
         else if is_type (Token.type n) IDENTIFIER
              then Ok (Some (upper (Token.value n)), true)
              else Ok (None, false)
       else Ok (None, false));
    r ← while (S len) (using_cond i) using_body (mk_using (i + 2) false []);
    match target with
    | (Some tgt, is_dynamic) =>
        if truthy tgt then
          let call :=
            ProgramCall.mk tgt is_dynamic (us_parameters r)
              (Token.line t, Token.column t) in
          Ok ((i + 1)%nat,
              CobolProgram.set_calls program (CobolProgram.calls program ++ [call]))
        else Ok ((i + 1)%nat, program)
    | (None, _) => Ok ((i + 1)%nat, program)
    end
  else Ok ((i + 1)%nat, program).

Definition _extract_program_calls (program : CobolProgram.t)
    : result CobolProgram.t :=
  r ← while (S len) (λ st, in_range st.1) calls_body (0%nat, program);
  Ok r.2.

(** *** _extract_resources *)

(** The scan of an EXEC block: [j], [operation] and [resource_name]. *)
Record block_state : Type := mk_block {
  blk_j : nat;
  operation : option string;
  resource_name : option string
}.

Definition not_end_exec (i : nat) : result bool :=
  in_range i <&> (b ← value_upper_is i "END-EXEC"; Ok (negb b)).

(** The three scans (SQL, CICS, MQ) differ in [names] only, the words
    after which the resource name is read. *)
Definition block_body (names : list string) (st : block_state) : result block_state :=
  let j := blk_j st in
  t ← tok j;
  if is_type (Token.type t) KEYWORD then
    let operation' :=
      match operation st with
      | None => Some (upper (Token.value t))
      | Some o => Some o
      end in
    is_name ← Ok (str_in (upper (Token.value t)) names) <&> in_range (j + 1);
    if is_name : bool then
      v ← value_upper (j + 1);
      Ok (mk_block (j + 1) operation' (Some v))
    else Ok (mk_block (j + 1) operation' (resource_name st))
  else Ok (mk_block (j + 1) (operation st) (resource_name st)).

Definition scan_block (names : list string) (i : nat) : result block_state :=
  while (S len) (λ st, not_end_exec (blk_j st)) (block_body names)
    (mk_block (i + 2) None None).

Definition SQL_NAMES : list string := ["FROM"; "INTO"; "UPDATE"; "TABLE"].
Definition CICS_NAMES : list string := ["PROGRAM"; "TRANSID"; "QUEUE"; "FILE"].
Definition MQ_NAMES : list string := ["QNAME"; "QUEUE"].

Definition resources_body (st : nat * CobolProgram.t)
    : result (nat * CobolProgram.t) :=
  let '(i, program) := st in
  is_exec ← type_is i KEYWORD <&> value_upper_is i "EXEC" <&> in_range (i + 1);
  if is_exec : bool then
    t ← tok i;
    resource_type ← value_upper (i + 1);
    blk ←
      (if String.eqb resource_type "SQL" then scan_block SQL_NAMES i
       else if String.eqb resource_type "CICS" then scan_block CICS_NAMES i
       else if String.eqb resource_type "MQ" then scan_block MQ_NAMES i
       else Ok (mk_block (i + 2) None None));
    let program' :=
      if truthy resource_type && truthy_opt (operation blk) then
        let resource :=
          Resource.mk
            (if truthy_opt (resource_name blk) then default "" (resource_name blk)
             else "UNKNOWN")
            resource_type (default "" (operation blk))
            (Token.line t, Token.column t) in
        CobolProgram.set_resources program (CobolProgram.resources program ++ [resource])
      else program in
    (* Skip to after END-EXEC *)
    i' ← while (S len) not_end_exec (λ k, Ok (k + 1)%nat) i;
    Ok ((i' + 1)%nat, program')
  else Ok ((i + 1)%nat, program).

Definition _extract_resources (program : CobolProgram.t) : result CobolProgram.t :=
  r ← while (S len) (λ st, in_range st.1) resources_body (0%nat, program);
  Ok r.2.

(** *** _extract_copybooks *)

Definition copybooks_body (st : nat * CobolProgram.t)
    : result (nat * CobolProgram.t) :=
  let '(i, program) := st in
  is_copy ← type_is i KEYWORD <&> value_upper_is i "COPY";
  if is_copy : bool then
    named ← in_range (i + 1)
            <&> (n ← tok (i + 1);
                 Ok (is_type (Token.type n) IDENTIFIER || is_type (Token.type n) LITERAL));
    if named : bool then
      copybook_name ← value_upper (i + 1);
      Ok ((i + 1)%nat,
          CobolProgram.set_copybooks program
            (CobolProgram.copybooks program ∪ {[copybook_name]}))
    else Ok ((i + 1)%nat, program)
  else Ok ((i + 1)%nat, program).

Definition _extract_copybooks (program : CobolProgram.t) : result CobolProgram.t :=
  r ← while (S len) (λ st, in_range st.1) copybooks_body (0%nat, program);
  Ok r.2.

(** *** _extract_maps *)

Definition SEND_RECEIVE : list string := ["SEND"; "RECEIVE"].

(** The scan of an EXEC CICS block: [j], [map_found] and the map set. *)
Record cics_state : Type := mk_cics {
  cics_j : nat;
  map_found : bool;
  cics_maps : gset string
}.

Definition cics_body (st : cics_state) : result cics_state :=
  let j := cics_j st in
  is_map ← (v ← value_upper j; Ok (str_in v SEND_RECEIVE))
           <&> in_range (j + 1) <&> value_upper_is (j + 1) "MAP"
           <&> in_range (j + 2);
  if is_map : bool then
    map_name ← value_upper (j + 2);
    Ok (mk_cics (j + 1) true (cics_maps st ∪ {[map_name]}))
  else Ok (mk_cics (j + 1) (map_found st) (cics_maps st)).

Definition maps_body (st : nat * CobolProgram.t) : result (nat * CobolProgram.t) :=
  let '(i, program) := st in
  (* Look for SEND MAP, RECEIVE MAP in CICS programs *)
  is_bare ← type_is i KEYWORD
            <&> (v ← value_upper i; Ok (str_in v SEND_RECEIVE))
            <&> in_range (i + 1) <&> type_is (i + 1) KEYWORD
            <&> value_upper_is (i + 1) "MAP" <&> in_range (i + 2);
  if is_bare : bool then
    map_name ← value_upper (i + 2);
    Ok ((i + 1)%nat,
        CobolProgram.set_maps_used program
          (CobolProgram.maps_used program ∪ {[map_name]}))
  else
    (* Also look for EXEC CICS SEND MAP *)
    is_cics ← type_is i KEYWORD <&> value_upper_is i "EXEC"
              <&> in_range (i + 1) <&> value_upper_is (i + 1) "CICS";
    if is_cics : bool then
      r ← while (S len) (λ st, not_end_exec (cics_j st)) cics_body
            (mk_cics (i + 2) false (CobolProgram.maps_used program));
      let program' := CobolProgram.set_maps_used program (cics_maps r) in
      (* If we found a map, skip to after END-EXEC *)
      if map_found r then
        i' ← while (S len) not_end_exec (λ k, Ok (k + 1)%nat) i;
        Ok ((i' + 1)%nat, program')
      else Ok ((i + 1)%nat, program')
    else Ok ((i + 1)%nat, program).

Definition _extract_maps (program : CobolProgram.t) : result CobolProgram.t :=
  r ← while (S len) (λ st, in_range st.1) maps_body (0%nat, program);
  Ok r.2.

(** *** _parse_program *)

Definition _parse_program (program : CobolProgram.t) : result CobolProgram.t :=
  p1 ← _parse_divisions program;
  p2 ← _extract_file_references p1;
  p3 ← _extract_program_calls p2;
  p4 ← _extract_resources p3;
  p5 ← _extract_copybooks p4;
  _extract_maps p5.

End Parser.

(** *** parse

    [os.path.basename] and [os.path.splitext] on POSIX paths. *)

Fixpoint basename (p : string) : string :=
  match p with
  | EmptyString => EmptyString
  | String c p' =>
      if existsb (Ascii.eqb "/") (list_ascii_of_string p') then basename p'
      else if Ascii.eqb c "/" then p' else p
  end.

(** The root of [splitext] on a name without separators: the part before
    the last dot, when a character other than a dot comes before it. *)
Fixpoint splitext_root (seen_other : bool) (p : string) : string :=
  match p with
  | EmptyString => EmptyString
  | String c p' =>
      if Ascii.eqb c "." && seen_other
         && negb (existsb (Ascii.eqb ".") (list_ascii_of_string p'))
      then EmptyString
      else String c (splitext_root (seen_other || negb (Ascii.eqb c ".")) p')
  end.

Definition program_name_of (source_path : string) : string :=
  splitext_root false (basename source_path).

(** [parse(source_path)], given the text [source_code] read from the file.
    An unreadable file raises before anything else happens and is outside
    the model. *)
Definition parse (source_path source_code : string) : result CobolProgram.t :=
  let program_name := program_name_of source_path in
  let program := CobolProgram.new program_name source_path in
  tokens ← tokenize source_code;
  _parse_program tokens program.

(** ** Cross-program analyzer ([CobolAnalyzer.py]) *)

(** [d[k]] on a dict: [KeyError] when [k] is absent. *)
Definition dict_get {V} (d : gmap string V) (k : string) : result V :=
  match d !! k with
  | Some v => Ok v
  | None => Raise KeyError
  end.

(** [for x in l: body], threading the loop state. *)
Fixpoint for_each {A St : Type} (l : list A) (body : St → A → result St)
    (s : St) : result St :=
  match l with
  | [] => Ok s
  | x :: l' => s' ← body s x; for_each l' body s'
  end.

Module CobolAnalyzer.
Record t : Type := mk {
  copybook_paths : list string;
  analyzed_programs : gmap string CobolProgram.t;
  call_graph : gmap string (gset string);
  resource_usage : gmap string (gset string)
}.

(** [CobolAnalyzer(copybook_paths)] *)
Definition new (copybook_paths : list string) : t := mk copybook_paths ∅ ∅ ∅.
End CobolAnalyzer.

(** One round of [for call in program.calls]. *)
Definition add_call (program_name : string) (call_graph : gmap string (gset string))
    (call : ProgramCall.t) : result (gmap string (gset string)) :=
  let target := ProgramCall.target call in
  callees ← dict_get call_graph program_name;
  let call_graph' := <[program_name := callees ∪ {[target]}]> call_graph in
  (* Mark this program as a caller of the target program *)
  match call_graph' !! target with
  | None => Ok (<[target := ∅]> call_graph')
  | Some _ => Ok call_graph'
  end.

(** One round of [for resource in program.resources]. *)
Definition add_resource (program_name : string)
    (resource_usage : gmap string (gset string)) (resource : Resource.t)
    : result (gmap string (gset string)) :=
  let resource_key := Resource.type resource +:+ ":" +:+ Resource.name resource in
  let resource_usage' :=
    match resource_usage !! resource_key with
    | None => <[resource_key := ∅]> resource_usage
    | Some _ => resource_usage
    end in
  users ← dict_get resource_usage' resource_key;
  Ok (<[resource_key := users ∪ {[program_name]}]> resource_usage').

(** The part of [analyze_program] after the parse. *)
Definition register (self : CobolAnalyzer.t) (program : CobolProgram.t)
    : result CobolAnalyzer.t :=
  let name := CobolProgram.name program in
  let analyzed_programs := <[name := program]> (CobolAnalyzer.analyzed_programs self) in
  (* Update call graph *)
  let call_graph := <[name := ∅]> (CobolAnalyzer.call_graph self) in
  call_graph' ← for_each (CobolProgram.calls program) (add_call name) call_graph;
  (* Update resource usage *)
  resource_usage' ← for_each (CobolProgram.resources program) (add_resource name)
                      (CobolAnalyzer.resource_usage self);
  Ok (CobolAnalyzer.mk (CobolAnalyzer.copybook_paths self) analyzed_programs
        call_graph' resource_usage').

(** [analyze_program(program_path)], the file holding [source_code]; the
    result is the analyzer after the call and the program returned. *)
Definition analyze_program (self : CobolAnalyzer.t) (program_path source_code : string)
    : result (CobolAnalyzer.t * CobolProgram.t) :=
  program ← parse program_path source_code;
  self' ← register self program;
  Ok (self', program).

(** A sequence of [analyze_program] calls on (path, text) pairs. *)
Definition analyze_all (self : CobolAnalyzer.t) (sources : list (string * string))
    : result CobolAnalyzer.t :=
  for_each sources (λ a src, r ← analyze_program a src.1 src.2; Ok r.1) self.

Definition find_caller_programs (self : CobolAnalyzer.t) (program_name : string)
    : gset string :=
  map_fold (λ caller callees callers,
              if bool_decide (program_name ∈ callees) then callers ∪ {[caller]}
              else callers)
    ∅ (CobolAnalyzer.call_graph self).

Definition find_called_programs (self : CobolAnalyzer.t) (program_name : string)
    : gset string :=
  match CobolAnalyzer.call_graph self !! program_name with
  | Some callees => callees
  | None => ∅
  end.

(** A double-quoted literal and a line feed, to write source text. *)
Definition quoted (s : string) : string :=
  String DQUOTE EmptyString +:+ s +:+ String DQUOTE EmptyString.
Definition nl : string := String LF EmptyString.

(** ** Vocabulary of the properties *)

(** Strings without a line feed. *)
Fixpoint no_lf (s : string) : bool :=
  match s with
  | String c s' => not_lf c && no_lf s'
  | EmptyString => true
  end.

(** Every pattern that matches consumes at least one character and stays
    within the text it was given. *)
Definition consumes (rest : string) (o : option nat) : Prop :=
  ∀ n, o = Some n → (1 <= n <= String.length rest)%nat.

Definition scan_bounded (line : string) (st : scan_state) : Prop :=
  (position st <= String.length line)%nat.

(** No pattern of the scan matches at the start of [rest]. *)
Definition unrecognized (rest : string) : Prop :=
  match_whitespace rest = None ∧ match_comment rest = None
  ∧ match_string_literal rest = None ∧ match_number rest = None
  ∧ match_identifier rest = None ∧ match_operator rest = None
  ∧ match_punctuation rest = None ∧ match_special rest = None.

Definition operator_star (t : Token.t) : Prop :=
  Token.type t = OPERATOR ∧ Token.value t = "*".

(** What the tokenizer's typing of a token guarantees: the type Section is
    never given, and a Keyword is a word of [KEYWORDS]. *)
Definition tokenizer_kind (t : Token.t) : Prop :=
  Token.type t ≠ SECTION
  ∧ (Token.type t = KEYWORD → str_in (upper (Token.value t)) KEYWORDS = true).

(** What the passes after the scope pass leave alone: the name of the
    program and its divisions. *)
Definition scope_view (program : CobolProgram.t) : string * gmap string Division.t :=
  (CobolProgram.name program, CobolProgram.divisions program).

(** No division of the map has a section. *)
Definition no_sections (divisions : gmap string Division.t) : Prop :=
  ∀ k d, divisions !! k = Some d → Division.sections d = ∅.

(** A state of the scope pass in which no section was ever opened. *)
Definition flat_scope (st : scope_state) : Prop :=
  current_section st = None
  ∧ (∀ d, current_division st = Some d → Division.sections d = ∅)
  ∧ no_sections (CobolProgram.divisions (sc_program st)).

(** The names of the files of a program, in registration order. *)
Definition file_names (program : CobolProgram.t) : list string :=
  FileReference.name <$> CobolProgram.files program.

(** A token scanned from [line]. *)
Definition scan_token (line : string) (t : Token.t) : Prop :=
  (no_lf line = true → ¬ operator_star t) ∧ tokenizer_kind t.

(** The first Keyword token of [l], uppercased. *)
Fixpoint first_keyword (l : list Token.t) : option string :=
  match l with
  | [] => None
  | t :: l' =>
      if is_type (Token.type t) KEYWORD then Some (upper (Token.value t))
      else first_keyword l'
  end.

Definition is_end_exec (t : Token.t) : bool :=
  String.eqb (upper (Token.value t)) "END-EXEC".

(** No token of [l] is END-EXEC. *)
Definition unterminated (l : list Token.t) : bool :=
  forallb (λ t, negb (is_end_exec t)) l.

(** The sublanguages whose blocks the resource pass scans. *)
Definition scanned_sublanguage (ty : string) : bool := str_in ty ["SQL"; "CICS"; "MQ"].

(** The first option that holds a value. *)
Definition or_else (a b : option string) : option string :=
  match a with Some _ => a | None => b end.

(** The resource a block state gives rise to, as [resources_body] adds it. *)
Definition with_resource (program : CobolProgram.t) (resource_type : string)
    (blk : block_state) (t : Token.t) : CobolProgram.t :=
  if truthy resource_type && truthy_opt (operation blk) then
    CobolProgram.set_resources program
      (CobolProgram.resources program
       ++ [Resource.mk
             (if truthy_opt (resource_name blk) then default "" (resource_name blk)
              else "UNKNOWN")
             resource_type (default "" (operation blk))
             (Token.line t, Token.column t)])
  else program.

(** The call targets of a program, in call order. *)
Definition targets (program : CobolProgram.t) : list string :=
  ProgramCall.target <$> CobolProgram.calls program.

(** The resource-index key of a resource. *)
Definition resource_key (resource : Resource.t) : string :=
  Resource.type resource +:+ ":" +:+ Resource.name resource.

(** ** Sample source text *)

Definition SELECT_STAR : string := "       EXEC SQL SELECT * FROM CUSTOMER END-EXEC".
Definition SELECT_COLUMN : string := "       EXEC SQL SELECT NAME FROM CUSTOMER END-EXEC".

Definition SECTION_SOURCE : string :=
  "       PROCEDURE DIVISION." +:+ nl +:+
  "       MAIN-LOGIC SECTION." +:+ nl +:+
  "       MAIN-PARA." +:+ nl +:+
  "           STOP RUN.".

Definition UNTERMINATED_SOURCE : string := "       EXEC SQL SELECT A FROM T".

(** A block closed by END-EXEC, then a block that is not. *)
Definition CLOSED_OPEN_SOURCE : string :=
  "       EXEC SQL SELECT A FROM T END-EXEC EXEC CICS READ FILE F".

Definition CLOSED_OPEN_TOKENS : list Token.t :=
  [Token.mk KEYWORD "EXEC" 1 8; Token.mk IDENTIFIER "SQL" 1 13;
   Token.mk KEYWORD "SELECT" 1 17; Token.mk IDENTIFIER "A" 1 24;
   Token.mk KEYWORD "FROM" 1 26; Token.mk IDENTIFIER "T" 1 31;
   Token.mk KEYWORD "END-EXEC" 1 33; Token.mk KEYWORD "EXEC" 1 42;
   Token.mk IDENTIFIER "CICS" 1 47; Token.mk KEYWORD "READ" 1 52;
   Token.mk KEYWORD "FILE" 1 57; Token.mk IDENTIFIER "F" 1 62].

(** An EXEC keyword inside a block that has no END-EXEC. *)
Definition NESTED_SOURCE : string := "       EXEC SQL SELECT A EXEC CICS READ FILE F".

Definition UNTERMINATED_TOKENS : list Token.t :=
  [Token.mk KEYWORD "EXEC" 1 8; Token.mk IDENTIFIER "SQL" 1 13;
   Token.mk KEYWORD "SELECT" 1 17; Token.mk IDENTIFIER "A" 1 24;
   Token.mk KEYWORD "FROM" 1 26; Token.mk IDENTIFIER "T" 1 31].

Definition CALLER_SOURCE : string := "       CALL " +:+ quoted "SUBPROG".

Definition FIRST_VERSION : string := "       CALL " +:+ quoted "AUDIT".
Definition SECOND_VERSION : string := "       MOVE A TO B".

Definition ORDERPROC_SOURCE : string := "       CALL " +:+ quoted "BILLING".
Definition BILLING_SOURCE : string := "       CALL " +:+ quoted "ORDERPROC".

Definition ORDERPROC_PROGRAM : CobolProgram.t :=
  CobolProgram.set_calls (CobolProgram.new "ORDERPROC" "src/ORDERPROC.cbl")
    [ProgramCall.mk "BILLING" false [] (1, 8)].
Definition BILLING_PROGRAM : CobolProgram.t :=
  CobolProgram.set_calls (CobolProgram.new "BILLING" "src/BILLING.cob")
    [ProgramCall.mk "ORDERPROC" false [] (1, 8)].

(** ** Vocabulary of the analyzer properties *)

(** The analyzer states reached from a fresh analyzer by registering
    programs. *)
Inductive reachable : CobolAnalyzer.t → Prop :=
  | reachable_new copybook_paths : reachable (CobolAnalyzer.new copybook_paths)
  | reachable_register self program self' :
      reachable self → register self program = Ok self' → reachable self'.

(** The registry, the call graph and the resource index agree: a registered
    program is filed under its name and its node holds its call targets, a
    node without a program has no callees, and the users of a resource are
    registered programs. *)
Definition consistent (self : CobolAnalyzer.t) : Prop :=
  (∀ k p, CobolAnalyzer.analyzed_programs self !! k = Some p →
          CobolProgram.name p = k
          ∧ CobolAnalyzer.call_graph self !! k = Some (list_to_set (targets p)))
  ∧ (∀ k callees, CobolAnalyzer.analyzed_programs self !! k = None →
                  CobolAnalyzer.call_graph self !! k = Some callees → callees = ∅)
  ∧ (∀ key users, CobolAnalyzer.resource_usage self !! key = Some users →
                  users ≠ ∅ ∧ users ⊆ dom (CobolAnalyzer.analyzed_programs self)).

(** ** Vocabulary of the parser properties *)

(** What each pass of [_parse_program] leaves alone: every field of the
    program but its own. *)
Definition but_scopes (p : CobolProgram.t) :=
  (CobolProgram.name p, CobolProgram.source_path p, CobolProgram.files p,
   CobolProgram.calls p, CobolProgram.resources p, CobolProgram.called_by p,
   CobolProgram.maps_used p, CobolProgram.copybooks p).

Definition but_files (p : CobolProgram.t) :=
  (CobolProgram.name p, CobolProgram.source_path p, CobolProgram.divisions p,
   CobolProgram.data_items p, CobolProgram.calls p, CobolProgram.resources p,
   CobolProgram.called_by p, CobolProgram.maps_used p, CobolProgram.copybooks p).

Definition but_calls (p : CobolProgram.t) :=
  (CobolProgram.name p, CobolProgram.source_path p, CobolProgram.divisions p,
   CobolProgram.data_items p, CobolProgram.files p, CobolProgram.resources p,
   CobolProgram.called_by p, CobolProgram.maps_used p, CobolProgram.copybooks p).

Definition but_resources (p : CobolProgram.t) :=
  (CobolProgram.name p, CobolProgram.source_path p, CobolProgram.divisions p,
   CobolProgram.data_items p, CobolProgram.files p, CobolProgram.calls p,
   CobolProgram.called_by p, CobolProgram.maps_used p, CobolProgram.copybooks p).

Definition but_copybooks (p : CobolProgram.t) :=
  (CobolProgram.name p, CobolProgram.source_path p, CobolProgram.divisions p,
   CobolProgram.data_items p, CobolProgram.files p, CobolProgram.calls p,
   CobolProgram.resources p, CobolProgram.called_by p, CobolProgram.maps_used p).

Definition but_maps (p : CobolProgram.t) :=
  (CobolProgram.name p, CobolProgram.source_path p, CobolProgram.divisions p,
   CobolProgram.data_items p, CobolProgram.files p, CobolProgram.calls p,
   CobolProgram.resources p, CobolProgram.called_by p, CobolProgram.copybooks p).

(** Token [k] is the word COPY as a Keyword and the token after it, an
    Identifier or a Literal, reads [name] in upper case. *)
Definition copy_operand (tokens : list Token.t) (k : nat) (name : string) : Prop :=
  ∃ t n, tokens !! k = Some t ∧ tokens !! (k + 1)%nat = Some n
         ∧ Token.type t = KEYWORD ∧ upper (Token.value t) = "COPY"
         ∧ (Token.type n = IDENTIFIER ∨ Token.type n = LITERAL)
         ∧ name = upper (Token.value n).

(** The operands of USING among the tokens [l] that stand on line [line]:
    the Identifier tokens after the first USING keyword, in upper case.
    [found] tells that a USING keyword came before [l]. *)
Fixpoint using_operands (line : Z) (found : bool) (l : list Token.t) : list string :=
  match l with
  | [] => []
  | t :: l' =>
      if bool_decide (Token.line t = line) then
        if is_type (Token.type t) KEYWORD && String.eqb (upper (Token.value t)) "USING"
        then using_operands line true l'
        else if found && is_type (Token.type t) IDENTIFIER
             then upper (Token.value t) :: using_operands line found l'
             else using_operands line found l'
      else []
  end.

(** Token [k] is the word CALL as a Keyword and [call] is the call read
    there: the text of the Literal after it as it stands, or the Identifier
    after it in upper case and marked dynamic; the target is not empty; the
    parameters are the operands of USING on the line of the CALL. *)
Definition call_site (tokens : list Token.t) (k : nat) (call : ProgramCall.t) : Prop :=
  ∃ t n, tokens !! k = Some t ∧ tokens !! (k + 1)%nat = Some n
         ∧ Token.type t = KEYWORD ∧ upper (Token.value t) = "CALL"
         ∧ ((Token.type n = LITERAL
             ∧ ProgramCall.target call = Token.value n
             ∧ ProgramCall.is_dynamic call = false)
            ∨ (Token.type n = IDENTIFIER
               ∧ ProgramCall.target call = upper (Token.value n)
               ∧ ProgramCall.is_dynamic call = true))
         ∧ ProgramCall.target call ≠ ""
         ∧ ProgramCall.parameters call
           = using_operands (Token.line t) false (drop (k + 2) tokens)
         ∧ ProgramCall.location call = (Token.line t, Token.column t).

(** [r] is a resource read at an EXEC keyword: the word after EXEC, in
    upper case, is its type, one of SQL, CICS and MQ; its operation is the
    first Keyword token after that word; its name is not empty. *)
Definition exec_resource (tokens : list Token.t) (r : Resource.t) : Prop :=
  Resource.type r ∈ ["SQL"; "CICS"; "MQ"]
  ∧ Resource.operation r ≠ "" ∧ Resource.name r ≠ ""
  ∧ ∃ k t n, tokens !! k = Some t ∧ tokens !! (k + 1)%nat = Some n
             ∧ Token.type t = KEYWORD ∧ upper (Token.value t) = "EXEC"
             ∧ upper (Token.value n) = Resource.type r
             ∧ first_keyword (drop (k + 2) tokens) = Some (Resource.operation r)
             ∧ Resource.location r = (Token.line t, Token.column t).

(** Token [k] is the word SELECT as a Keyword, the token after it is an
    Identifier, and [f] has its name, in upper case, and the position of
    the SELECT. *)
Definition select_site (tokens : list Token.t) (k : nat) (f : FileReference.t) : Prop :=
  ∃ t n, tokens !! k = Some t ∧ tokens !! (k + 1)%nat = Some n
         ∧ Token.type t = KEYWORD ∧ upper (Token.value t) = "SELECT"
         ∧ Token.type n = IDENTIFIER
         ∧ FileReference.name f = upper (Token.value n)
         ∧ FileReference.location f = (Token.line t, Token.column t).

(** [f] is a file reference as the second scan of
    [_extract_file_references] makes them: named after an Identifier token,
    with access mode UNKNOWN and nothing else known. *)
Definition inferred_file (tokens : list Token.t) (f : FileReference.t) : Prop :=
  FileReference.access_mode f = "UNKNOWN"
  ∧ FileReference.organization f = None
  ∧ FileReference.record_key f = None
  ∧ ∃ j t, tokens !! j = Some t ∧ Token.type t = IDENTIFIER
           ∧ FileReference.name f = upper (Token.value t).

(** [p] is [start] with file references added by the second scan: their
    names differ from each other and from the names [start] has. *)
Definition inferred_from (tokens : list Token.t) (start p : CobolProgram.t) : Prop :=
  but_files p = but_files start
  ∧ ∃ inferred,
      CobolProgram.files p = CobolProgram.files start ++ inferred
      ∧ NoDup (FileReference.name <$> inferred)
      ∧ Forall (λ f, (FileReference.name f ∉ file_names start)
                     ∧ inferred_file tokens f) inferred.

(** Token [j] reads SEND or RECEIVE, the token after it reads MAP, and the
    token after that reads [m], all in upper case. *)
Definition map_operand (tokens : list Token.t) (j : nat) (m : string) : Prop :=
  ∃ a b c, tokens !! j = Some a ∧ tokens !! (j + 1)%nat = Some b
           ∧ tokens !! (j + 2)%nat = Some c
           ∧ str_in (upper (Token.value a)) SEND_RECEIVE = true
           ∧ upper (Token.value b) = "MAP" ∧ m = upper (Token.value c).

(** Tokens [j] and [j + 1] are both Keywords. *)
Definition keyword_pair (tokens : list Token.t) (j : nat) : Prop :=
  ∃ a b, tokens !! j = Some a ∧ tokens !! (j + 1)%nat = Some b
         ∧ Token.type a = KEYWORD ∧ Token.type b = KEYWORD.

(** Token [i] is the Keyword EXEC, the token after it reads CICS, and [j]
    lies in the block they open: from [i + 2] up to [j] no token reads
    END-EXEC. *)
Definition cics_block (tokens : list Token.t) (i j : nat) : Prop :=
  (∃ t n, tokens !! i = Some t ∧ tokens !! (i + 1)%nat = Some n
          ∧ Token.type t = KEYWORD ∧ upper (Token.value t) = "EXEC"
          ∧ upper (Token.value n) = "CICS")
  ∧ (i + 2 <= j)%nat
  ∧ ∀ k t, (i + 2 <= k <= j)%nat → tokens !! k = Some t → is_end_exec t = false.

(** The map [m] as [_extract_maps] finds it from token [anchor]: by the
    bare pattern there, or in the EXEC CICS block that [anchor] opens. *)
Definition map_from (tokens : list Token.t) (anchor : nat) (m : string) : Prop :=
  (map_operand tokens anchor m ∧ keyword_pair tokens anchor)
  ∨ ∃ j, cics_block tokens anchor j ∧ map_operand tokens j m.

(** The division open at token [i]: the last Division token before [i]
    reads [name], in upper case. *)
Definition open_division (tokens : list Token.t) (i : nat) (name : string) : Prop :=
  ∃ j t, (j < i)%nat ∧ tokens !! j = Some t
         ∧ Token.type t = DIVISION ∧ upper (Token.value t) = name
         ∧ ∀ k t', (j < k < i)%nat → tokens !! k = Some t' → Token.type t' ≠ DIVISION.

(** [d] is a division read at a Division token that reads [k]: it has that
    name, starts on the line of the token and has no section. *)
Definition division_at (tokens : list Token.t) (k : string) (d : Division.t) : Prop :=
  Division.name d = k ∧ Division.sections d = ∅
  ∧ ∃ j t, tokens !! j = Some t ∧ Token.type t = DIVISION
           ∧ upper (Token.value t) = k ∧ Division.start_line d = Token.line t.

(** Token [j] is a Number that reads the level [level], the token after it
    is an Identifier that reads [k], and the DATA division is open there. *)
Definition data_entry (tokens : list Token.t) (j : nat) (k : string) (level : Z)
    (location : Z * Z) : Prop :=
  ∃ t n, tokens !! j = Some t ∧ tokens !! (j + 1)%nat = Some n
         ∧ Token.type t = NUMBER ∧ Token.type n = IDENTIFIER
         ∧ k = upper (Token.value n) ∧ int (Token.value t) = Some level
         ∧ location = (Token.line t, Token.column t)
         ∧ open_division tokens j "DATA".

Definition data_item_at (tokens : list Token.t) (k : string) (item : DataItem.t) : Prop :=
  DataItem.name item = k
  ∧ ∃ j, data_entry tokens j k (DataItem.level item) (DataItem.location item).

(** The state of the scope pass at token [sc_i st], started from
    [program], on a stream in which no token has the type Section. *)
Definition scope_inv (tokens : list Token.t) (program : CobolProgram.t)
    (st : scope_state) : Prop :=
  current_section st = None
  ∧ but_scopes (sc_program st) = but_scopes program
  ∧ (∀ k d, CobolProgram.divisions (sc_program st) !! k = Some d →
            CobolProgram.divisions program !! k = Some d ∨ division_at tokens k d)
  ∧ (∀ d, current_division st = Some d →
          division_at tokens (Division.name d) d
          ∧ open_division tokens (sc_i st) (Division.name d))
  ∧ (current_division st = None →
     ∀ k t, (k < sc_i st)%nat → tokens !! k = Some t → Token.type t ≠ DIVISION)
  ∧ (∀ j t, (j < sc_i st)%nat → tokens !! j = Some t → Token.type t = DIVISION →
            is_Some (CobolProgram.divisions (sc_program st) !! upper (Token.value t))
            ∨ ∃ d, current_division st = Some d
                   ∧ Division.name d = upper (Token.value t))
  ∧ (∀ k item, CobolProgram.data_items (sc_program st) !! k = Some item →
               CobolProgram.data_items program !! k = Some item
               ∨ data_item_at tokens k item)
  ∧ ∀ j k level location, (j < sc_i st)%nat → data_entry tokens j k level location →
      is_Some (CobolProgram.data_items (sc_program st) !! k).

(** What [parse] reads from the tokens of a source text, field by field. *)
Record parsed (tokens : list Token.t) (source_path : string)
    (program : CobolProgram.t) : Prop := mk_parsed {
  parsed_name : CobolProgram.name program = program_name_of source_path;
  parsed_source_path : CobolProgram.source_path program = source_path;
  parsed_called_by : CobolProgram.called_by program = ∅;
  parsed_divisions :
    ∀ k d, CobolProgram.divisions program !! k = Some d → division_at tokens k d;
  parsed_division_tokens :
    ∀ j t, tokens !! j = Some t → Token.type t = DIVISION →
           is_Some (CobolProgram.divisions program !! upper (Token.value t));
  parsed_data_items :
    ∀ k item, CobolProgram.data_items program !! k = Some item →
              data_item_at tokens k item;
  parsed_data_entries :
    ∀ j k level location, data_entry tokens j k level location →
                          is_Some (CobolProgram.data_items program !! k);
  parsed_files :
    ∃ selected inferred,
      CobolProgram.files program = selected ++ inferred
      ∧ Forall (λ f, ∃ k, select_site tokens k f) selected
      ∧ (∀ k f, select_site tokens k f
                → FileReference.name f ∈ FileReference.name <$> selected)
      ∧ NoDup (FileReference.name <$> inferred)
      ∧ Forall (λ f, (FileReference.name f ∉ FileReference.name <$> selected)
                     ∧ inferred_file tokens f) inferred;
  parsed_calls :
    ∀ call, call ∈ CobolProgram.calls program ↔ ∃ k, call_site tokens k call;
  parsed_resources : Forall (exec_resource tokens) (CobolProgram.resources program);
  parsed_copybooks :
    ∀ name, name ∈ CobolProgram.copybooks program ↔ ∃ k, copy_operand tokens k name;
  parsed_maps :
    ∀ m, m ∈ CobolProgram.maps_used program ↔ ∃ a, map_from tokens a m
}.

(** ** Vocabulary of the tokenizer properties *)

(** The text a token stands for in its line: its value, within its quotes
    for a Literal. *)
Definition shown (t : Token.t) : string :=
  if is_type (Token.type t) LITERAL
  then String DQUOTE (Token.value t +:+ String DQUOTE EmptyString)
  else Token.value t.

Definition all_chars (p : ascii → bool) (s : string) : bool :=
  forallb p (list_ascii_of_string s).

(** A letter, then letters, digits and hyphens. *)
Definition word (s : string) : bool :=
  match s with
  | String c tl =>
      (is_lower c || is_upper c) && all_chars (λ x, Ascii.eqb x "-" || is_alnum x) tl
  | EmptyString => false
  end.

(** One digit or more. *)
Definition digits (s : string) : bool :=
  match s with
  | EmptyString => false
  | _ => all_chars is_digit s
  end.

(** Digits, or digits, a point and digits. *)
Definition numeral (s : string) : Prop :=
  digits s = true ∨ ∃ a b, s = a +:+ String "." b ∧ digits a = true ∧ digits b = true.

(** One character, of [chars]. *)
Definition single (chars s : string) : bool :=
  match s with
  | String c EmptyString => existsb (Ascii.eqb c) (list_ascii_of_string chars)
  | _ => false
  end.

(** What the type of a token says about its text. *)
Definition lexical (t : Token.t) : Prop :=
  match Token.type t with
  | KEYWORD | IDENTIFIER | DIVISION =>
      word (Token.value t) = true ∧ Token.type t = identifier_type (Token.value t)
  | NUMBER => numeral (Token.value t)
  | LITERAL => all_chars (λ x, negb (Ascii.eqb x DQUOTE)) (Token.value t) = true
  | OPERATOR => single "+-*/=<>" (Token.value t) = true
  | PUNCTUATION => single ".,;:" (Token.value t) = true
  | SPECIAL => single "(){}[]" (Token.value t) = true
  | UNKNOWN => String.length (Token.value t) = 1%nat
  | COMMENT => True
  | SECTION | PARAGRAPH | STATEMENT => False
  end.

(** [s[p:p+n]] *)
Definition substring (p n : nat) (s : string) : string := str_take n (str_drop p s).

(** The text of [t] stands in [line] from offset [p] on. *)
Definition placed (line : string) (p : nat) (t : Token.t) : Prop :=
  (1 <= String.length (shown t))%nat
  ∧ (p + String.length (shown t) <= String.length line)%nat
  ∧ substring p (String.length (shown t)) line = shown t.

(** A token of the scan of the content of a line, whose first column is
    [col0]. *)
Definition scanned_in (line : string) (current_line col0 : Z) (t : Token.t) : Prop :=
  Token.line t = current_line ∧ lexical t
  ∧ ∃ p, Token.column t = col0 + Z.of_nat p ∧ placed line p t.

Definition column_lt (a b : Token.t) : Prop := Token.column a < Token.column b.

(** The text of [a] ends before the text of [b] begins. *)
Definition ends_before (a b : Token.t) : Prop :=
  Token.column a + Z.of_nat (String.length (shown a)) <= Token.column b.

(** The token of a line with [*] in column 7 and text after it. *)
Definition column7_comment (l : string) (t : Token.t) : Prop :=
  Token.type t = COMMENT ∧ Token.column t = 7
  ∧ String.get 6 l = Some "*"%char ∧ (7 < String.length l)%nat
  ∧ Token.value t = strip (str_drop 7 l).

(** The text of [t] stands in the source line [l] at the column of [t]. *)
Definition in_line (l : string) (t : Token.t) : Prop :=
  7 <= Token.column t ∧ placed l (Z.to_nat (Token.column t - 1)) t.

(** [t] points into the source lines [lines], the first of which has the
    number [first]. *)
Definition in_source (first : Z) (lines : list string) (t : Token.t) : Prop :=
  first <= Token.line t
  ∧ ∃ l, lines !! Z.to_nat (Token.line t - first) = Some l
         ∧ (column7_comment l t ∨ in_line l t).

(** Source order: by line, then by column. *)
Definition before (a b : Token.t) : Prop :=
  Token.line a < Token.line b
  ∨ (Token.line a = Token.line b ∧ Token.column a < Token.column b).

(** No character of [s] is [c]. *)
Definition free_of (c : ascii) (s : string) : bool :=
  negb (existsb (Ascii.eqb c) (list_ascii_of_string s)).

(** * Properties *)

(** ** Loops *)

(** A loop whose body keeps an invariant [I] and decreases a measure [m]
    ends within [m s] rounds, in a state where the condition is false. *)
Lemma while_ok {St : Type} (I : St → Prop) (m : St → nat)
    (cond : St → result bool) (body : St → result St) :
  (∀ s, I s →
        ∃ c, cond s = Ok c ∧
             (c = true → ∃ s', body s = Ok s' ∧ I s' ∧ (m s' < m s)%nat)) →
  ∀ fuel s, I s → (m s < fuel)%nat →
    ∃ s', while fuel cond body s = Ok s' ∧ I s' ∧ cond s' = Ok false.
Proof.
  intros Hstep fuel. induction fuel as [|fuel IH]; intros s HI Hm; [lia|].
  destruct (Hstep s HI) as (c & Hc & Hbody). simpl. rewrite Hc. simpl.
  destruct c.
  - destruct (Hbody eq_refl) as (s' & Hb & HI' & Hlt). rewrite Hb. simpl.
    apply IH; [done | lia].
  - eauto.
Qed.

Lemma while_done {St : Type} (fuel : nat) (cond : St → result bool)
    (body : St → result St) (s : St) :
  cond s = Ok false → while (S fuel) cond body s = Ok s.
Proof. intros H. simpl. by rewrite H. Qed.

Lemma while_step {St : Type} (fuel : nat) (cond : St → result bool)
    (body : St → result St) (s s' : St) :
  cond s = Ok true → body s = Ok s' →
  while (S fuel) cond body s = while fuel cond body s'.
Proof. intros Hc Hb. simpl. by rewrite Hc, Hb. Qed.

(** A loop over an index that only grows and stays below [n] while the
    condition holds. *)
Lemma while_index_ok {St : Type} (I : St → Prop) (idx : St → nat) (n : nat)
    (cond : St → result bool) (body : St → result St) :
  (∀ s, I s →
        ∃ c, cond s = Ok c ∧
             (c = true →
              (idx s < n)%nat ∧ ∃ s', body s = Ok s' ∧ I s' ∧ (idx s < idx s')%nat)) →
  ∀ s, I s → ∃ s', while (S n) cond body s = Ok s' ∧ I s' ∧ cond s' = Ok false.
Proof.
  intros Hstep s HI.
  apply (while_ok I (λ s, n - idx s)%nat cond body); [|done|lia].
  intros s0 H0. destruct (Hstep s0 H0) as (c & Hc & Hb). exists c. split; [done|].
  intros ->. destruct (Hb eq_refl) as (Hlt & s' & Hs' & HI' & Hidx).
  exists s'. split; [done|]. split; [done|]. lia.
Qed.

(** ** Strings *)

Lemma str_drop_length (n : nat) (s : string) :
  String.length (str_drop n s) = (String.length s - n)%nat.
Proof.
  revert s. induction n as [|n IH]; intros [|c s]; simpl; auto.
Qed.

Lemma str_take_all (s : string) : str_take (String.length s) s = s.
Proof. induction s as [|c s IH]; simpl; congruence. Qed.

Lemma str_drop_all (s : string) : str_drop (String.length s) s = EmptyString.
Proof. induction s as [|c s IH]; simpl; congruence. Qed.

Lemma span_le (p : ascii → bool) (s : string) : (span p s <= String.length s)%nat.
Proof. induction s as [|c s IH]; simpl; [lia|]. destruct (p c); simpl; lia. Qed.

Lemma starts_with_length (c : ascii) (s : string) :
  starts_with c s = true → (1 <= String.length s)%nat.
Proof. destruct s; simpl; [done | lia]. Qed.

Lemma str_index_ok (s : string) (i : nat) :
  (i < String.length s)%nat → ∃ c, str_index s i = Ok c ∧ String.get i s = Some c.
Proof.
  revert i. induction s as [|c s IH]; intros i H; simpl in H; [lia|].
  unfold str_index. destruct i as [|i]; simpl; [eauto|].
  destruct (IH i ltac:(lia)) as (c' & _ & Hc'). rewrite Hc'. eauto.
Qed.

Lemma span_no_lf (s : string) : no_lf s = true → span not_lf s = String.length s.
Proof.
  induction s as [|c s IH]; simpl; [done|].
  intros [Hc Hs]%andb_true_iff. rewrite Hc. by rewrite IH.
Qed.

Lemma no_lf_drop (n : nat) (s : string) : no_lf s = true → no_lf (str_drop n s) = true.
Proof.
  revert s. induction n as [|n IH]; intros [|c s]; simpl; auto.
  intros [_ Hs]%andb_true_iff. by apply IH.
Qed.

Lemma no_lf_rstrip (s : string) : no_lf s = true → no_lf (rstrip s) = true.
Proof.
  induction s as [|c s IH]; simpl; [done|].
  intros [Hc Hs]%andb_true_iff. specialize (IH Hs).
  destruct (rstrip s) as [|c' r].
  - destruct (is_space c); simpl; [done|]. by rewrite Hc.
  - simpl in *. by rewrite Hc, IH.
Qed.

Lemma linebreak_LF : is_linebreak LF = true.
Proof. reflexivity. Qed.

Lemma not_linebreak_not_lf (c : ascii) : is_linebreak c = false → not_lf c = true.
Proof.
  intros H. unfold not_lf. destruct (Ascii.eqb_spec c LF) as [->|]; [|done].
  by rewrite linebreak_LF in H.
Qed.

(** No line of [splitlines] holds a line feed. *)
Lemma splitlines_no_lf (s : string) : Forall (λ l, no_lf l = true) (splitlines s).
Proof.
  assert (H : ∀ n s, (String.length s < n)%nat →
                     Forall (λ l, no_lf l = true) (splitlines s)).
  { clear s. induction n as [|n IH]; intros s Hn; [lia|].
    destruct s as [|c s]; simpl; [constructor|].
    simpl in Hn. destruct (is_linebreak c) eqn:Hc.
    - destruct s as [|c' s]; [by repeat constructor|].
      simpl in Hn.
      destruct (Ascii.eqb c CR && Ascii.eqb c' LF);
        (constructor; [done | apply IH; simpl; lia]).
    - pose proof (IH s ltac:(lia)) as Hs.
      destruct (splitlines s) as [|l ls]; constructor; simpl.
      + by rewrite (not_linebreak_not_lf c Hc).
      + constructor.
      + rewrite (not_linebreak_not_lf c Hc). by inversion Hs.
      + by inversion Hs. }
  apply (H (S (String.length s))). lia.
Qed.

(** ** Tokenizer *)

Lemma match_whitespace_consumes rest : consumes rest (match_whitespace rest).
Proof.
  intros n. unfold match_whitespace.
  destruct (span is_space rest =? 0)%nat eqn:E; [done|].
  intros [= <-]. apply Nat.eqb_neq in E. pose proof (span_le is_space rest). lia.
Qed.

Lemma match_comment_consumes rest : consumes rest (match_comment rest).
Proof.
  intros n. destruct rest as [|c tl]; simpl; [done|].
  pose proof (span_le not_lf tl).
  repeat case_match; intros [= <-]; lia.
Qed.

Lemma match_string_literal_consumes rest : consumes rest (match_string_literal rest).
Proof.
  intros n. destruct rest as [|c tl]; simpl; [done|].
  destruct (Ascii.eqb c DQUOTE); [|done].
  destruct (starts_with _ _) eqn:E; [|done]. intros [= <-].
  apply starts_with_length in E. rewrite str_drop_length in E. lia.
Qed.

Lemma match_number_consumes rest : consumes rest (match_number rest).
Proof.
  intros n. unfold match_number.
  destruct (span is_digit rest =? 0)%nat eqn:E; [done|].
  apply Nat.eqb_neq in E. pose proof (span_le is_digit rest).
  destruct (starts_with _ _ && _) eqn:E'; intros [= <-]; [|lia].
  apply andb_true_iff in E' as [E1 _]. apply starts_with_length in E1.
  pose proof (span_le is_digit (str_drop 1 (str_drop (span is_digit rest) rest))) as H'.
  rewrite !str_drop_length in *. lia.
Qed.

Lemma match_identifier_consumes rest : consumes rest (match_identifier rest).
Proof.
  intros n. destruct rest as [|c tl]; simpl; [done|].
  destruct (is_alnum c); [|done]. intros [= <-].
  pose proof (span_le (λ x, Ascii.eqb x "-" || is_alnum x) tl). lia.
Qed.

Lemma match_class_consumes chars rest : consumes rest (match_class chars rest).
Proof.
  intros n. destruct rest as [|c tl]; simpl; [done|].
  destruct (existsb _ _); [|done]. intros [= <-]. lia.
Qed.

Lemma match_comment_star (tl : string) :
  no_lf tl = true → match_comment (String "*" tl) = Some (S (String.length tl)).
Proof.
  intros H. simpl. rewrite (span_no_lf tl H), str_drop_all. reflexivity.
Qed.

Lemma identifier_type_not_operator (text : string) : identifier_type text ≠ OPERATOR.
Proof. unfold identifier_type. repeat case_match; discriminate. Qed.

Lemma match_class_take (chars rest : string) (n : nat) :
  match_class chars rest = Some n →
  ∃ c tl, rest = String c tl ∧ str_take n rest = String c EmptyString.
Proof.
  destruct rest as [|c tl]; simpl; [done|].
  destruct (existsb _ _); [|done]. intros [= <-]. eauto.
Qed.

Lemma identifier_type_kind (text : string) (line column : Z) :
  tokenizer_kind (Token.mk (identifier_type text) text line column).
Proof.
  unfold tokenizer_kind, identifier_type. cbn [Token.type Token.value].
  destruct (str_in (upper text) DIVISIONS); [by split|].
  destruct (str_in (upper text) KEYWORDS) eqn:E; by split.
Qed.

(** A pattern that matched contradicts [unrecognized]. *)
Local Ltac matched := intros (? & ? & ? & ? & ? & ? & ? & ?); discriminate.

(** A token whose type is neither Operator, Keyword nor Section. *)
Local Ltac plain_token :=
  split; [intros _ [? _]; done | split; [done | intros ?; done]].

(** One round of the scan moves [position] forward, within the line, and
    appends at most one token; on a line without a line feed that token is
    not the operator [*]; when no pattern matches it is the Unknown token of
    the character at [position]. *)
Lemma _tokenize_line_body_progress (current_line : Z) (line : string) (st : scan_state) :
  (position st < String.length line)%nat →
  ∃ st', _tokenize_line_body current_line line st = Ok st'
         ∧ (position st < position st' <= String.length line)%nat
         ∧ (scanned st' = scanned st
            ∨ ∃ t, scanned st' = scanned st ++ [t] ∧ scan_token line t)
         ∧ (unrecognized (str_drop (position st) line) →
            ∃ c, String.get (position st) line = Some c
                 ∧ st' = emit current_line st UNKNOWN (String c EmptyString) 1).
Proof.
  intros Hpos. unfold _tokenize_line_body, unrecognized.
  set (rest := str_drop (position st) line).
  assert (Hlen : String.length rest = (String.length line - position st)%nat)
    by apply str_drop_length.
  pose proof (match_whitespace_consumes rest) as H1.
  pose proof (match_comment_consumes rest) as H2.
  pose proof (match_string_literal_consumes rest) as H3.
  pose proof (match_number_consumes rest) as H4.
  pose proof (match_identifier_consumes rest) as H5.
  pose proof (match_class_consumes "+-*/=<>" rest) as H6.
  pose proof (match_class_consumes ".,;:" rest) as H7.
  pose proof (match_class_consumes "(){}[]" rest) as H8.
  unfold match_operator, match_punctuation, match_special.
  destruct (match_whitespace rest) as [n|];
    [specialize (H1 n eq_refl); eexists; split; [done|]; simpl;
     split; [lia|]; split; [eauto | matched]|].
  destruct (match_comment rest) as [n|] eqn:Ecomment;
    [specialize (H2 n eq_refl); eexists; split; [done|]; simpl;
     split; [lia|]; split; [|matched];
     right; eexists; split; [done|]; plain_token|].
  destruct (match_string_literal rest) as [n|];
    [specialize (H3 n eq_refl); eexists; split; [done|]; simpl;
     split; [lia|]; split; [|matched];
     right; eexists; split; [done|]; plain_token|].
  destruct (match_number rest) as [n|];
    [specialize (H4 n eq_refl); eexists; split; [done|]; simpl;
     split; [lia|]; split; [|matched];
     right; eexists; split; [done|]; plain_token|].
  destruct (match_identifier rest) as [n|];
    [specialize (H5 n eq_refl); eexists; split; [done|]; simpl;
     split; [lia|]; split; [|matched];
     right; eexists; split; [done|];
     split; [intros _ [? _]; by eapply identifier_type_not_operator
            |apply identifier_type_kind]|].
  destruct (match_class "+-*/=<>" rest) as [n|] eqn:Eop.
  { specialize (H6 n eq_refl). eexists; split; [done|]; simpl.
    split; [lia|]. split; [|matched].
    right. eexists; split; [done|]. split; [|split; [done | intros ?; done]].
    intros Hlf [_ Hv]. simpl in Hv.
    destruct (match_class_take _ _ _ Eop) as (c & tl & Hrest & Htake).
    rewrite Htake in Hv. injection Hv as ->.
    rewrite Hrest, match_comment_star in Ecomment; [done|].
    assert (Hr : no_lf rest = true) by by apply no_lf_drop.
    rewrite Hrest in Hr. exact Hr. }
  destruct (match_class ".,;:" rest) as [n|];
    [specialize (H7 n eq_refl); eexists; split; [done|]; simpl;
     split; [lia|]; split; [|matched];
     right; eexists; split; [done|]; plain_token|].
  destruct (match_class "(){}[]" rest) as [n|];
    [specialize (H8 n eq_refl); eexists; split; [done|]; simpl;
     split; [lia|]; split; [|matched];
     right; eexists; split; [done|]; plain_token|].
  destruct (str_index_ok line (position st) Hpos) as (c & -> & Hget). simpl.
  eexists; split; [done|]; simpl. split; [lia|]. split; [|eauto].
  right; eexists; split; [done|]; plain_token.
Qed.

(** The scan of a line from any state within the line ends with a token list
    that extends the tokens already scanned, by tokens scanned from the
    line. *)
Lemma _tokenize_line_from_ok (current_line : Z) (line : string) (st : scan_state) :
  scan_bounded line st →
  ∃ more, _tokenize_line_from current_line line st = Ok (scanned st ++ more)
          ∧ Forall (scan_token line) more.
Proof.
  intros Hb. unfold _tokenize_line_from.
  destruct (while_ok
    (λ s, scan_bounded line s
          ∧ ∃ more, scanned s = scanned st ++ more ∧ Forall (scan_token line) more)
    (λ s, String.length line - position s)%nat
    (_tokenize_line_cond line) (_tokenize_line_body current_line line))
    with (fuel := S (String.length line)) (s := st)
    as (st' & Hw & [_ (more & Hmore & HP)] & _).
  - intros s [Hs (more & Hmore & HP)]. eexists; split; [done|].
    intros Hc%Nat.ltb_lt.
    destruct (_tokenize_line_body_progress current_line line s Hc)
      as (s' & -> & Hp & Ht & _).
    exists s'. split; [done|]. unfold scan_bounded. split; [|lia].
    split; [lia|]. rewrite Hmore in Ht.
    destruct Ht as [->|(t & -> & Ht)]; [eauto|].
    rewrite <- app_assoc. eexists; split; [done|].
    apply Forall_app; split; [done|]. by constructor.
  - split; [done|]. exists []. by rewrite app_nil_r.
  - lia.
  - rewrite Hw. simpl. rewrite Hmore. eauto.
Qed.

Lemma _tokenize_line_ok (current_line current_column : Z) (line : string) :
  ∃ toks, _tokenize_line current_line current_column line = Ok toks
          ∧ Forall (scan_token line) toks.
Proof.
  destruct (_tokenize_line_from_ok current_line line (mk_scan 0 current_column []))
    as (more & H & HP); [unfold scan_bounded; simpl; lia|].
  unfold _tokenize_line. rewrite H. eauto.
Qed.

Lemma tokenize_lines_ok (lines : list string) (line_num : Z) (tokens : list Token.t) :
  ∃ more, tokenize_lines lines line_num tokens = Ok (tokens ++ more)
          ∧ Forall tokenizer_kind more
          ∧ (Forall (λ l, no_lf l = true) lines →
             Forall (λ t, ¬ operator_star t) more).
Proof.
  revert line_num tokens.
  induction lines as [|line lines IH]; intros line_num tokens; simpl.
  - exists []. by rewrite app_nil_r.
  - assert (Hline : ∀ toks,
      Forall (scan_token (rstrip (str_drop 6 line))) toks →
      ∃ more, tokenize_lines lines (line_num + 1) (tokens ++ toks) = Ok (tokens ++ more)
              ∧ Forall tokenizer_kind more
              ∧ (Forall (λ l, no_lf l = true) (line :: lines) →
                 Forall (λ t, ¬ operator_star t) more)).
    { intros toks Htoks. edestruct IH as (more & -> & HK & HP).
      rewrite <- app_assoc. eexists; split; [done|]. split.
      - apply Forall_app; split; [|done].
        eapply Forall_impl; [exact Htoks|]. by intros t [_ ?].
      - intros [Hl Hls]%Forall_cons. apply Forall_app; split; [|auto].
        eapply Forall_impl; [exact Htoks|]. intros t [Ht _]. apply Ht.
        by apply no_lf_rstrip, no_lf_drop. }
    destruct (6 <? String.length line)%nat eqn:E6.
    2:{ edestruct IH as (more & -> & HK & HP). eexists; split; [done|].
        split; [done|]. intros [_ ?]%Forall_cons. auto. }
    apply Nat.ltb_lt in E6.
    destruct (str_index_ok line 6 E6) as (c & -> & _). simpl.
    destruct (_tokenize_line_ok line_num 7 (rstrip (str_drop 6 line)))
      as (toks & Htoks & HP).
    destruct (7 <? String.length line)%nat; simpl.
    + destruct (Ascii.eqb c "*").
      * apply Hline. constructor; [|done]. plain_token.
      * rewrite Htoks. simpl. by apply Hline.
    + rewrite Htoks. simpl. by apply Hline.
Qed.

(** [tokenize] returns on every source text; no token is the operator [*],
    none has the type Section, and every Keyword is a word of [KEYWORDS]. *)
Lemma tokenize_ok (source_code : string) :
  ∃ tokens, tokenize source_code = Ok tokens
            ∧ Forall (λ t, ¬ operator_star t) tokens
            ∧ Forall tokenizer_kind tokens.
Proof.
  destruct (tokenize_lines_ok (splitlines source_code) 1 []) as (more & H & HK & HP).
  exists more. split; [apply H|]. split; [|done]. apply HP, splitlines_no_lf.
Qed.

(** C9.  When the line scan reaches a [*] outside a literal (the text from
    [position] on is [*] followed by [tail]), on a source line (no line
    feed), the scan ends there with one more token, a Comment holding the
    rest of the line from the [*] on; and [tokenize] never produces an
    Operator token with value [*]. *)
Theorem star_starts_comment (source_code : string) (current_line : Z)
    (line : string) (st : scan_state) (tail : string) :
  str_drop (position st) line = String "*" tail →
  no_lf tail = true →
  _tokenize_line_from current_line line st
    = Ok (scanned st
          ++ [Token.mk COMMENT (String "*" tail) current_line (current_column st)])
  ∧ ∃ tokens, tokenize source_code = Ok tokens
              ∧ Forall (λ t, ¬ (Token.type t = OPERATOR ∧ Token.value t = "*")) tokens.
Proof.
  intros Hdrop Hlf.
  split; [|destruct (tokenize_ok source_code) as (? & ? & ? & _); eauto].
  pose proof (str_drop_length (position st) line) as Hlen.
  rewrite Hdrop in Hlen. simpl in Hlen.
  unfold _tokenize_line_from.
  set (st' := emit current_line st COMMENT (String "*" tail) (S (String.length tail))).
  assert (Hcond : _tokenize_line_cond line st = Ok true).
  { unfold _tokenize_line_cond. f_equal. apply Nat.ltb_lt. lia. }
  assert (Hbody : _tokenize_line_body current_line line st = Ok st').
  { unfold _tokenize_line_body. rewrite Hdrop.
    change (match_whitespace (String "*" tail)) with (@None nat).
    rewrite (match_comment_star tail Hlf).
    change (S (String.length tail)) with (String.length (String "*" tail)).
    by rewrite (str_take_all (String "*" tail)). }
  assert (Hcond' : _tokenize_line_cond line st' = Ok false).
  { unfold _tokenize_line_cond. f_equal. apply Nat.ltb_ge. simpl. lia. }
  destruct (String.length line) as [|n] eqn:En; [lia|].
  rewrite (while_step _ _ _ st st' Hcond Hbody), (while_done _ _ _ st' Hcond').
  reflexivity.
Qed.

Lemma star_starts_comment_witness :
  _tokenize_line_from 1 " COMPUTE X = A * B" (mk_scan 15 22 [])
    = Ok [Token.mk COMMENT "* B" 1 22]
  ∧ ∃ tokens, tokenize "       COMPUTE X = A * B" = Ok tokens
              ∧ Forall (λ t, ¬ (Token.type t = OPERATOR ∧ Token.value t = "*")) tokens.
Proof.
  exact (star_starts_comment "       COMPUTE X = A * B" 1 " COMPUTE X = A * B"
           (mk_scan 15 22 []) " B" eq_refl eq_refl).
Defined.

(** C10.  [tokenize] returns a token list for every source text; one round
    of the line scan at a position inside the line returns, with the
    position strictly larger and still within the line; and when no pattern
    matches there, the round appends exactly one Unknown token, the
    character at the position, and moves on by one. *)
Theorem tokenize_total (source_code : string) (current_line : Z)
    (line : string) (st : scan_state) :
  (position st < String.length line)%nat →
  (∃ tokens, tokenize source_code = Ok tokens)
  ∧ ∃ st', _tokenize_line_body current_line line st = Ok st'
           ∧ (position st < position st' <= String.length line)%nat
           ∧ (unrecognized (str_drop (position st) line) →
              ∃ c, String.get (position st) line = Some c
                   ∧ position st' = S (position st)
                   ∧ scanned st'
                     = scanned st
                       ++ [Token.mk UNKNOWN (String c EmptyString) current_line
                             (current_column st)]).
Proof.
  intros Hpos. split.
  - destruct (tokenize_ok source_code) as (tokens & H & _). eauto.
  - destruct (_tokenize_line_body_progress current_line line st Hpos)
      as (st' & Hbody & Hprog & _ & Hunk).
    exists st'. split; [done|]. split; [done|].
    intros Hu. destruct (Hunk Hu) as (c & Hc & ->).
    exists c. split; [done|]. simpl. split; [lia | done].
Qed.

Lemma tokenize_total_witness :
  (∃ tokens, tokenize "       A @ B" = Ok tokens)
  ∧ ∃ st', _tokenize_line_body 1 " A @ B" (mk_scan 3 10 []) = Ok st'
           ∧ (3 < position st' <= 6)%nat
           ∧ (unrecognized "@ B" →
              ∃ c, String.get 3 " A @ B" = Some c
                   ∧ position st' = 4%nat
                   ∧ scanned st' = [Token.mk UNKNOWN (String c EmptyString) 1 10]).
Proof.
  apply (tokenize_total "       A @ B" 1 " A @ B" (mk_scan 3 10 [])).
  simpl. lia.
Defined.

(** ** Structural parser on concrete source text *)

(** With a column name in place of the [*], the block gives the resource the
    specification describes. *)
Lemma select_column_resource :
  (program ← parse "CUSTINQ.cbl" SELECT_COLUMN; Ok (CobolProgram.resources program))
  = Ok [Resource.mk "CUSTOMER" "SQL" "SELECT" (1, 8)].
Proof. vm_compute. reflexivity. Qed.

(** C1.  On the line [EXEC SQL SELECT * FROM CUSTOMER END-EXEC] the [*]
    starts a Comment token that swallows [FROM CUSTOMER END-EXEC]; the one
    Resource produced has type SQL and operation SELECT, and its name is
    UNKNOWN, not CUSTOMER. *)
Theorem select_star_resource :
  tokenize SELECT_STAR
    = Ok [Token.mk KEYWORD "EXEC" 1 8; Token.mk IDENTIFIER "SQL" 1 13;
          Token.mk KEYWORD "SELECT" 1 17;
          Token.mk COMMENT "* FROM CUSTOMER END-EXEC" 1 24]
  ∧ (program ← parse "CUSTINQ.cbl" SELECT_STAR; Ok (CobolProgram.resources program))
    = Ok [Resource.mk "UNKNOWN" "SQL" "SELECT" (1, 8)].
Proof. split; vm_compute; reflexivity. Qed.

(** Inside an EXEC CICS block the map name is recorded. *)
Lemma exec_cics_send_map_recorded :
  (program ← parse "MENU.cbl" "       EXEC CICS SEND MAP MENU1 END-EXEC";
   Ok (CobolProgram.maps_used program))
  = Ok {[ "MENU1" ]}.
Proof. vm_compute. reflexivity. Qed.

(** ** Resource pass *)

Ltac bind_simpl := unfold and_then; cbn [mbind result_mbind result_bind].

Section ParserFacts.
Variable tokens : list Token.t.

Lemma tok_Some i t : tokens !! i = Some t → list_index tokens i = Ok t.
Proof. unfold list_index. by intros ->. Qed.

Lemma in_range_Some i t : tokens !! i = Some t → in_range tokens i = Ok true.
Proof.
  intros H. unfold in_range. f_equal. apply Nat.ltb_lt. by eapply lookup_lt_Some.
Qed.

Lemma in_range_None i : tokens !! i = None → in_range tokens i = Ok false.
Proof.
  intros H. unfold in_range. f_equal. apply Nat.ltb_ge. by apply lookup_ge_None.
Qed.

Lemma value_upper_Some i t :
  tokens !! i = Some t → value_upper tokens i = Ok (upper (Token.value t)).
Proof. unfold value_upper. by intros ->%tok_Some. Qed.

Lemma value_upper_is_Some i t s :
  tokens !! i = Some t →
  value_upper_is tokens i s = Ok (String.eqb (upper (Token.value t)) s).
Proof. unfold value_upper_is. by intros ->%value_upper_Some. Qed.

Lemma type_is_Some i t ty :
  tokens !! i = Some t → type_is tokens i ty = Ok (is_type (Token.type t) ty).
Proof. unfold type_is. by intros ->%tok_Some. Qed.

Lemma not_end_exec_Some i t :
  tokens !! i = Some t → not_end_exec tokens i = Ok (negb (is_end_exec t)).
Proof.
  intros H. unfold not_end_exec.
  by rewrite (in_range_Some i t H), (value_upper_is_Some i t _ H).
Qed.

Lemma not_end_exec_None i : tokens !! i = None → not_end_exec tokens i = Ok false.
Proof. intros H. unfold not_end_exec. by rewrite (in_range_None i H). Qed.

Lemma not_end_exec_true i :
  not_end_exec tokens i = Ok true → (i < length tokens)%nat.
Proof.
  destruct (tokens !! i) as [t|] eqn:E.
  - intros _. by eapply lookup_lt_Some.
  - by rewrite (not_end_exec_None i E).
Qed.

Lemma not_end_exec_total i : ∃ c, not_end_exec tokens i = Ok c.
Proof.
  destruct (tokens !! i) as [t|] eqn:E.
  - rewrite (not_end_exec_Some i t E). eauto.
  - rewrite (not_end_exec_None i E). eauto.
Qed.

Lemma unterminated_lookup i k t :
  unterminated (drop i tokens) = true → (i <= k)%nat → tokens !! k = Some t →
  is_end_exec t = false.
Proof.
  intros Hu Hk Ht. unfold unterminated in Hu. rewrite forallb_forall in Hu.
  apply negb_true_iff, Hu, list_elem_of_In, list_elem_of_lookup.
  exists (k - i)%nat. rewrite lookup_drop. by replace (i + (k - i))%nat with k by lia.
Qed.

(** Past an unterminated block the scan condition fails at the end of the
    stream only. *)
Lemma unterminated_stop i k :
  unterminated (drop i tokens) = true → (i <= k)%nat →
  not_end_exec tokens k = Ok false → tokens !! k = None.
Proof.
  intros Hu Hk Hc. destruct (tokens !! k) as [t|] eqn:E; [|done].
  rewrite (not_end_exec_Some k t E), (unterminated_lookup i k t Hu Hk E) in Hc.
  discriminate.
Qed.

Lemma block_body_Some names st t :
  tokens !! blk_j st = Some t →
  ∃ name, block_body tokens names st
          = Ok (mk_block (blk_j st + 1)
                  (or_else (operation st) (first_keyword [t])) name).
Proof.
  intros Ht. unfold block_body. rewrite (tok_Some _ _ Ht). bind_simpl.
  change (first_keyword [t])
    with (if is_type (Token.type t) KEYWORD then Some (upper (Token.value t)) else None).
  destruct (is_type (Token.type t) KEYWORD); bind_simpl.
  - destruct (str_in (upper (Token.value t)) names); bind_simpl.
    + destruct (tokens !! (blk_j st + 1)%nat) as [n|] eqn:En.
      * rewrite (in_range_Some _ _ En). bind_simpl.
        rewrite (value_upper_Some _ _ En). bind_simpl.
        destruct (operation st); eauto.
      * rewrite (in_range_None _ En). bind_simpl. destruct (operation st); eauto.
    + destruct (operation st); eauto.
  - destruct (operation st); eauto.
Qed.

Lemma first_keyword_cons t l :
  first_keyword (t :: l) = or_else (first_keyword [t]) (first_keyword l).
Proof. simpl. by destruct (is_type (Token.type t) KEYWORD). Qed.

Lemma or_else_assoc a b c : or_else (or_else a b) c = or_else a (or_else b c).
Proof. by destruct a. Qed.

(** The scan of a block ends, at an END-EXEC token or at the end of the
    stream; the operation it holds is the first keyword it went over. *)
Lemma scan_block_ok names i :
  ∃ blk, scan_block tokens names i = Ok blk
         ∧ (i + 2 <= blk_j blk)%nat
         ∧ not_end_exec tokens (blk_j blk) = Ok false
         ∧ or_else (operation blk) (first_keyword (drop (blk_j blk) tokens))
           = first_keyword (drop (i + 2) tokens).
Proof.
  unfold scan_block.
  destruct (while_ok
    (λ s, (i + 2 <= blk_j s)%nat
          ∧ or_else (operation s) (first_keyword (drop (blk_j s) tokens))
            = first_keyword (drop (i + 2) tokens))
    (λ s, length tokens - blk_j s)%nat
    (λ st, not_end_exec tokens (blk_j st)) (block_body tokens names))
    with (fuel := S (length tokens)) (s := mk_block (i + 2) None None)
    as (blk & Hw & [Hj Hop] & Hc).
  - intros s [Hj Hop].
    destruct (not_end_exec_total (blk_j s)) as [c Hc]. exists c. split; [done|].
    intros ->. pose proof (not_end_exec_true _ Hc) as Hlt.
    destruct (lookup_lt_is_Some_2 tokens (blk_j s) Hlt) as [t Ht].
    destruct (block_body_Some names s t Ht) as [name ->].
    eexists. split; [done|]. simpl. split; [|lia]. split; [lia|].
    rewrite <- Hop, (drop_S _ _ _ Ht), first_keyword_cons, or_else_assoc.
    by rewrite Nat.add_1_r.
  - simpl. split; [lia | done].
  - lia.
  - exists blk. eauto.
Qed.

(** The skip to END-EXEC ends, at an END-EXEC token or at the end of the
    stream. *)
Lemma skip_ok i :
  ∃ i', while (S (length tokens)) (not_end_exec tokens) (λ k, Ok (k + 1)%nat) i = Ok i'
        ∧ (i <= i')%nat ∧ not_end_exec tokens i' = Ok false.
Proof.
  destruct (while_ok (λ k, (i <= k)%nat) (λ k, length tokens - k)%nat
    (not_end_exec tokens) (λ k, Ok (k + 1)%nat))
    with (fuel := S (length tokens)) (s := i) as (i' & Hw & Hi & Hc).
  - intros k Hk. destruct (not_end_exec_total k) as [c Hc]. exists c. split; [done|].
    intros ->. pose proof (not_end_exec_true _ Hc). eexists. split; [done|]. lia.
  - lia.
  - lia.
  - eauto.
Qed.

(** The skip to END-EXEC stops at the first END-EXEC token, if there is
    one. *)
Lemma skip_first i :
  ∃ i', while (S (length tokens)) (not_end_exec tokens) (λ k, Ok (k + 1)%nat) i = Ok i'
        ∧ (i <= i')%nat ∧ not_end_exec tokens i' = Ok false
        ∧ ∀ k t, (i <= k)%nat → tokens !! k = Some t → is_end_exec t = true →
                 (i' <= k)%nat.
Proof.
  destruct (while_ok
    (λ k, (i <= k)%nat ∧ ∀ k', (i <= k' < k)%nat → not_end_exec tokens k' = Ok true)
    (λ k, length tokens - k)%nat
    (not_end_exec tokens) (λ k, Ok (k + 1)%nat))
    with (fuel := S (length tokens)) (s := i) as (i' & Hw & [Hi Hall] & Hc).
  - intros k [Hk Hall]. destruct (not_end_exec_total k) as [c Hc].
    exists c. split; [done|].
    intros ->. pose proof (not_end_exec_true _ Hc). eexists. split; [done|].
    split; [|lia]. split; [lia|]. intros k' Hk'.
    destruct (decide (k' = k)) as [->|]; [done|]. apply Hall. lia.
  - split; [lia|]. intros k' Hk'. lia.
  - lia.
  - exists i'. split; [done|]. split; [done|]. split; [done|].
    intros k t Hk Ht Hend. destruct (decide (i' <= k)%nat) as [|Hlt]; [done|].
    specialize (Hall k ltac:(lia)). rewrite (not_end_exec_Some k t Ht), Hend in Hall.
    discriminate.
Qed.

(** One round of the resource pass on an EXEC keyword that has a token
    after it. *)
Lemma resources_body_exec i program t n :
  tokens !! i = Some t → Token.type t = KEYWORD → upper (Token.value t) = "EXEC" →
  tokens !! (i + 1)%nat = Some n →
  ∃ blk i',
    resources_body tokens (i, program)
      = Ok ((i' + 1)%nat, with_resource program (upper (Token.value n)) blk t)
    ∧ (i <= i')%nat ∧ not_end_exec tokens i' = Ok false
    ∧ if scanned_sublanguage (upper (Token.value n)) then
        (i + 2 <= blk_j blk)%nat
        ∧ not_end_exec tokens (blk_j blk) = Ok false
        ∧ or_else (operation blk) (first_keyword (drop (blk_j blk) tokens))
          = first_keyword (drop (i + 2) tokens)
      else operation blk = None.
Proof.
  intros Ht Hty Hv Hn. unfold resources_body.
  rewrite (type_is_Some _ _ _ Ht), (value_upper_is_Some _ _ _ Ht), Hty, Hv,
    (in_range_Some _ _ Hn), (tok_Some _ _ Ht), (value_upper_Some _ _ Hn).
  bind_simpl. change (is_type KEYWORD KEYWORD) with true.
  change ("EXEC" =? "EXEC")%string with true. bind_simpl.
  destruct (skip_ok i) as (i' & Hskip & Hi' & Hc').
  unfold scanned_sublanguage, str_in, existsb.
  set (ty := upper (Token.value n)).
  destruct (String.eqb ty "SQL") eqn:E1; simpl orb.
  { destruct (scan_block_ok SQL_NAMES i) as (blk & -> & ?). bind_simpl.
    rewrite Hskip. bind_simpl. exists blk, i'. eauto. }
  destruct (String.eqb ty "CICS") eqn:E2; simpl orb.
  { destruct (scan_block_ok CICS_NAMES i) as (blk & -> & ?). bind_simpl.
    rewrite Hskip. bind_simpl. exists blk, i'. eauto. }
  destruct (String.eqb ty "MQ") eqn:E3; simpl orb.
  { destruct (scan_block_ok MQ_NAMES i) as (blk & -> & ?). bind_simpl.
    rewrite Hskip. bind_simpl. exists blk, i'. eauto. }
  bind_simpl. rewrite Hskip. bind_simpl.
  exists (mk_block (i + 2) None None), i'. eauto.
Qed.

(** A pass whose rounds return, move on in the stream and keep a view [f] of
    the program, returns a program with that view. *)
Lemma pass_ok {X : Type} (f : CobolProgram.t → X)
    (body : nat * CobolProgram.t → result (nat * CobolProgram.t))
    (program : CobolProgram.t) :
  (∀ st, (st.1 < length tokens)%nat →
         ∃ st', body st = Ok st' ∧ (st.1 < st'.1)%nat ∧ f st'.2 = f st.2) →
  ∃ r, while (S (length tokens)) (λ st, in_range tokens st.1) body (0%nat, program)
       = Ok r
       ∧ f r.2 = f program.
Proof.
  intros Hbody.
  destruct (while_index_ok (λ s, f s.2 = f program) fst (length tokens)
    (λ st, in_range tokens st.1) body) with (s := (0%nat, program))
    as (r & Hr & Hn & _); [|done|eauto].
  intros s Hs. eexists. split; [done|]. intros Hc%Nat.ltb_lt. split; [done|].
  destruct (Hbody s Hc) as (s' & -> & Hlt & Hn). exists s'.
  split; [done|]. split; [congruence | done].
Qed.

(** Every round of the resource pass returns, further on in the stream. *)
Lemma resources_body_ok st :
  (st.1 < length tokens)%nat →
  ∃ st', resources_body tokens st = Ok st' ∧ (st.1 < st'.1)%nat
         ∧ scope_view st'.2 = scope_view st.2.
Proof.
  destruct st as [i program]. cbn [fst]. intros Hi.
  destruct (lookup_lt_is_Some_2 tokens i Hi) as [t Ht].
  destruct (is_type (Token.type t) KEYWORD
            && String.eqb (upper (Token.value t)) "EXEC") eqn:Eexec.
  - apply andb_true_iff in Eexec as [Hty%bool_decide_eq_true Hv%String.eqb_eq].
    destruct (tokens !! (i + 1)%nat) as [n|] eqn:En.
    + destruct (resources_body_exec i program t n Ht Hty Hv En)
        as (blk & i' & -> & ? & _).
      eexists. split; [done|]. simpl. split; [lia|].
      unfold with_resource. by case_match.
    + unfold resources_body.
      rewrite (type_is_Some _ _ _ Ht), (value_upper_is_Some _ _ _ Ht),
        (in_range_None _ En).
      bind_simpl. destruct (is_type _ _); bind_simpl;
        [destruct (String.eqb _ _); bind_simpl|];
        (eexists; split; [done|]; simpl; split; [lia|done]).
  - unfold resources_body.
    rewrite (type_is_Some _ _ _ Ht), (value_upper_is_Some _ _ _ Ht).
    bind_simpl. destruct (is_type _ _); bind_simpl;
      [destruct (String.eqb _ _); [done|]; bind_simpl|];
      (eexists; split; [done|]; simpl; split; [lia|done]).
Qed.

(** The resource pass returns on every token stream. *)
Lemma _extract_resources_ok program :
  ∃ program', _extract_resources tokens program = Ok program'
              ∧ scope_view program' = scope_view program.
Proof.
  unfold _extract_resources.
  destruct (pass_ok scope_view (resources_body tokens) program resources_body_ok)
    as (r & -> & Hn).
  bind_simpl. eauto.
Qed.

(** The round of [resources_body_exec] ends one past the first END-EXEC
    token at or after the EXEC, if there is one. *)
Lemma resources_body_exec_first i program t n :
  tokens !! i = Some t → Token.type t = KEYWORD → upper (Token.value t) = "EXEC" →
  tokens !! (i + 1)%nat = Some n →
  ∃ blk i',
    resources_body tokens (i, program)
      = Ok ((i' + 1)%nat, with_resource program (upper (Token.value n)) blk t)
    ∧ (i <= i')%nat
    ∧ ∀ k tk, (i <= k)%nat → tokens !! k = Some tk → is_end_exec tk = true →
              (i' <= k)%nat.
Proof.
  intros Ht Hty Hv Hn.
  destruct (resources_body_exec i program t n Ht Hty Hv Hn)
    as (blk & i' & Hbody & _).
  destruct (skip_first i) as (i0 & Hskip & Hi0 & _ & Hfirst).
  exists blk, i0. split; [|done].
  rewrite Hbody. f_equal. f_equal.
  revert Hbody. unfold resources_body.
  rewrite (type_is_Some _ _ _ Ht), (value_upper_is_Some _ _ _ Ht), Hty, Hv,
    (in_range_Some _ _ Hn), (tok_Some _ _ Ht), (value_upper_Some _ _ Hn).
  bind_simpl. change (is_type KEYWORD KEYWORD) with true.
  change ("EXEC" =? "EXEC")%string with true. bind_simpl.
  rewrite Hskip.
  repeat case_match; bind_simpl;
    try match goal with
        | |- context [scan_block tokens ?names i] =>
            let b := fresh "b" in
            destruct (scan_block_ok names i) as (b & -> & _)
        end;
    bind_simpl; intros Heq; inversion Heq; lia.
Qed.

(** One round of the resource pass: the resources added are read at the
    token the round stands on, an EXEC keyword; the round moves on by one
    token, or, from an EXEC keyword, at most to one past the first END-EXEC
    token after it. *)
Lemma resources_body_visit i program :
  (i < length tokens)%nat →
  ∃ i' program' new,
    resources_body tokens (i, program) = Ok (i', program')
    ∧ (i < i')%nat
    ∧ CobolProgram.resources program' = CobolProgram.resources program ++ new
    ∧ Forall (λ r, ∃ t, tokens !! i = Some t ∧ Token.type t = KEYWORD
                        ∧ upper (Token.value t) = "EXEC"
                        ∧ Resource.location r = (Token.line t, Token.column t)) new
    ∧ (i' = (i + 1)%nat
       ∨ ∃ t, tokens !! i = Some t ∧ Token.type t = KEYWORD
              ∧ upper (Token.value t) = "EXEC"
              ∧ ∀ k tk, (i <= k)%nat → tokens !! k = Some tk →
                        is_end_exec tk = true → (i' <= k + 1)%nat).
Proof.
  intros Hi. destruct (lookup_lt_is_Some_2 tokens i Hi) as [t Ht].
  assert (Hplain : resources_body tokens (i, program) = Ok ((i + 1)%nat, program) →
            ∃ i' program' new,
              resources_body tokens (i, program) = Ok (i', program')
              ∧ (i < i')%nat
              ∧ CobolProgram.resources program' = CobolProgram.resources program ++ new
              ∧ Forall (λ r, ∃ t, tokens !! i = Some t ∧ Token.type t = KEYWORD
                                  ∧ upper (Token.value t) = "EXEC"
                                  ∧ Resource.location r
                                    = (Token.line t, Token.column t)) new
              ∧ (i' = (i + 1)%nat
                 ∨ ∃ t, tokens !! i = Some t ∧ Token.type t = KEYWORD
                        ∧ upper (Token.value t) = "EXEC"
                        ∧ ∀ k tk, (i <= k)%nat → tokens !! k = Some tk →
                                  is_end_exec tk = true → (i' <= k + 1)%nat)).
  { intros ->. exists (i + 1)%nat, program, []. split; [done|]. split; [lia|].
    split; [by rewrite app_nil_r|]. split; [done|]. by left. }
  destruct (is_type (Token.type t) KEYWORD
            && String.eqb (upper (Token.value t)) "EXEC") eqn:Eexec.
  - apply andb_true_iff in Eexec as [Hty%bool_decide_eq_true Hv%String.eqb_eq].
    destruct (tokens !! (i + 1)%nat) as [n|] eqn:En.
    + destruct (resources_body_exec_first i program t n Ht Hty Hv En)
        as (blk & i' & -> & Hle & Hfirst).
      assert (Hstop : ∃ t0, tokens !! i = Some t0 ∧ Token.type t0 = KEYWORD
                ∧ upper (Token.value t0) = "EXEC"
                ∧ ∀ k tk, (i <= k)%nat → tokens !! k = Some tk →
                          is_end_exec tk = true → (i' + 1 <= k + 1)%nat).
      { exists t. repeat split; try done. intros k tk Hk Htk Hend.
        specialize (Hfirst k tk Hk Htk Hend). lia. }
      unfold with_resource.
      destruct (truthy (upper (Token.value n)) && truthy_opt (operation blk)).
      * eexists _, _, [_]. split; [done|]. split; [lia|]. split; [done|].
        split; [|by right]. constructor; [|done]. exists t. done.
      * exists (i' + 1)%nat, program, []. split; [done|]. split; [lia|].
        split; [by rewrite app_nil_r|]. split; [done|]. by right.
    + apply Hplain. unfold resources_body.
      rewrite (type_is_Some _ _ _ Ht), (value_upper_is_Some _ _ _ Ht),
        (in_range_None _ En).
      bind_simpl. destruct (is_type _ _); bind_simpl;
        [destruct (String.eqb _ _); bind_simpl|]; done.
  - apply Hplain. unfold resources_body.
    rewrite (type_is_Some _ _ _ Ht), (value_upper_is_Some _ _ _ Ht).
    bind_simpl. destruct (is_type _ _); bind_simpl;
      [destruct (String.eqb _ _); [done|]; bind_simpl|]; done.
Qed.

(** The round on an EXEC keyword with no END-EXEC token from there on: it
    ends past the end of the stream, and it adds one Resource when the
    sublanguage is SQL, CICS or MQ and a Keyword token follows its name. *)
Lemma unterminated_block_round i program t n :
  tokens !! i = Some t → Token.type t = KEYWORD → upper (Token.value t) = "EXEC" →
  tokens !! (i + 1)%nat = Some n →
  unterminated (drop i tokens) = true →
  ∃ i' program',
    resources_body tokens (i, program) = Ok (i', program')
    ∧ (length tokens <= i')%nat
    ∧ let resource_type := upper (Token.value n) in
      let operation := first_keyword (drop (i + 2) tokens) in
      if scanned_sublanguage resource_type && truthy_opt operation then
        ∃ name,
          CobolProgram.resources program'
          = CobolProgram.resources program
            ++ [Resource.mk name resource_type (default "" operation)
                  (Token.line t, Token.column t)]
      else CobolProgram.resources program' = CobolProgram.resources program.
Proof.
  intros Ht Hty Hv Hn Hu.
  destruct (resources_body_exec i program t n Ht Hty Hv Hn)
    as (blk & i' & Hbody & Hi' & Hc' & Hblk).
  pose proof (unterminated_stop i i' Hu Hi' Hc') as Hend.
  apply lookup_ge_None in Hend.
  do 2 eexists. split; [exact Hbody|]. split; [lia|]. cbv zeta.
  unfold with_resource.
  destruct (scanned_sublanguage (upper (Token.value n))) eqn:Esub.
  - destruct Hblk as (Hj & Hcj & Hop).
    pose proof (unterminated_stop i (blk_j blk) Hu ltac:(lia) Hcj) as Hendj.
    apply lookup_ge_None in Hendj. rewrite (drop_ge _ _ Hendj) in Hop.
    assert (Hop' : operation blk = first_keyword (drop (i + 2) tokens))
      by (rewrite <- Hop; by destruct (operation blk)).
    rewrite <- Hop'.
    assert (Htruthy : truthy (upper (Token.value n)) = true).
    { unfold scanned_sublanguage, str_in, existsb in Esub.
      repeat (apply orb_true_iff in Esub as [->%String.eqb_eq|Esub]; [done|]).
      done. }
    rewrite Htruthy. simpl andb. destruct (truthy_opt (operation blk)); simpl; eauto.
  - rewrite Hblk. simpl. by rewrite andb_false_r.
Qed.
End ParserFacts.

(** C5 (amended).  The resource pass returns on every token stream.  Let
    an EXEC keyword with a token after it have no END-EXEC token from there
    to the end of the stream, and let every EXEC keyword before it have an
    END-EXEC token between the two, so that the pass comes to stand on it.
    Then [_extract_resources] still gives the unterminated block one
    Resource, the last of the list, when its sublanguage is SQL, CICS or MQ
    and a Keyword token follows the sublanguage name: the first such
    Keyword is the operation (and must have a non-empty text, as every
    scanned token has).  Otherwise the block adds nothing.  The resources
    before it were read at EXEC keywords before the block. *)
Theorem unterminated_block_resource (tokens : list Token.t) (i : nat)
    (program : CobolProgram.t) (t n : Token.t) :
  tokens !! i = Some t →
  Token.type t = KEYWORD →
  upper (Token.value t) = "EXEC" →
  tokens !! (i + 1)%nat = Some n →
  unterminated (drop i tokens) = true →
  (∀ j tj, (j < i)%nat → tokens !! j = Some tj →
           Token.type tj = KEYWORD → upper (Token.value tj) = "EXEC" →
           ∃ k tk, (j <= k < i)%nat ∧ tokens !! k = Some tk ∧ is_end_exec tk = true) →
  ∃ program' earlier,
    _extract_resources tokens program = Ok program'
    ∧ Forall (λ r, ∃ k tk, (k < i)%nat ∧ tokens !! k = Some tk
                           ∧ Token.type tk = KEYWORD
                           ∧ upper (Token.value tk) = "EXEC"
                           ∧ Resource.location r = (Token.line tk, Token.column tk))
        earlier
    ∧ let resource_type := upper (Token.value n) in
      let operation := first_keyword (drop (i + 2) tokens) in
      if scanned_sublanguage resource_type && truthy_opt operation then
        ∃ name,
          CobolProgram.resources program'
          = CobolProgram.resources program ++ earlier
            ++ [Resource.mk name resource_type (default "" operation)
                  (Token.line t, Token.column t)]
      else CobolProgram.resources program' = CobolProgram.resources program ++ earlier.
Proof.
  intros Ht Hty Hv Hn Hu Hclosed. unfold _extract_resources.
  set (before := λ (bound : nat) (r : Resource.t),
         ∃ k tk, (k < bound)%nat ∧ tokens !! k = Some tk
                 ∧ Token.type tk = KEYWORD ∧ upper (Token.value tk) = "EXEC"
                 ∧ Resource.location r = (Token.line tk, Token.column tk)).
  set (final := λ p : CobolProgram.t,
         ∃ earlier, Forall (before i) earlier
           ∧ if scanned_sublanguage (upper (Token.value n))
                && truthy_opt (first_keyword (drop (i + 2) tokens)) then
               ∃ name,
                 CobolProgram.resources p
                 = CobolProgram.resources program ++ earlier
                   ++ [Resource.mk name (upper (Token.value n))
                         (default "" (first_keyword (drop (i + 2) tokens)))
                         (Token.line t, Token.column t)]
             else CobolProgram.resources p = CobolProgram.resources program ++ earlier).
  destruct (while_index_ok
    (λ s, ((s.1 <= i)%nat
           ∧ ∃ earlier, CobolProgram.resources s.2
                        = CobolProgram.resources program ++ earlier
                        ∧ Forall (before s.1) earlier)
          ∨ ((length tokens <= s.1)%nat ∧ final s.2))
    fst (length tokens) (λ st, in_range tokens st.1) (resources_body tokens))
    with (s := (0%nat, program)) as (r & -> & Hinv & Hc).
  - intros [idx p] Hinv. cbn [fst snd] in *. eexists. split; [done|].
    intros Hidx%Nat.ltb_lt. split; [done|].
    destruct Hinv as [(Hle & earlier & Hres & Hearlier)|[Hge _]]; [|lia].
    destruct (decide (idx = i)) as [->|Hne].
    + destruct (unterminated_block_round tokens i p t n Ht Hty Hv Hn Hu)
        as (i' & p' & -> & Hlen & Hp').
      exists (i', p'). split; [done|]. cbn [fst snd]. split; [|lia].
      right. split; [done|]. exists earlier. split; [done|]. cbv zeta in Hp'.
      destruct (scanned_sublanguage (upper (Token.value n))
                && truthy_opt (first_keyword (drop (i + 2) tokens))).
      * destruct Hp' as [name Hp']. exists name. by rewrite Hp', Hres, <- app_assoc.
      * by rewrite Hp', Hres.
    + destruct (resources_body_visit tokens idx p Hidx)
        as (i' & p' & new & -> & Hlt & Hnew & Hat & Hnext).
      exists (i', p'). split; [done|]. cbn [fst snd]. split; [|done]. left.
      assert (Hi' : (i' <= i)%nat).
      { destruct Hnext as [->|(tj & Htj & Htyj & Hvj & Hfirst)]; [lia|].
        destruct (Hclosed idx tj ltac:(lia) Htj Htyj Hvj) as (k & tk & Hk & Htk & Hend).
        specialize (Hfirst k tk ltac:(lia) Htk Hend). lia. }
      split; [done|]. exists (earlier ++ new).
      split; [by rewrite Hnew, Hres, app_assoc|].
      apply Forall_app. split.
      * eapply Forall_impl; [exact Hearlier|].
        intros r0 (k & tk & Hk & Hrest). exists k, tk. split; [lia|done].
      * eapply Forall_impl; [exact Hat|].
        intros r0 (tj & Htj & Htyj & Hvj & Hloc). exists idx, tj. done.
  - cbn [fst snd]. left. split; [lia|]. exists []. by rewrite app_nil_r.
  - bind_simpl. injection Hc as Hc%Nat.ltb_ge.
    destruct Hinv as [(Hle & _)|(_ & earlier & Hearlier & Hfinal)].
    + apply lookup_lt_Some in Ht. lia.
    + exists r.2, earlier. split; [done|]. split; [done|]. exact Hfinal.
Qed.

Lemma unterminated_block_resource_witness :
  ∃ program' earlier,
    _extract_resources CLOSED_OPEN_TOKENS (CobolProgram.new "X" "X.cbl") = Ok program'
    ∧ Forall (λ r, ∃ k tk, (k < 7)%nat ∧ CLOSED_OPEN_TOKENS !! k = Some tk
                           ∧ Token.type tk = KEYWORD
                           ∧ upper (Token.value tk) = "EXEC"
                           ∧ Resource.location r = (Token.line tk, Token.column tk))
        earlier
    ∧ ∃ name,
        CobolProgram.resources program'
        = [] ++ earlier ++ [Resource.mk name "CICS" "READ" (1, 42)].
Proof.
  assert (Hclosed : ∀ j tj, (j < 7)%nat → CLOSED_OPEN_TOKENS !! j = Some tj →
            Token.type tj = KEYWORD → upper (Token.value tj) = "EXEC" →
            ∃ k tk, (j <= k < 7)%nat ∧ CLOSED_OPEN_TOKENS !! k = Some tk
                    ∧ is_end_exec tk = true).
  { intros j tj Hj Htj Hty Hv.
    exists 6%nat, (Token.mk KEYWORD "END-EXEC" 1 33).
    split; [lia|]. split; reflexivity. }
  exact (unterminated_block_resource CLOSED_OPEN_TOKENS 7
           (CobolProgram.new "X" "X.cbl")
           (Token.mk KEYWORD "EXEC" 1 42) (Token.mk IDENTIFIER "CICS" 1 47)
           eq_refl eq_refl eq_refl eq_refl eq_refl Hclosed).
Defined.

(** The stream of the example is the tokenizer's, and the pass gives the
    closed block its Resource and then the unterminated block its own. *)
Lemma closed_then_unterminated_block :
  tokenize CLOSED_OPEN_SOURCE = Ok CLOSED_OPEN_TOKENS
  ∧ unterminated (drop 7 CLOSED_OPEN_TOKENS) = true
  ∧ (program ← _extract_resources CLOSED_OPEN_TOKENS (CobolProgram.new "X" "X.cbl");
     Ok (CobolProgram.resources program))
    = Ok [Resource.mk "T" "SQL" "SELECT" (1, 8);
          Resource.mk "F" "CICS" "READ" (1, 42)].
Proof. repeat split; vm_compute; reflexivity. Qed.

(** The condition on the EXEC keywords before the block cannot be dropped:
    an EXEC keyword inside a block that has no END-EXEC is never visited,
    and only the outer block gives a Resource. *)
Lemma nested_block_not_visited :
  (program ← parse "NESTED.cbl" NESTED_SOURCE; Ok (CobolProgram.resources program))
  = Ok [Resource.mk "UNKNOWN" "SQL" "SELECT" (1, 8)].
Proof. vm_compute. reflexivity. Qed.

(** C5 as stated fails: the stream of [EXEC SQL SELECT A FROM T] has no
    END-EXEC token, and the resource pass emits a Resource for the block. *)
Lemma unterminated_block_emits :
  tokenize UNTERMINATED_SOURCE = Ok UNTERMINATED_TOKENS
  ∧ unterminated UNTERMINATED_TOKENS = true
  ∧ (program ← _extract_resources UNTERMINATED_TOKENS (CobolProgram.new "X" "X.cbl");
     Ok (CobolProgram.resources program))
    = Ok [Resource.mk "T" "SQL" "SELECT" (1, 8)].
Proof. repeat split; vm_compute; reflexivity. Qed.

(** ** Cross-program analyzer *)

Lemma add_call_eq (program_name : string) (call_graph : gmap string (gset string))
    (call : ProgramCall.t) (callees : gset string) :
  call_graph !! program_name = Some callees →
  add_call program_name call_graph call
  = Ok (let cg1 := <[program_name := callees ∪ {[ProgramCall.target call]}]> call_graph in
        match cg1 !! ProgramCall.target call with
        | None => <[ProgramCall.target call := ∅]> cg1
        | Some _ => cg1
        end).
Proof.
  intros H. unfold add_call, dict_get. rewrite H. bind_simpl. cbv zeta.
  by destruct (_ !! ProgramCall.target call).
Qed.

Lemma add_resource_eq (program_name : string)
    (resource_usage : gmap string (gset string)) (resource : Resource.t) :
  add_resource program_name resource_usage resource
  = Ok (<[resource_key resource :=
            default ∅ (resource_usage !! resource_key resource) ∪ {[program_name]}]>
          resource_usage).
Proof.
  unfold add_resource, dict_get.
  change (Resource.type resource +:+ ":" +:+ Resource.name resource)
    with (resource_key resource).
  destruct (resource_usage !! resource_key resource) as [users|] eqn:E.
  - by rewrite E.
  - rewrite lookup_insert_eq. bind_simpl. by rewrite insert_insert_eq.
Qed.

(** The call graph after the calls of [program_name] are added: its own set
    grows by the targets, a target without a node gets an empty one, every
    other node is as before. *)
Lemma for_each_add_call (program_name : string) (calls : list ProgramCall.t)
    (call_graph : gmap string (gset string)) (callees : gset string) :
  call_graph !! program_name = Some callees →
  ∃ call_graph',
    for_each calls (add_call program_name) call_graph = Ok call_graph'
    ∧ call_graph' !! program_name
      = Some (callees ∪ list_to_set (ProgramCall.target <$> calls))
    ∧ ∀ k, k ≠ program_name →
           call_graph' !! k
           = match call_graph !! k with
             | Some v => Some v
             | None =>
                 if bool_decide (k ∈ ProgramCall.target <$> calls) then Some ∅ else None
             end.
Proof.
  revert call_graph callees.
  induction calls as [|call calls IH]; intros call_graph callees Hname.
  - exists call_graph. split; [done|]. split.
    + rewrite Hname. f_equal. set_solver.
    + intros k _. by destruct (call_graph !! k).
  - cbn [for_each]. rewrite (add_call_eq _ _ _ _ Hname). bind_simpl. cbv zeta.
    set (target := ProgramCall.target call).
    set (cg1 := <[program_name := callees ∪ {[target]}]> call_graph).
    assert (H1 : cg1 !! program_name = Some (callees ∪ {[target]}))
      by apply lookup_insert_eq.
    destruct (cg1 !! target) as [v|] eqn:Et.
    + destruct (IH cg1 _ H1) as (cg' & -> & Hn & Hk).
      exists cg'. split; [done|]. split.
      * rewrite Hn. f_equal. rewrite fmap_cons, list_to_set_cons. set_solver.
      * intros k Hne. rewrite (Hk k Hne). unfold cg1.
        rewrite lookup_insert_ne by done.
        destruct (call_graph !! k) eqn:Ek; [done|].
        assert (k ≠ target).
        { intros ->. unfold cg1 in Et. rewrite lookup_insert_ne in Et by done.
          congruence. }
        rewrite fmap_cons. fold target.
        repeat case_bool_decide; set_solver.
    + assert (Hne : target ≠ program_name) by (intros Heq; congruence).
      assert (H2 : <[target := ∅]> cg1 !! program_name = Some (callees ∪ {[target]}))
        by (by rewrite lookup_insert_ne).
      destruct (IH _ _ H2) as (cg' & -> & Hn & Hk).
      exists cg'. split; [done|]. split.
      * rewrite Hn. f_equal. rewrite fmap_cons, list_to_set_cons. set_solver.
      * intros k Hnek. rewrite (Hk k Hnek). rewrite fmap_cons. fold target.
        destruct (decide (k = target)) as [->|Hkt].
        -- rewrite lookup_insert_eq.
           unfold cg1 in Et. rewrite lookup_insert_ne in Et by done. rewrite Et.
           rewrite bool_decide_eq_true_2; [done | set_solver].
        -- rewrite lookup_insert_ne by done. unfold cg1.
           rewrite lookup_insert_ne by done.
           destruct (call_graph !! k); [done|].
           repeat case_bool_decide; set_solver.
Qed.

(** The resource index after the resources of [program_name] are added: the
    program joins the set of every key of its resources, every other key is
    as before. *)
Lemma for_each_add_resource (program_name : string) (resources : list Resource.t)
    (resource_usage : gmap string (gset string)) :
  ∃ resource_usage',
    for_each resources (add_resource program_name) resource_usage = Ok resource_usage'
    ∧ ∀ k, resource_usage' !! k
           = if bool_decide (k ∈ resource_key <$> resources)
             then Some (default ∅ (resource_usage !! k) ∪ {[program_name]})
             else resource_usage !! k.
Proof.
  revert resource_usage.
  induction resources as [|r rs IH]; intros resource_usage.
  - exists resource_usage. split; [done|]. intros k.
    rewrite bool_decide_eq_false_2; [done | set_solver].
  - cbn [for_each]. rewrite add_resource_eq. bind_simpl.
    set (key := resource_key r).
    edestruct IH as (usage' & -> & Hk). exists usage'. split; [done|].
    intros k. rewrite Hk, fmap_cons. fold key.
    destruct (decide (k = key)) as [->|Hne].
    + rewrite lookup_insert_eq.
      rewrite (bool_decide_eq_true_2 (key ∈ key :: _)) by set_solver.
      case_bool_decide; simpl; f_equal; set_solver.
    + rewrite lookup_insert_ne by done.
      repeat case_bool_decide; set_solver.
Qed.

(** What [register] does to the three tables. *)
Lemma register_ok (self : CobolAnalyzer.t) (program : CobolProgram.t) :
  ∃ self',
    register self program = Ok self'
    ∧ CobolAnalyzer.analyzed_programs self'
      = <[CobolProgram.name program := program]> (CobolAnalyzer.analyzed_programs self)
    ∧ CobolAnalyzer.call_graph self' !! CobolProgram.name program
      = Some (list_to_set (targets program))
    ∧ (∀ k, k ≠ CobolProgram.name program →
            CobolAnalyzer.call_graph self' !! k
            = match CobolAnalyzer.call_graph self !! k with
              | Some v => Some v
              | None => if bool_decide (k ∈ targets program) then Some ∅ else None
              end)
    ∧ (∀ k, CobolAnalyzer.resource_usage self' !! k
            = if bool_decide (k ∈ resource_key <$> CobolProgram.resources program)
              then Some (default ∅ (CobolAnalyzer.resource_usage self !! k)
                         ∪ {[CobolProgram.name program]})
              else CobolAnalyzer.resource_usage self !! k).
Proof.
  unfold register.
  destruct (for_each_add_call (CobolProgram.name program) (CobolProgram.calls program)
              (<[CobolProgram.name program := ∅]> (CobolAnalyzer.call_graph self)) ∅)
    as (cg' & -> & Hn & Hk); [apply lookup_insert_eq|].
  destruct (for_each_add_resource (CobolProgram.name program)
              (CobolProgram.resources program) (CobolAnalyzer.resource_usage self))
    as (ru' & -> & Hr).
  bind_simpl. eexists. split; [done|]. simpl. split; [done|]. split.
  - rewrite Hn. f_equal. unfold targets. set_solver.
  - split; [|done]. intros k Hne. rewrite (Hk k Hne).
    by rewrite lookup_insert_ne.
Qed.

(** The callers of a program are the nodes whose callee set holds it. *)
Lemma elem_of_find_caller_programs (self : CobolAnalyzer.t) (program_name caller : string) :
  caller ∈ find_caller_programs self program_name
  ↔ ∃ callees, CobolAnalyzer.call_graph self !! caller = Some callees
               ∧ program_name ∈ callees.
Proof.
  unfold find_caller_programs.
  apply (map_fold_weak_ind
    (λ (r : gset string) (m : gmap string (gset string)),
       caller ∈ r ↔ ∃ callees, m !! caller = Some callees ∧ program_name ∈ callees)).
  - split; [set_solver|]. intros (? & H & _). by rewrite lookup_empty in H.
  - intros i x m r Hi IH. destruct (decide (caller = i)) as [->|Hne].
    + rewrite lookup_insert_eq. case_bool_decide.
      * split; [eauto|set_solver].
      * rewrite IH, Hi. split; [by intros (? & ? & _)|]. by intros (? & [= <-] & ?).
    + rewrite lookup_insert_ne by done. rewrite <- IH.
      case_bool_decide; set_solver.
Qed.

(** ** Every pass returns *)

Section ParserTotal.
Variable tokens : list Token.t.

Lemma tok_None i : tokens !! i = None → list_index tokens i = Raise IndexError.
Proof. unfold list_index. by intros ->. Qed.

Lemma value_upper_None i : tokens !! i = None → value_upper tokens i = Raise IndexError.
Proof. unfold value_upper. by intros ->%tok_None. Qed.

Lemma value_upper_is_None i s :
  tokens !! i = None → value_upper_is tokens i s = Raise IndexError.
Proof. unfold value_upper_is. by intros ->%value_upper_None. Qed.

Lemma type_is_None i ty : tokens !! i = None → type_is tokens i ty = Raise IndexError.
Proof. unfold type_is. by intros ->%tok_None. Qed.

(** Case analysis on the token at an index, rewriting every access to it. *)
Ltac tok_cases i :=
  let t := fresh "t" in
  let E := fresh "E" in
  destruct (tokens !! i) as [t|] eqn:E;
  [ rewrite ?(in_range_Some tokens _ _ E), ?(tok_Some tokens _ _ E),
      ?(type_is_Some tokens _ _ _ E), ?(value_upper_Some tokens _ _ E),
      ?(value_upper_is_Some tokens _ _ _ E)
  | rewrite ?(in_range_None tokens _ E), ?(tok_None _ E),
      ?(type_is_None _ _ E), ?(value_upper_None _ E),
      ?(value_upper_is_None _ _ E) ];
  bind_simpl.

Ltac tok_at i H :=
  let t := fresh "t" in
  let E := fresh "E" in
  destruct (lookup_lt_is_Some_2 tokens i H) as [t E];
  rewrite ?(in_range_Some tokens _ _ E), ?(tok_Some tokens _ _ E),
    ?(type_is_Some tokens _ _ _ E), ?(value_upper_Some tokens _ _ E),
    ?(value_upper_is_Some tokens _ _ _ E);
  bind_simpl.

Ltac crunch := repeat (bind_simpl; progress (try case_match)); bind_simpl.

(** A branch guarded by a bounds test that failed. *)
Ltac guard_false :=
  match goal with
  | H : _ && false = true |- _ => by rewrite andb_false_r in H
  end.

Lemma end_division_name e program div sec par :
  CobolProgram.name (end_division e program div sec par) = CobolProgram.name program.
Proof. by destruct div. Qed.

(** Closes [Ok st = Ok st' → flat_scope st'] for a round that left the
    scopes and the divisions alone. *)
Ltac flat_leaf :=
  first [ by intros [=] | intros [= <-]; repeat split; simpl; done ].

Ltac finish :=
  eexists; split; [reflexivity|]; simpl; rewrite ?end_division_name;
  repeat split; try done; try lia.

Lemma copybooks_body_ok st :
  (st.1 < length tokens)%nat →
  ∃ st', copybooks_body tokens st = Ok st' ∧ (st.1 < st'.1)%nat
         ∧ scope_view st'.2 = scope_view st.2.
Proof.
  destruct st as [i program]. cbn [fst]. intros Hi. unfold copybooks_body.
  tok_at i Hi. tok_cases (i + 1)%nat; crunch; finish.
Qed.

Lemma _extract_copybooks_ok program :
  ∃ program', _extract_copybooks tokens program = Ok program'
              ∧ scope_view program' = scope_view program.
Proof.
  unfold _extract_copybooks.
  destruct (pass_ok tokens scope_view (copybooks_body tokens) program copybooks_body_ok)
    as (r & -> & Hn).
  bind_simpl. eauto.
Qed.

(** Closes a goal [∃ st', Ok x = Ok st' ∧ index grows]. *)
Ltac crunch_with H :=
  repeat (bind_simpl; rewrite ?H; progress (try case_match)); bind_simpl; rewrite ?H;
  bind_simpl.

(** *** Program calls *)

Lemma using_loop_ok i st :
  (i < length tokens)%nat →
  ∃ r, while (S (length tokens)) (using_cond tokens i) (using_body tokens) st = Ok r.
Proof.
  intros Hi.
  destruct (while_index_ok (λ _, True) us_j (length tokens)
    (using_cond tokens i) (using_body tokens)) with (s := st)
    as (r & -> & _); [|done|eauto].
  intros [j found params] _. unfold using_cond, using_body. cbn [us_j using_found us_parameters].
  tok_at i Hi. tok_cases j.
  - eexists. split; [done|]. intros _. split; [by eapply lookup_lt_Some|].
    crunch; eexists; (split; [reflexivity|]); (split; [done|]); simpl; lia.
  - eexists. split; [done|]. done.
Qed.

Lemma calls_body_ok st :
  (st.1 < length tokens)%nat →
  ∃ st', calls_body tokens st = Ok st' ∧ (st.1 < st'.1)%nat
         ∧ scope_view st'.2 = scope_view st.2.
Proof.
  destruct st as [i program]. cbn [fst]. intros Hi. unfold calls_body.
  destruct (using_loop_ok i (mk_using (i + 2) false []) Hi) as (r & Hr).
  tok_at i Hi. tok_cases (i + 1)%nat; crunch_with Hr; finish.
Qed.

Lemma _extract_program_calls_ok program :
  ∃ program', _extract_program_calls tokens program = Ok program'
              ∧ scope_view program' = scope_view program.
Proof.
  unfold _extract_program_calls.
  destruct (pass_ok tokens scope_view (calls_body tokens) program calls_body_ok)
    as (r & -> & Hn).
  bind_simpl. eauto.
Qed.

(** *** File references *)

Lemma select_loop_ok st :
  ∃ r, while (S (length tokens)) (select_cond tokens) (select_body tokens) st = Ok r.
Proof.
  destruct (while_index_ok (λ _, True) sel_j (length tokens)
    (select_cond tokens) (select_body tokens)) with (s := st)
    as (r & -> & _); [|done|eauto].
  intros [j brk am org key] _. unfold select_cond, select_body.
  cbn [sel_j sel_break sel_access_mode sel_organization sel_record_key]. cbv zeta.
  destruct brk; [eexists; split; [done|]; done|].
  tok_cases j; [|eexists; split; [done|]; done].
  eexists. split; [done|]. intros _. split; [by eapply lookup_lt_Some|].
  tok_cases (j + 1)%nat; tok_cases (j + 2)%nat; crunch;
    eexists; (split; [reflexivity|]); (split; [done|]); simpl; lia.
Qed.

Lemma select_scan_body_ok st :
  (st.1 < length tokens)%nat →
  ∃ st', select_scan_body tokens st = Ok st' ∧ (st.1 < st'.1)%nat
         ∧ scope_view st'.2 = scope_view st.2.
Proof.
  destruct st as [i program]. cbn [fst]. intros Hi. unfold select_scan_body.
  destruct (select_loop_ok (mk_select (i + 2) false "SEQUENTIAL" None None))
    as (r & Hr).
  tok_at i Hi. tok_cases (i + 1)%nat; crunch_with Hr; finish.
Qed.

Lemma verb_loop_ok i st :
  (i < length tokens)%nat →
  ∃ r, while (S (length tokens)) (verb_cond tokens i) (verb_body tokens i) st = Ok r
       ∧ scope_view r.2 = scope_view st.2.
Proof.
  intros Hi.
  destruct (while_index_ok
    (λ s, scope_view s.2 = scope_view st.2) fst (length tokens)
    (verb_cond tokens i) (verb_body tokens i)) with (s := st)
    as (r & -> & Hn & _); [|done|eauto].
  intros [j program] Hn. unfold verb_cond, verb_body. cbn [fst]. cbn [snd] in Hn.
  tok_at i Hi. tok_cases j; [|eexists; split; [done|]; done].
  eexists. split; [done|]. intros _. split; [by eapply lookup_lt_Some|].
  crunch; eexists; (split; [reflexivity|]); (split; [done|]); simpl; lia.
Qed.

Lemma verb_scan_body_ok st :
  (st.1 < length tokens)%nat →
  ∃ st', verb_scan_body tokens st = Ok st' ∧ (st.1 < st'.1)%nat
         ∧ scope_view st'.2 = scope_view st.2.
Proof.
  destruct st as [i program]. cbn [fst]. intros Hi. unfold verb_scan_body.
  destruct (verb_loop_ok i ((i + 1)%nat, program) Hi) as (r & Hr & Hn).
  tok_at i Hi. crunch_with Hr; finish.
Qed.

Lemma _extract_file_references_ok program :
  ∃ program', _extract_file_references tokens program = Ok program'
              ∧ scope_view program' = scope_view program.
Proof.
  unfold _extract_file_references.
  destruct (pass_ok tokens scope_view (select_scan_body tokens) program select_scan_body_ok)
    as (r1 & -> & Hn1).
  bind_simpl.
  destruct (pass_ok tokens scope_view (verb_scan_body tokens) r1.2 verb_scan_body_ok)
    as (r2 & -> & Hn2).
  bind_simpl. eexists. split; [done|]. congruence.
Qed.

(** The second scan registers every Identifier that follows the token it
    stands on, on the same line, whatever that token is. *)
Lemma file_exists_names (program : CobolProgram.t) (file_name : string) :
  file_exists (CobolProgram.files program) file_name = true
  ↔ file_name ∈ file_names program.
Proof.
  unfold file_exists, file_names. rewrite existsb_exists. split.
  - intros (f & Hin%list_elem_of_In & <-%String.eqb_eq).
    apply list_elem_of_fmap. eauto.
  - intros (f & -> & Hin)%list_elem_of_fmap. exists f. split.
    + by apply list_elem_of_In.
    + apply String.eqb_refl.
Qed.

Lemma verb_body_registers i j program ti t :
  tokens !! i = Some ti → tokens !! j = Some t →
  ∃ program',
    verb_body tokens i (j, program) = Ok ((j + 1)%nat, program')
    ∧ file_names program ⊆ file_names program'
    ∧ (Token.type t = IDENTIFIER → upper (Token.value t) ∈ file_names program').
Proof.
  intros Hi Hj. unfold verb_body.
  rewrite (tok_Some tokens _ _ Hj), (tok_Some tokens _ _ Hi). bind_simpl.
  destruct (is_type (Token.type t) IDENTIFIER) eqn:Ety.
  - destruct (file_exists (CobolProgram.files program) (upper (Token.value t))) eqn:Ex.
    + eexists. split; [done|]. split; [done|]. intros _. by apply file_exists_names.
    + eexists. split; [done|]. unfold file_names. simpl. rewrite fmap_app. simpl.
      split; [set_solver|]. intros _. set_solver.
  - eexists. split; [done|]. split; [done|].
    intros Hty. apply bool_decide_eq_false in Ety. done.
Qed.

Lemma verb_loop_registers i j program ti :
  tokens !! i = Some ti →
  ∃ r,
    while (S (length tokens)) (verb_cond tokens i) (verb_body tokens i) (j, program)
      = Ok r
    ∧ file_names program ⊆ file_names r.2
    ∧ ∀ t, tokens !! j = Some t → Token.line t = Token.line ti →
           Token.type t = IDENTIFIER → upper (Token.value t) ∈ file_names r.2.
Proof.
  intros Hi.
  destruct (while_index_ok
    (λ s, (j <= s.1)%nat ∧ file_names program ⊆ file_names s.2
          ∧ ((j < s.1)%nat →
             ∀ t, tokens !! j = Some t → Token.type t = IDENTIFIER →
                  upper (Token.value t) ∈ file_names s.2))
    fst (length tokens) (verb_cond tokens i) (verb_body tokens i))
    with (s := (j, program)) as (r & Hr & (Hj & Hsub & Hreg) & Hc).
  - intros [k p] (Hk & Hsub & Hreg). cbn [fst snd] in *. unfold verb_cond. cbn [fst].
    rewrite (tok_Some tokens _ _ Hi).
    destruct (tokens !! k) as [t|] eqn:Ek.
    + rewrite (in_range_Some tokens _ _ Ek), (tok_Some tokens _ _ Ek). bind_simpl.
      eexists. split; [done|]. intros _. split; [by eapply lookup_lt_Some|].
      destruct (verb_body_registers i k p ti t Hi Ek) as (p' & -> & Hsub' & Hreg').
      eexists. split; [done|]. cbn [fst snd]. split; [|lia].
      split; [lia|]. split; [set_solver|].
      intros _ t' Ht' Hty'. destruct (decide (k = j)) as [->|Hne].
      * rewrite Ek in Ht'. injection Ht' as <-. by apply Hreg'.
      * apply Hsub', Hreg; [lia|done|done].
    + rewrite (in_range_None tokens _ Ek). bind_simpl. eexists. split; [done|]. done.
  - cbn [fst snd]. split; [done|]. split; [done|]. lia.
  - exists r. split; [done|]. split; [done|].
    intros t Ht Hline Hty. apply Hreg; [|done|done].
    destruct (decide (r.1 = j)) as [Heq|Hne]; [|lia].
    unfold verb_cond in Hc. rewrite Heq in Hc.
    rewrite (in_range_Some tokens _ _ Ht), (tok_Some tokens _ _ Ht),
      (tok_Some tokens _ _ Hi) in Hc.
    bind_simpl. injection Hc as Hc. by apply bool_decide_eq_false in Hc.
Qed.

Lemma verb_scan_body_registers i program ti :
  tokens !! i = Some ti →
  ∃ program',
    verb_scan_body tokens (i, program) = Ok ((i + 1)%nat, program')
    ∧ file_names program ⊆ file_names program'
    ∧ ∀ t, tokens !! (i + 1)%nat = Some t → Token.line t = Token.line ti →
           Token.type t = IDENTIFIER → upper (Token.value t) ∈ file_names program'.
Proof.
  intros Hi. unfold verb_scan_body.
  destruct (verb_loop_registers i (i + 1) program ti Hi) as (r & Hr & Hsub & Hreg).
  rewrite (type_is_Some tokens _ _ _ Hi), (value_upper_Some tokens _ _ Hi).
  crunch_with Hr; eexists; (split; [reflexivity|]); done.
Qed.

Lemma verb_scan_registers program :
  ∃ r,
    while (S (length tokens)) (λ st, in_range tokens st.1) (verb_scan_body tokens)
      (0%nat, program) = Ok r
    ∧ scope_view r.2 = scope_view program
    ∧ file_names program ⊆ file_names r.2
    ∧ ∀ i a b, tokens !! i = Some a → tokens !! (i + 1)%nat = Some b →
               Token.line b = Token.line a → Token.type b = IDENTIFIER →
               upper (Token.value b) ∈ file_names r.2.
Proof.
  destruct (while_index_ok
    (λ s, scope_view s.2 = scope_view program
          ∧ file_names program ⊆ file_names s.2
          ∧ ∀ i a b, (i < s.1)%nat →
              tokens !! i = Some a → tokens !! (i + 1)%nat = Some b →
              Token.line b = Token.line a → Token.type b = IDENTIFIER →
              upper (Token.value b) ∈ file_names s.2)
    fst (length tokens) (λ st, in_range tokens st.1) (verb_scan_body tokens))
    with (s := (0%nat, program)) as (r & Hr & (Hview & Hsub & Hreg) & Hc).
  - intros [i p] (Hview & Hsub & Hreg). cbn [fst snd] in *.
    eexists. split; [done|]. intros Hc%Nat.ltb_lt. split; [done|].
    destruct (lookup_lt_is_Some_2 tokens i Hc) as [ti Hi].
    destruct (verb_scan_body_registers i p ti Hi) as (p' & Hbody & Hsub' & Hreg').
    destruct (verb_scan_body_ok (i, p) Hc) as (s' & Hbody' & _ & Hview').
    rewrite Hbody in Hbody'. injection Hbody' as <-. cbn [fst snd] in *.
    eexists. split; [done|]. cbn [fst snd]. split; [|lia].
    split; [congruence|]. split; [set_solver|].
    intros k a b Hk Ha Hb Hline Hty. destruct (decide (k = i)) as [->|Hne].
    + rewrite Hi in Ha. injection Ha as <-. by eapply Hreg'.
    + apply Hsub', (Hreg k a b); [lia|done..].
  - cbn [fst snd]. split; [done|]. split; [done|]. intros ??? Hlt. lia.
  - exists r. split; [done|]. split; [done|]. split; [done|].
    intros i a b Ha Hb. apply (Hreg i a b); [|done..].
    injection Hc as Hc%Nat.ltb_ge. apply lookup_lt_Some in Ha. lia.
Qed.

Lemma _extract_file_references_registers program :
  ∃ program',
    _extract_file_references tokens program = Ok program'
    ∧ ∀ i a b, tokens !! i = Some a → tokens !! (i + 1)%nat = Some b →
               Token.line b = Token.line a → Token.type b = IDENTIFIER →
               upper (Token.value b) ∈ file_names program'.
Proof.
  unfold _extract_file_references.
  destruct (pass_ok tokens scope_view (select_scan_body tokens) program select_scan_body_ok)
    as (r1 & -> & _).
  bind_simpl.
  destruct (verb_scan_registers r1.2) as (r2 & -> & _ & _ & Hreg).
  bind_simpl. eauto.
Qed.

(** *** Maps *)

Lemma cics_loop_ok st :
  ∃ r, while (S (length tokens)) (λ st, not_end_exec tokens (cics_j st))
         (cics_body tokens) st = Ok r.
Proof.
  destruct (while_index_ok (λ _, True) cics_j (length tokens)
    (λ st, not_end_exec tokens (cics_j st)) (cics_body tokens)) with (s := st)
    as (r & -> & _); [|done|eauto].
  intros [j found maps] _. cbn [cics_j].
  destruct (not_end_exec_total tokens j) as [c Hc]. exists c. split; [done|].
  intros ->. pose proof (not_end_exec_true tokens j Hc) as Hj. split; [done|].
  unfold cics_body. cbn [cics_j map_found cics_maps].
  tok_at j Hj. tok_cases (j + 1)%nat; tok_cases (j + 2)%nat; crunch;
    eexists; (split; [reflexivity|]); (split; [done|]); simpl; lia.
Qed.

Lemma maps_body_ok st :
  (st.1 < length tokens)%nat →
  ∃ st', maps_body tokens st = Ok st' ∧ (st.1 < st'.1)%nat
         ∧ scope_view st'.2 = scope_view st.2.
Proof.
  destruct st as [i program]. cbn [fst]. intros Hi. unfold maps_body.
  destruct (cics_loop_ok (mk_cics (i + 2) false (CobolProgram.maps_used program)))
    as (r & Hr).
  destruct (skip_ok tokens i) as (i' & Hskip & Hi' & _).
  tok_at i Hi. tok_cases (i + 1)%nat; tok_cases (i + 2)%nat;
    crunch_with Hr; rewrite ?Hskip; bind_simpl; finish.
Qed.

Lemma _extract_maps_ok program :
  ∃ program', _extract_maps tokens program = Ok program'
              ∧ scope_view program' = scope_view program.
Proof.
  unfold _extract_maps.
  destruct (pass_ok tokens scope_view (maps_body tokens) program maps_body_ok)
    as (r & -> & Hn).
  bind_simpl. eauto.
Qed.

(** *** Scope tree *)

Lemma clause_loop_ok token st :
  ∃ r, while (S (length tokens)) (clause_cond tokens token) (clause_body tokens) st
       = Ok r.
Proof.
  destruct (while_index_ok (λ _, True) fst (length tokens)
    (clause_cond tokens token) (clause_body tokens)) with (s := st)
    as (r & -> & _); [|done|eauto].
  intros [j d] _. unfold clause_cond, clause_body. cbn [fst].
  tok_cases j; [|eexists; split; [done|]; done].
  eexists. split; [done|]. intros _. split; [by eapply lookup_lt_Some|].
  tok_cases (j + 1)%nat; crunch; try guard_false;
    eexists; (split; [reflexivity|]); (split; [done|]); simpl; lia.
Qed.

(** The paragraph and data-item branches, given the token after [token]. *)
Ltac scope_rest next token :=
  destruct (int (Token.value token)) as [level|] eqn:Elevel;
  [|tok_cases next; crunch; finish];
  (tok_cases next; [|crunch; finish]);
  match goal with
  | |- context [while ?f ?c ?b ?s] =>
      let r := fresh "r" in
      let Hr := fresh "Hr" in
      destruct (clause_loop_ok token s) as (r & Hr); crunch_with Hr; finish
  end.

(** The same branches, for [flat_scope]. *)
Ltac flat_rest next token :=
  destruct (int (Token.value token)) as [level|] eqn:Elevel;
  [|tok_cases next; crunch; flat_leaf];
  (tok_cases next; [|crunch; flat_leaf]);
  match goal with
  | |- context [while ?f ?c ?b ?s] =>
      let r := fresh "r" in
      let Hr := fresh "Hr" in
      destruct (clause_loop_ok token s) as (r & Hr); crunch_with Hr; flat_leaf
  end.

Lemma _parse_divisions_body_ok st :
  (sc_i st < length tokens)%nat →
  ∃ st', _parse_divisions_body tokens st = Ok st' ∧ (sc_i st < sc_i st')%nat
         ∧ CobolProgram.name (sc_program st') = CobolProgram.name (sc_program st).
Proof.
  destruct st as [i div sec par program].
  cbn [sc_i]. intros Hi. unfold _parse_divisions_body.
  cbn [sc_i current_division current_section current_paragraph sc_program].
  cbv zeta. tok_at i Hi.
  assert (Hprev : i = 0%nat ∨ ∃ p, tokens !! (i - 1)%nat = Some p).
  { destruct i as [|i]; [by left|]. right.
    apply lookup_lt_is_Some_2. lia. }
  destruct (is_type (Token.type t) DIVISION); [finish|].
  destruct (is_type (Token.type t) SECTION).
  { destruct Hprev as [->|[p Hp]].
    - bind_simpl. finish.
    - rewrite (type_is_Some tokens _ _ _ Hp), ?(value_upper_Some tokens _ _ Hp).
      crunch; finish. }
  destruct Hprev as [->|[p Hp]].
  - cbn [Nat.eqb]. scope_rest (0 + 1)%nat t.
  - rewrite ?(tok_Some tokens _ _ Hp). scope_rest (i + 1)%nat t.
Qed.

(** The section of a scope state stays closed, and no division gets a
    section, over a round on a token whose type is not Section. *)
Lemma end_division_flat e program div par :
  (∀ d, div = Some d → Division.sections d = ∅) →
  no_sections (CobolProgram.divisions program) →
  no_sections (CobolProgram.divisions (end_division e program div None par)).
Proof.
  intros Hd Hm. destruct div as [d|]; [|done]. simpl.
  intros k d'. destruct (decide (Division.name d = k)) as [<-|Hne].
  - rewrite lookup_insert_eq. intros [= <-]. simpl. by apply Hd.
  - rewrite lookup_insert_ne by done. apply Hm.
Qed.

Lemma _parse_divisions_body_flat st st' t :
  tokens !! sc_i st = Some t →
  Token.type t ≠ SECTION →
  flat_scope st →
  _parse_divisions_body tokens st = Ok st' →
  flat_scope st'.
Proof.
  destruct st as [i div sec par program]. cbn [sc_i].
  intros Ht Hty (Hsec & Hd & Hm). simpl in Hsec, Hd, Hm. subst sec.
  unfold _parse_divisions_body.
  cbn [sc_i current_division current_section current_paragraph sc_program].
  cbv zeta. rewrite (tok_Some tokens _ _ Ht). bind_simpl.
  destruct (is_type (Token.type t) DIVISION).
  { intros [= <-]. split; [done|]. split.
    - simpl. by intros d [= <-].
    - simpl. by apply end_division_flat. }
  assert (Hs : is_type (Token.type t) SECTION = false)
    by (by apply bool_decide_eq_false_2).
  rewrite Hs.
  assert (Hprev : i = 0%nat ∨ ∃ p, tokens !! (i - 1)%nat = Some p).
  { destruct i as [|i]; [by left|]. right.
    apply lookup_lt_is_Some_2. apply lookup_lt_Some in Ht. lia. }
  destruct Hprev as [->|[p Hp]].
  - cbn [Nat.eqb]. flat_rest (0 + 1)%nat t.
  - rewrite ?(tok_Some tokens _ _ Hp). flat_rest (i + 1)%nat t.
Qed.

Lemma _parse_divisions_ok program :
  ∃ program', _parse_divisions tokens program = Ok program'
              ∧ CobolProgram.name program' = CobolProgram.name program
              ∧ (Forall (λ t, Token.type t ≠ SECTION) tokens →
                 no_sections (CobolProgram.divisions program) →
                 no_sections (CobolProgram.divisions program')).
Proof.
  unfold _parse_divisions.
  destruct (while_index_ok
    (λ s, CobolProgram.name (sc_program s) = CobolProgram.name program
          ∧ (Forall (λ t, Token.type t ≠ SECTION) tokens →
             no_sections (CobolProgram.divisions program) → flat_scope s))
    sc_i (length tokens)
    (λ st, in_range tokens (sc_i st)) (_parse_divisions_body tokens))
    with (s := mk_scope 0 None None None program)
    as (st' & -> & [Hn Hflat] & _).
  - intros s [Hs Hflat]. eexists. split; [done|]. intros Hc%Nat.ltb_lt. split; [done|].
    destruct (_parse_divisions_body_ok s Hc) as (s' & Hbody & Hlt & Hn).
    exists s'. split; [done|]. split; [|done]. split; [congruence|].
    intros Hall Hm.
    destruct (lookup_lt_is_Some_2 tokens (sc_i s) Hc) as [t Ht].
    eapply _parse_divisions_body_flat; [exact Ht| |by apply Hflat|exact Hbody].
    rewrite Forall_lookup in Hall. by eapply Hall.
  - split; [done|]. intros _ Hm. by repeat split.
  - bind_simpl. eexists. split; [done|]. split; [by rewrite end_division_name|].
    intros Hall Hm. destruct (Hflat Hall Hm) as (Hsec & Hd & Hm').
    rewrite Hsec. by apply end_division_flat.
Qed.

Lemma _parse_program_ok program :
  ∃ program', _parse_program tokens program = Ok program'
              ∧ CobolProgram.name program' = CobolProgram.name program
              ∧ (Forall (λ t, Token.type t ≠ SECTION) tokens →
                 no_sections (CobolProgram.divisions program) →
                 no_sections (CobolProgram.divisions program')).
Proof.
  unfold _parse_program.
  destruct (_parse_divisions_ok program) as (p1 & -> & H1 & Hflat). bind_simpl.
  destruct (_extract_file_references_ok p1) as (p2 & -> & H2). bind_simpl.
  destruct (_extract_program_calls_ok p2) as (p3 & -> & H3). bind_simpl.
  destruct (_extract_resources_ok tokens p3) as (p4 & -> & H4). bind_simpl.
  destruct (_extract_copybooks_ok p4) as (p5 & -> & H5). bind_simpl.
  destruct (_extract_maps_ok p5) as (p6 & -> & H6).
  assert (Hview : scope_view p6 = scope_view p1) by congruence.
  injection Hview as Hname Hdiv.
  eexists. split; [done|]. split; [congruence|].
  rewrite Hdiv. exact Hflat.
Qed.
End ParserTotal.

(** [parse] returns a program for every path and source text, named after
    the path, and none of its divisions has a section. *)
Lemma parse_ok (source_path source_code : string) :
  ∃ program, parse source_path source_code = Ok program
             ∧ CobolProgram.name program = program_name_of source_path
             ∧ no_sections (CobolProgram.divisions program).
Proof.
  unfold parse. destruct (tokenize_ok source_code) as (tokens & -> & _ & Hkind).
  bind_simpl.
  destruct (_parse_program_ok tokens (CobolProgram.new (program_name_of source_path)
                                        source_path))
    as (program & -> & Hn & Hflat).
  exists program. split; [done|]. split; [done|]. apply Hflat.
  - eapply Forall_impl; [exact Hkind|]. by intros t [? _].
  - intros k d. simpl. by rewrite lookup_empty.
Qed.

(** C2.  The tokenizer never gives a token the type Section (the word
    SECTION is typed Keyword) and the scope pass opens a section on that
    type only: for every source text the parsed program has no section in
    any division.  On [MAIN-LOGIC SECTION.] in the PROCEDURE division the
    identifier is followed by the Keyword SECTION and the division's section
    map is empty. *)
Theorem section_not_opened :
  (∀ source_path source_code,
     ∃ program, parse source_path source_code = Ok program
                ∧ ∀ name division,
                    CobolProgram.divisions program !! name = Some division →
                    Division.sections division = ∅)
  ∧ (tokens ← tokenize SECTION_SOURCE; Ok (tokens !! 3%nat, tokens !! 4%nat))
    = Ok (Some (Token.mk IDENTIFIER "MAIN-LOGIC" 2 8),
          Some (Token.mk KEYWORD "SECTION" 2 19))
  ∧ (program ← parse "ORDERS.cbl" SECTION_SOURCE; Ok (CobolProgram.divisions program))
    = Ok {[ "PROCEDURE" := Division.mk "PROCEDURE" 1 4 ∅ ]}.
Proof.
  split; [|split; vm_compute; reflexivity].
  intros source_path source_code.
  destruct (parse_ok source_path source_code) as (program & Hp & _ & Hflat).
  exists program. split; [done|]. exact Hflat.
Qed.

(** C3.  On every token stream the file-reference pass registers every
    Identifier that follows another token on the same line, whether or not
    an I/O verb is on the line.  On the line [MOVE A TO B], which has none,
    both identifiers are registered as files with access mode UNKNOWN. *)
Theorem identifiers_without_verb_registered :
  (∀ tokens program i a b,
     tokens !! i = Some a → tokens !! (i + 1)%nat = Some b →
     Token.line b = Token.line a → Token.type b = IDENTIFIER →
     ∃ program', _extract_file_references tokens program = Ok program'
                 ∧ upper (Token.value b) ∈ file_names program')
  ∧ (program ← parse "MOVER.cbl" "       MOVE A TO B"; Ok (CobolProgram.files program))
    = Ok [FileReference.mk "A" "UNKNOWN" None None (1, 8);
          FileReference.mk "B" "UNKNOWN" None None (1, 8)].
Proof.
  split; [|vm_compute; reflexivity].
  intros tokens program i a b Ha Hb Hline Hty.
  destruct (_extract_file_references_registers tokens program) as (program' & Hp & Hreg).
  exists program'. split; [done|]. by apply (Hreg i a b).
Qed.

(** C8.  MAP is not in [KEYWORDS]: in the tokens of every source text no
    Keyword token has the text MAP, which the bare pattern asks for.  After
    [SEND MAP MENU1] outside any EXEC block [maps_used] is empty. *)
Theorem bare_send_map_not_recorded :
  (∀ source_code,
     ∃ tokens, tokenize source_code = Ok tokens
               ∧ Forall (λ t, ¬ (Token.type t = KEYWORD
                                 ∧ upper (Token.value t) = "MAP")) tokens)
  ∧ tokenize "       SEND MAP MENU1"
    = Ok [Token.mk KEYWORD "SEND" 1 8; Token.mk IDENTIFIER "MAP" 1 13;
          Token.mk IDENTIFIER "MENU1" 1 17]
  ∧ (program ← parse "MENU.cbl" "       SEND MAP MENU1";
     Ok (CobolProgram.maps_used program))
    = Ok ∅.
Proof.
  split; [|split; vm_compute; reflexivity].
  intros source_code.
  destruct (tokenize_ok source_code) as (tokens & Ht & _ & Hkind).
  exists tokens. split; [done|].
  eapply Forall_impl; [exact Hkind|].
  intros t [_ Hkw] [Hty Hv]. specialize (Hkw Hty). rewrite Hv in Hkw.
  vm_compute in Hkw. discriminate.
Qed.

(** ** Analysis of source files *)

Lemma analyze_program_ok (self : CobolAnalyzer.t) (program_path source_code : string) :
  ∃ self' program,
    analyze_program self program_path source_code = Ok (self', program)
    ∧ parse program_path source_code = Ok program
    ∧ register self program = Ok self'.
Proof.
  unfold analyze_program.
  destruct (parse_ok program_path source_code) as (program & Hp & _ & _).
  destruct (register_ok self program) as (self' & Hr & _).
  exists self', program. rewrite Hp. bind_simpl. rewrite Hr. done.
Qed.

(** [register] keeps every node of the call graph and makes every call
    target of the program a node. *)
Lemma register_dom (self self' : CobolAnalyzer.t) (program : CobolProgram.t) :
  register self program = Ok self' →
  dom (CobolAnalyzer.call_graph self) ⊆ dom (CobolAnalyzer.call_graph self')
  ∧ ∀ call, call ∈ CobolProgram.calls program →
            ProgramCall.target call ∈ dom (CobolAnalyzer.call_graph self').
Proof.
  intros Hreg. destruct (register_ok self program) as (self0 & Hr & _ & Hn & Hk & _).
  rewrite Hreg in Hr. injection Hr as <-.
  assert (Hin : ∀ k, (k ∈ dom (CobolAnalyzer.call_graph self) ∨ k ∈ targets program) →
                     k ∈ dom (CobolAnalyzer.call_graph self')).
  { intros k Hin. apply elem_of_dom.
    destruct (decide (k = CobolProgram.name program)) as [->|Hne]; [by rewrite Hn|].
    rewrite (Hk k Hne). destruct Hin as [[v Hv]%elem_of_dom|Ht].
    - by rewrite Hv.
    - destruct (_ !! k); [done|]. by rewrite bool_decide_eq_true_2. }
  split.
  - intros k Hk'. apply Hin. by left.
  - intros call Hcall. apply Hin. right. unfold targets.
    apply list_elem_of_fmap. eauto.
Qed.

(** The resource index only grows under [register]. *)
Lemma register_usage_mono (self self' : CobolAnalyzer.t) (program : CobolProgram.t)
    (key : string) (users : gset string) :
  register self program = Ok self' →
  CobolAnalyzer.resource_usage self !! key = Some users →
  ∃ users', CobolAnalyzer.resource_usage self' !! key = Some users' ∧ users ⊆ users'.
Proof.
  intros Hreg Hu. destruct (register_ok self program) as (self0 & Hr & _ & _ & _ & Hk).
  rewrite Hreg in Hr. injection Hr as <-. rewrite (Hk key), Hu.
  case_bool_decide; eexists; (split; [done|]); set_solver.
Qed.

Lemma analyze_all_cons (self : CobolAnalyzer.t) (path src : string)
    (sources : list (string * string)) :
  analyze_all self ((path, src) :: sources)
  = r ← analyze_program self path src; analyze_all r.1 sources.
Proof.
  unfold analyze_all. cbn [for_each fst snd].
  by destruct (analyze_program self path src) as [[? ?]| |].
Qed.

(** C7.  After any sequence of [analyze_program] calls, from any analyzer
    state: the sequence returns, every key the call graph had is still a
    key, and every call target of every program analyzed is a key. *)
Theorem call_targets_are_nodes (self : CobolAnalyzer.t)
    (sources : list (string * string)) :
  ∃ self',
    analyze_all self sources = Ok self'
    ∧ dom (CobolAnalyzer.call_graph self) ⊆ dom (CobolAnalyzer.call_graph self')
    ∧ ∀ path src program call,
        (path, src) ∈ sources →
        parse path src = Ok program →
        call ∈ CobolProgram.calls program →
        ProgramCall.target call ∈ dom (CobolAnalyzer.call_graph self').
Proof.
  revert self. induction sources as [|[path src] sources IH]; intros self.
  - exists self. split; [done|]. split; [done|]. intros ???? Hin. by inversion Hin.
  - destruct (analyze_program_ok self path src) as (self1 & p & Ha & Hp & Hr).
    destruct (register_dom _ _ _ Hr) as [Hdom Htargets].
    destruct (IH self1) as (self' & Hall & Hdom' & Htargets').
    exists self'. rewrite analyze_all_cons, Ha. bind_simpl. split; [done|].
    split; [set_solver|].
    intros path' src' program call Hin Hparse Hcall.
    apply elem_of_cons in Hin as [[= -> ->]|Hin].
    + rewrite Hp in Hparse. injection Hparse as <-. set_solver.
    + by eapply Htargets'.
Qed.

Lemma call_targets_are_nodes_witness :
  ∃ self',
    analyze_all (CobolAnalyzer.new []) [("MAIN.cbl", CALLER_SOURCE)] = Ok self'
    ∧ dom (CobolAnalyzer.call_graph (CobolAnalyzer.new []))
      ⊆ dom (CobolAnalyzer.call_graph self')
    ∧ ∀ path src program call,
        (path, src) ∈ [("MAIN.cbl", CALLER_SOURCE)] →
        parse path src = Ok program →
        call ∈ CobolProgram.calls program →
        ProgramCall.target call ∈ dom (CobolAnalyzer.call_graph self').
Proof.
  exact (call_targets_are_nodes (CobolAnalyzer.new []) [("MAIN.cbl", CALLER_SOURCE)]).
Defined.

(** C4 (amended).  When a file is analyzed under a name that is already
    registered, both calls return; the registry entry is the second
    program; every resource-index membership and every call-graph key of
    the first analysis is still there; the edge sets of other programs are
    as they were; and the edge set of the re-analyzed program is exactly the
    set of call targets of the second program. *)
Theorem reanalysis_rebuilds_edges (self : CobolAnalyzer.t)
    (path1 src1 path2 src2 : string) :
  program_name_of path1 = program_name_of path2 →
  ∃ st1 p1 st2 p2,
    analyze_program self path1 src1 = Ok (st1, p1)
    ∧ analyze_program st1 path2 src2 = Ok (st2, p2)
    ∧ CobolAnalyzer.analyzed_programs st2 !! program_name_of path1 = Some p2
    ∧ (∀ key users,
         CobolAnalyzer.resource_usage st1 !! key = Some users →
         ∃ users', CobolAnalyzer.resource_usage st2 !! key = Some users'
                   ∧ users ⊆ users')
    ∧ dom (CobolAnalyzer.call_graph st1) ⊆ dom (CobolAnalyzer.call_graph st2)
    ∧ (∀ k callees,
         k ≠ program_name_of path1 →
         CobolAnalyzer.call_graph st1 !! k = Some callees →
         CobolAnalyzer.call_graph st2 !! k = Some callees)
    ∧ CobolAnalyzer.call_graph st2 !! program_name_of path1
      = Some (list_to_set (targets p2)).
Proof.
  intros Hname.
  destruct (analyze_program_ok self path1 src1) as (st1 & p1 & Ha1 & Hp1 & Hr1).
  destruct (analyze_program_ok st1 path2 src2) as (st2 & p2 & Ha2 & Hp2 & Hr2).
  exists st1, p1, st2, p2. split; [done|]. split; [done|].
  destruct (parse_ok path2 src2) as (p2' & Hp2' & Hn2 & _).
  rewrite Hp2 in Hp2'. injection Hp2' as <-. rewrite <- Hname in Hn2.
  destruct (register_ok st1 p2) as (st2' & Hr2' & Hprog & Hself & Hother & _).
  rewrite Hr2 in Hr2'. injection Hr2' as <-. rewrite Hn2 in *.
  split; [by rewrite Hprog, lookup_insert_eq|].
  split; [intros key users; by apply (register_usage_mono _ _ _ _ _ Hr2)|].
  split; [by apply (register_dom _ _ _ Hr2)|].
  split; [|done].
  intros k callees Hk Hc. by rewrite (Hother k Hk), Hc.
Qed.

Lemma reanalysis_rebuilds_edges_witness :
  ∃ st1 p1 st2 p2,
    analyze_program (CobolAnalyzer.new []) "v1/PAYROLL.cbl" FIRST_VERSION = Ok (st1, p1)
    ∧ analyze_program st1 "v2/PAYROLL.cbl" SECOND_VERSION = Ok (st2, p2)
    ∧ CobolAnalyzer.analyzed_programs st2 !! program_name_of "v1/PAYROLL.cbl" = Some p2
    ∧ (∀ key users,
         CobolAnalyzer.resource_usage st1 !! key = Some users →
         ∃ users', CobolAnalyzer.resource_usage st2 !! key = Some users'
                   ∧ users ⊆ users')
    ∧ dom (CobolAnalyzer.call_graph st1) ⊆ dom (CobolAnalyzer.call_graph st2)
    ∧ (∀ k callees,
         k ≠ program_name_of "v1/PAYROLL.cbl" →
         CobolAnalyzer.call_graph st1 !! k = Some callees →
         CobolAnalyzer.call_graph st2 !! k = Some callees)
    ∧ CobolAnalyzer.call_graph st2 !! program_name_of "v1/PAYROLL.cbl"
      = Some (list_to_set (targets p2)).
Proof.
  apply (reanalysis_rebuilds_edges (CobolAnalyzer.new [])
           "v1/PAYROLL.cbl" FIRST_VERSION "v2/PAYROLL.cbl" SECOND_VERSION).
  reflexivity.
Defined.

(** C4 as stated fails: PAYROLL calls AUDIT in its first version and nothing
    in its second; after the second analysis the edge PAYROLL -> AUDIT of
    the first analysis is gone from the call graph. *)
Lemma reanalysis_retracts_edge :
  (r1 ← analyze_program (CobolAnalyzer.new []) "PAYROLL.cbl" FIRST_VERSION;
   Ok (find_called_programs r1.1 "PAYROLL"))
  = Ok {[ "AUDIT" ]}
  ∧ (r1 ← analyze_program (CobolAnalyzer.new []) "PAYROLL.cbl" FIRST_VERSION;
     r2 ← analyze_program r1.1 "PAYROLL.cbl" SECOND_VERSION;
     Ok (find_called_programs r2.1 "PAYROLL", find_caller_programs r2.1 "AUDIT"))
    = Ok (∅, ∅).
Proof. split; vm_compute; reflexivity. Qed.

(** Two programs that call each other and nothing else, registered one after
    the other in an analyzer without programs. *)
Lemma register_pair (copybook_paths : list string) (a b : CobolProgram.t) :
  CobolProgram.name a ≠ CobolProgram.name b →
  list_to_set (targets a) = ({[ CobolProgram.name b ]} : gset string) →
  list_to_set (targets b) = ({[ CobolProgram.name a ]} : gset string) →
  ∃ st1 st2,
    register (CobolAnalyzer.new copybook_paths) a = Ok st1
    ∧ register st1 b = Ok st2
    ∧ find_caller_programs st2 (CobolProgram.name b) = {[ CobolProgram.name a ]}
    ∧ find_caller_programs st2 (CobolProgram.name a) = {[ CobolProgram.name b ]}.
Proof.
  intros Hne Ha Hb.
  destruct (register_ok (CobolAnalyzer.new copybook_paths) a)
    as (st1 & Hr1 & _ & Hn1 & Hk1 & _).
  destruct (register_ok st1 b) as (st2 & Hr2 & _ & Hn2 & Hk2 & _).
  exists st1, st2. split; [done|]. split; [done|].
  rewrite Ha in Hn1. rewrite Hb in Hn2.
  assert (HA : CobolAnalyzer.call_graph st2 !! CobolProgram.name a
               = Some {[ CobolProgram.name b ]}).
  { rewrite (Hk2 _ Hne). by rewrite Hn1. }
  assert (Hrest : ∀ k, k ≠ CobolProgram.name a → k ≠ CobolProgram.name b →
                       CobolAnalyzer.call_graph st2 !! k = None).
  { intros k HkA HkB. rewrite (Hk2 k HkB), (Hk1 k HkA). simpl.
    rewrite lookup_empty.
    rewrite (bool_decide_eq_false_2 (k ∈ targets a)).
    - rewrite bool_decide_eq_false_2; [done|].
      intros Hin%(elem_of_list_to_set (C := gset string)). set_solver.
    - intros Hin%(elem_of_list_to_set (C := gset string)). set_solver. }
  split; apply set_eq; intros x; rewrite elem_of_find_caller_programs, elem_of_singleton.
  - split.
    + intros (callees & Hx & Hin).
      destruct (decide (x = CobolProgram.name a)) as [->|HxA]; [done|].
      destruct (decide (x = CobolProgram.name b)) as [->|HxB].
      * rewrite Hn2 in Hx. injection Hx as <-. set_solver.
      * by rewrite (Hrest x HxA HxB) in Hx.
    + intros ->. eexists. split; [done|]. set_solver.
  - split.
    + intros (callees & Hx & Hin).
      destruct (decide (x = CobolProgram.name b)) as [->|HxB]; [done|].
      destruct (decide (x = CobolProgram.name a)) as [->|HxA].
      * rewrite HA in Hx. injection Hx as <-. set_solver.
      * by rewrite (Hrest x HxA HxB) in Hx.
    + intros ->. eexists. split; [done|]. set_solver.
Qed.

Lemma analyze_pair (self : CobolAnalyzer.t) (path1 src1 path2 src2 : string)
    (p1 p2 : CobolProgram.t) (st1 st2 : CobolAnalyzer.t) :
  parse path1 src1 = Ok p1 → parse path2 src2 = Ok p2 →
  register self p1 = Ok st1 → register st1 p2 = Ok st2 →
  analyze_all self [(path1, src1); (path2, src2)] = Ok st2.
Proof.
  intros Hp1 Hp2 Hr1 Hr2. rewrite analyze_all_cons. unfold analyze_program at 1.
  rewrite Hp1. bind_simpl. rewrite Hr1. bind_simpl. cbn [fst].
  rewrite analyze_all_cons. unfold analyze_program.
  rewrite Hp2. bind_simpl. rewrite Hr2. bind_simpl. done.
Qed.

(** C6.  Two source files that parse to ORDERPROC, whose calls all go to
    BILLING, and to BILLING, whose calls all go to ORDERPROC: analyzed in
    either order by a fresh analyzer, the callers of BILLING are exactly
    ORDERPROC and the callers of ORDERPROC are exactly BILLING. *)
Theorem mutual_callers (copybook_paths : list string)
    (path1 src1 path2 src2 : string) (p1 p2 : CobolProgram.t) :
  parse path1 src1 = Ok p1 →
  parse path2 src2 = Ok p2 →
  CobolProgram.name p1 = "ORDERPROC" →
  CobolProgram.name p2 = "BILLING" →
  list_to_set (targets p1) = ({[ "BILLING" ]} : gset string) →
  list_to_set (targets p2) = ({[ "ORDERPROC" ]} : gset string) →
  (∃ self,
     analyze_all (CobolAnalyzer.new copybook_paths) [(path1, src1); (path2, src2)]
       = Ok self
     ∧ find_caller_programs self "BILLING" = {[ "ORDERPROC" ]}
     ∧ find_caller_programs self "ORDERPROC" = {[ "BILLING" ]})
  ∧ (∃ self,
       analyze_all (CobolAnalyzer.new copybook_paths) [(path2, src2); (path1, src1)]
         = Ok self
       ∧ find_caller_programs self "BILLING" = {[ "ORDERPROC" ]}
       ∧ find_caller_programs self "ORDERPROC" = {[ "BILLING" ]}).
Proof.
  intros Hp1 Hp2 Hn1 Hn2 Ht1 Ht2. split.
  - destruct (register_pair copybook_paths p1 p2)
      as (st1 & st2 & Hr1 & Hr2 & HB & HA);
      [by rewrite Hn1, Hn2 | by rewrite Hn2 | by rewrite Hn1 |].
    rewrite Hn1, Hn2 in *. exists st2.
    split; [by eapply analyze_pair|]. done.
  - destruct (register_pair copybook_paths p2 p1)
      as (st1 & st2 & Hr1 & Hr2 & HA & HB);
      [by rewrite Hn1, Hn2 | by rewrite Hn1 | by rewrite Hn2 |].
    rewrite Hn1, Hn2 in *. exists st2.
    split; [by eapply analyze_pair|]. done.
Qed.

Lemma mutual_callers_witness :
  (∃ self,
     analyze_all (CobolAnalyzer.new [])
       [("src/ORDERPROC.cbl", ORDERPROC_SOURCE); ("src/BILLING.cob", BILLING_SOURCE)]
       = Ok self
     ∧ find_caller_programs self "BILLING" = {[ "ORDERPROC" ]}
     ∧ find_caller_programs self "ORDERPROC" = {[ "BILLING" ]})
  ∧ (∃ self,
       analyze_all (CobolAnalyzer.new [])
         [("src/BILLING.cob", BILLING_SOURCE); ("src/ORDERPROC.cbl", ORDERPROC_SOURCE)]
         = Ok self
       ∧ find_caller_programs self "BILLING" = {[ "ORDERPROC" ]}
       ∧ find_caller_programs self "ORDERPROC" = {[ "BILLING" ]}).
Proof.
  apply (mutual_callers [] "src/ORDERPROC.cbl" ORDERPROC_SOURCE
           "src/BILLING.cob" BILLING_SOURCE ORDERPROC_PROGRAM BILLING_PROGRAM);
    vm_compute; reflexivity.
Defined.

(** * Further properties *)

(** ** The tokens and the source text *)

Lemma str_take_length (n : nat) (s : string) :
  (n <= String.length s)%nat → String.length (str_take n s) = n.
Proof.
  revert s. induction n as [|n IH]; intros s Hn.
  - by destruct s.
  - destruct s as [|c s]; cbn [String.length] in *; [lia|].
    cbn [str_take String.length]. rewrite IH; lia.
Qed.

Lemma str_drop_drop (p q : nat) (s : string) :
  str_drop p (str_drop q s) = str_drop (q + p) s.
Proof.
  revert s. induction q as [|q IH]; intros s; [done|].
  destruct s as [|c s]; cbn [str_drop Nat.add]; [by destruct p|]. apply IH.
Qed.

Lemma str_take_app (a b : nat) (s : string) :
  str_take (a + b) s = str_take a s +:+ str_take b (str_drop a s).
Proof.
  revert s. induction a as [|a IH]; intros s.
  - cbn [Nat.add str_drop]. by destruct s.
  - destruct s as [|c s]; cbn [Nat.add str_take str_drop].
    + by destruct b.
    + rewrite IH. reflexivity.
Qed.

Lemma str_take_prefix (n : nat) (a b : string) :
  (n <= String.length a)%nat → str_take n (a +:+ b) = str_take n a.
Proof.
  revert a. induction n as [|n IH]; intros a Hn.
  - destruct a; [by destruct b|done].
  - destruct a as [|c a]; cbn [String.length] in Hn; [lia|].
    change (String c a +:+ b) with (String c (a +:+ b)).
    cbn [str_take]. rewrite IH; [done|lia].
Qed.

Lemma str_drop_prefix (p : nat) (a b : string) :
  (p <= String.length a)%nat → str_drop p (a +:+ b) = str_drop p a +:+ b.
Proof.
  revert a. induction p as [|p IH]; intros a Hp; [done|].
  destruct a as [|c a]; cbn [String.length] in Hp; [lia|].
  change (String c a +:+ b) with (String c (a +:+ b)).
  cbn [str_drop]. apply IH. lia.
Qed.

Lemma substring_prefix (p n : nat) (a b : string) :
  (p + n <= String.length a)%nat → substring p n (a +:+ b) = substring p n a.
Proof.
  intros H. unfold substring. rewrite str_drop_prefix by lia.
  apply str_take_prefix. rewrite str_drop_length. lia.
Qed.

Lemma rstrip_prefix (s : string) : ∃ b, s = rstrip s +:+ b.
Proof.
  induction s as [|c s [b IH]]; [by exists EmptyString|]. simpl.
  destruct (rstrip s) as [|c' r] eqn:E.
  - destruct (is_space c).
    + by exists (String c s).
    + exists s. simpl. reflexivity.
  - exists b. rewrite IH at 1. reflexivity.
Qed.

Lemma append_length (a b : string) :
  String.length (a +:+ b) = (String.length a + String.length b)%nat.
Proof. induction a as [|c a IH]; simpl; [done|]. by rewrite IH. Qed.

Lemma rstrip_length (s : string) : (String.length (rstrip s) <= String.length s)%nat.
Proof.
  destruct (rstrip_prefix s) as [b Hb]. rewrite Hb at 2. rewrite append_length. lia.
Qed.

Lemma span_all (p : ascii → bool) (s : string) :
  all_chars p (str_take (span p s) s) = true.
Proof.
  induction s as [|c s IH]; simpl; [done|].
  destruct (p c) eqn:E; simpl; [|done]. unfold all_chars in *. simpl. by rewrite E.
Qed.

Lemma starts_with_eq (c : ascii) (s : string) :
  starts_with c s = true → s = String c (str_drop 1 s).
Proof.
  destruct s as [|c' s]; simpl; [done|]. by intros ->%Ascii.eqb_eq.
Qed.

Lemma str_take_get (p : nat) (s : string) (c : ascii) :
  String.get p s = Some c → substring p 1 s = String c EmptyString.
Proof.
  unfold substring. revert s. induction p as [|p IH]; intros [|c' s]; simpl; try done.
  - by intros [= ->].
  - apply IH.
Qed.

Lemma str_take_nonempty (n : nat) (s : string) :
  (1 <= n)%nat → (1 <= String.length s)%nat → str_take n s ≠ EmptyString.
Proof. destruct n, s; simpl; (lia || done). Qed.

Lemma digits_take_span (s : string) :
  (1 <= span is_digit s)%nat → digits (str_take (span is_digit s) s) = true.
Proof.
  intros H. pose proof (span_all is_digit s) as Hall. pose proof (span_le is_digit s).
  unfold digits. destruct (str_take (span is_digit s) s) eqn:E; [|done].
  exfalso. eapply (str_take_nonempty (span is_digit s) s); (done || lia).
Qed.

(** *** The text of each pattern *)

Lemma match_number_text (rest : string) (n : nat) :
  match_number rest = Some n → numeral (str_take n rest).
Proof.
  unfold match_number. destruct (span is_digit rest =? 0)%nat eqn:E; [done|].
  apply Nat.eqb_neq in E.
  destruct (str_drop (span is_digit rest) rest) as [|c r] eqn:Eafter.
  { intros [= <-]. left. apply digits_take_span. lia. }
  cbn [starts_with str_drop].
  destruct (Ascii.eqb "." c && negb (span is_digit r =? 0)%nat) eqn:Edot;
    intros [= <-].
  - right. apply andb_true_iff in Edot as [Hdot%Ascii.eqb_eq Hm].
    apply negb_true_iff, Nat.eqb_neq in Hm. subst c.
    exists (str_take (span is_digit rest) rest), (str_take (span is_digit r) r).
    split; [|split; apply digits_take_span; lia].
    rewrite <- Nat.add_assoc, str_take_app, Eafter. reflexivity.
  - left. apply digits_take_span. lia.
Qed.

Lemma match_identifier_text (rest : string) (n : nat) :
  match_number rest = None → match_identifier rest = Some n →
  word (str_take n rest) = true.
Proof.
  unfold match_number. destruct rest as [|c tl]; [done|].
  cbn [span match_identifier].
  destruct (is_digit c) eqn:Ed; [cbn [Nat.eqb]; by case_match|]. intros _.
  destruct (is_alnum c) eqn:Ea; [|done]. intros [= <-]. cbn [str_take word].
  unfold is_alnum in Ea. rewrite Ed, orb_false_r in Ea. rewrite Ea.
  apply span_all.
Qed.

Lemma match_string_literal_text (rest : string) (n : nat) :
  match_string_literal rest = Some n →
  String DQUOTE (str_take (n - 2) (str_drop 1 rest) +:+ String DQUOTE EmptyString)
  = str_take n rest
  ∧ all_chars (λ x, negb (Ascii.eqb x DQUOTE)) (str_take (n - 2) (str_drop 1 rest)) = true.
Proof.
  destruct rest as [|c tl]; [done|]. cbn [match_string_literal].
  destruct (Ascii.eqb c DQUOTE) eqn:Ec; [|done]. apply Ascii.eqb_eq in Ec. subst c.
  set (k := span (λ x, negb (Ascii.eqb x DQUOTE)) tl).
  destruct (starts_with DQUOTE (str_drop k tl)) eqn:Eq; [|done]. intros [= <-].
  replace (k + 2 - 2)%nat with k by lia. cbn [str_drop]. split; [|apply span_all].
  replace (k + 2)%nat with (S (k + 1)) by lia. cbn [str_take]. f_equal.
  rewrite str_take_app. f_equal.
  rewrite (starts_with_eq _ _ Eq). reflexivity.
Qed.

Lemma match_class_text (chars rest : string) (n : nat) :
  match_class chars rest = Some n →
  n = 1%nat ∧ single chars (str_take n rest) = true.
Proof.
  destruct rest as [|c tl]; simpl; [done|].
  destruct (existsb _ _) eqn:E; [|done]. by intros [= <-].
Qed.

Lemma identifier_type_lexical (text : string) (line column : Z) :
  word text = true → lexical (Token.mk (identifier_type text) text line column).
Proof.
  intros Hw. unfold lexical, identifier_type. cbn [Token.type Token.value].
  destruct (str_in (upper text) DIVISIONS); [by split|].
  destruct (str_in (upper text) KEYWORDS) eqn:E; by split.
Qed.

Lemma identifier_type_not_literal (text : string) : identifier_type text ≠ LITERAL.
Proof. unfold identifier_type. repeat case_match; discriminate. Qed.

(** A token whose value is the text matched, of a type other than
    Literal, stands where it was matched. *)
Lemma placed_match (line : string) (p n : nat) (ty : TokenType) (cl col : Z) :
  ty ≠ LITERAL → (1 <= n <= String.length (str_drop p line))%nat →
  placed line p (Token.mk ty (str_take n (str_drop p line)) cl col).
Proof.
  intros Hty Hn. unfold placed, shown. cbn [Token.type Token.value].
  unfold is_type. rewrite (bool_decide_eq_false_2 _ Hty).
  rewrite str_drop_length in Hn.
  rewrite str_take_length by (rewrite str_drop_length; lia).
  split; [lia|]. split; [lia|done].
Qed.

Lemma span_get (f : ascii → bool) (s : string) (k : nat) :
  (k < span f s)%nat → ∃ c, String.get k s = Some c ∧ f c = true.
Proof.
  revert k. induction s as [|c s IH]; intros k; cbn [span]; [lia|].
  destruct (f c) eqn:E; [|lia]. destruct k as [|k]; [eauto|].
  intros Hk. cbn [String.get]. apply IH. lia.
Qed.

Lemma get_str_drop (p k : nat) (s : string) :
  String.get k (str_drop p s) = String.get (p + k) s.
Proof.
  revert s. induction p as [|p IH]; intros s; [done|].
  destruct s as [|c s]; cbn [str_drop Nat.add String.get]; [by destruct k|]. apply IH.
Qed.

Lemma match_whitespace_text (rest : string) (n k : nat) :
  match_whitespace rest = Some n → (k < n)%nat →
  ∃ c, String.get k rest = Some c ∧ is_space c = true.
Proof.
  unfold match_whitespace. destruct (span is_space rest =? 0)%nat; [done|].
  intros [= <-]. apply span_get.
Qed.

(** One round of the scan: the column moves with the position; the round
    skips white space, or appends one token that stands at the position the
    round started from, has the text its type asks for, and ends where the
    round ends. *)
Lemma _tokenize_line_body_lexeme (current_line : Z) (line : string) (st : scan_state) :
  (position st < String.length line)%nat →
  ∃ st', _tokenize_line_body current_line line st = Ok st'
         ∧ (position st < position st' <= String.length line)%nat
         ∧ current_column st' - Z.of_nat (position st')
           = current_column st - Z.of_nat (position st)
         ∧ ((scanned st' = scanned st
             ∧ ∀ q, (position st <= q < position st')%nat →
                    ∃ c, String.get q line = Some c ∧ is_space c = true)
            ∨ ∃ t, scanned st' = scanned st ++ [t]
                   ∧ Token.line t = current_line
                   ∧ Token.column t = current_column st
                   ∧ lexical t ∧ placed line (position st) t
                   ∧ position st' = (position st + String.length (shown t))%nat).
Proof.
  intros Hpos. unfold _tokenize_line_body.
  set (rest := str_drop (position st) line).
  assert (Hlen : String.length rest = (String.length line - position st)%nat)
    by apply str_drop_length.
  pose proof (match_whitespace_consumes rest) as H1.
  pose proof (match_comment_consumes rest) as H2.
  pose proof (match_string_literal_consumes rest) as H3.
  pose proof (match_number_consumes rest) as H4.
  pose proof (match_identifier_consumes rest) as H5.
  pose proof (match_class_consumes "+-*/=<>" rest) as H6.
  pose proof (match_class_consumes ".,;:" rest) as H7.
  pose proof (match_class_consumes "(){}[]" rest) as H8.
  unfold match_operator, match_punctuation, match_special.
  assert (Hemit : ∀ ty v n,
    (1 <= n <= String.length rest)%nat →
    lexical (Token.mk ty v current_line (current_column st)) →
    placed line (position st) (Token.mk ty v current_line (current_column st)) →
    String.length (shown (Token.mk ty v current_line (current_column st))) = n →
    ∃ st', Ok (emit current_line st ty v n) = Ok st'
           ∧ (position st < position st' <= String.length line)%nat
           ∧ current_column st' - Z.of_nat (position st')
             = current_column st - Z.of_nat (position st)
           ∧ ((scanned st' = scanned st
               ∧ ∀ q, (position st <= q < position st')%nat →
                      ∃ c, String.get q line = Some c ∧ is_space c = true)
              ∨ ∃ t, scanned st' = scanned st ++ [t]
                     ∧ Token.line t = current_line
                     ∧ Token.column t = current_column st
                     ∧ lexical t ∧ placed line (position st) t
                     ∧ position st' = (position st + String.length (shown t))%nat)).
  { intros ty v n Hn Hlex Hplaced Hshown. eexists. split; [done|]. simpl.
    split; [lia|]. split; [lia|]. right. eexists. split; [done|].
    rewrite Hshown. done. }
  assert (Hplain : ∀ ty n cl col,
    ty ≠ LITERAL → (1 <= n <= String.length rest)%nat →
    String.length (shown (Token.mk ty (str_take n rest) cl col)) = n).
  { intros ty n cl col Hty Hn. unfold shown. cbn [Token.type Token.value].
    unfold is_type. rewrite (bool_decide_eq_false_2 _ Hty).
    apply str_take_length. lia. }
  destruct (match_whitespace rest) as [n|] eqn:Ews.
  { specialize (H1 n eq_refl). eexists. split; [done|]. simpl.
    split; [lia|]. split; [lia|]. left. split; [done|].
    intros q Hq.
    destruct (match_whitespace_text rest n (q - position st) Ews ltac:(lia))
      as (c & Hc & Hsp).
    exists c. split; [|done]. unfold rest in Hc. rewrite get_str_drop in Hc.
    by replace (position st + (q - position st))%nat with q in Hc by lia. }
  destruct (match_comment rest) as [n|].
  { specialize (H2 n eq_refl).
    apply Hemit; [done|done|by apply placed_match|by apply Hplain]. }
  destruct (match_string_literal rest) as [n|] eqn:Elit.
  { specialize (H3 n eq_refl).
    destruct (match_string_literal_text rest n Elit) as [Htext Hq].
    assert (Hshown : shown (Token.mk LITERAL (str_take (n - 2) (str_drop 1 rest))
                              current_line (current_column st))
                     = str_take n rest).
    { unfold shown. cbn [Token.type Token.value].
      change (is_type LITERAL LITERAL) with true. cbv iota. exact Htext. }
    apply Hemit; [done|done| |].
    - unfold placed. rewrite Hshown.
      rewrite str_take_length by lia. split; [lia|]. split; [lia|done].
    - rewrite Hshown. apply str_take_length. lia. }
  destruct (match_number rest) as [n|] eqn:Enum.
  { specialize (H4 n eq_refl).
    apply Hemit; [done| |by apply placed_match|by apply Hplain].
    by apply match_number_text. }
  destruct (match_identifier rest) as [n|] eqn:Eid.
  { specialize (H5 n eq_refl). cbv zeta. apply Hemit; [done| | |].
    - apply identifier_type_lexical. by apply match_identifier_text.
    - apply placed_match; [apply identifier_type_not_literal|done].
    - apply Hplain; [apply identifier_type_not_literal|done]. }
  destruct (match_class "+-*/=<>" rest) as [n|] eqn:Eop.
  { specialize (H6 n eq_refl).
    apply Hemit; [done| |by apply placed_match|by apply Hplain].
    by apply match_class_text in Eop as [_ ?]. }
  destruct (match_class ".,;:" rest) as [n|] eqn:Epu.
  { specialize (H7 n eq_refl).
    apply Hemit; [done| |by apply placed_match|by apply Hplain].
    by apply match_class_text in Epu as [_ ?]. }
  destruct (match_class "(){}[]" rest) as [n|] eqn:Esp.
  { specialize (H8 n eq_refl).
    apply Hemit; [done| |by apply placed_match|by apply Hplain].
    by apply match_class_text in Esp as [_ ?]. }
  destruct (str_index_ok line (position st) Hpos) as (c & -> & Hget). bind_simpl.
  apply Hemit; [lia|done| |done].
  unfold placed, shown. cbn [Token.type Token.value].
  change (is_type UNKNOWN LITERAL) with false. cbv iota. cbn [String.length].
  split; [lia|]. split; [lia|]. by apply str_take_get.
Qed.

(** The scan of the content of a line: every token has the number of the
    line, the text its type asks for, and stands in the content at its
    column; the columns grow along the list, and the text of a token ends
    before the text of every later token begins; and every character of the
    content is white space or lies within the text of a token. *)
Lemma _tokenize_line_spec (current_line column0 : Z) (line : string) :
  ∃ toks, _tokenize_line current_line column0 line = Ok toks
          ∧ Forall (scanned_in line current_line column0) toks
          ∧ StronglySorted column_lt toks
          ∧ StronglySorted ends_before toks
          ∧ ∀ q c, String.get q line = Some c →
              is_space c = true
              ∨ ∃ t p, t ∈ toks ∧ Token.column t = column0 + Z.of_nat p
                       ∧ (p <= q < p + String.length (shown t))%nat.
Proof.
  unfold _tokenize_line, _tokenize_line_from.
  destruct (while_ok
    (λ s, (position s <= String.length line)%nat
          ∧ current_column s = column0 + Z.of_nat (position s)
          ∧ Forall (scanned_in line current_line column0) (scanned s)
          ∧ Forall (λ t, Token.column t + Z.of_nat (String.length (shown t))
                         <= column0 + Z.of_nat (position s)) (scanned s)
          ∧ StronglySorted column_lt (scanned s)
          ∧ StronglySorted ends_before (scanned s)
          ∧ ∀ q c, (q < position s)%nat → String.get q line = Some c →
              is_space c = true
              ∨ ∃ t p, t ∈ scanned s ∧ Token.column t = column0 + Z.of_nat p
                       ∧ (p <= q < p + String.length (shown t))%nat)
    (λ s, String.length line - position s)%nat
    (_tokenize_line_cond line) (_tokenize_line_body current_line line))
    with (fuel := S (String.length line)) (s := mk_scan 0 column0 [])
    as (st' & -> & (_ & _ & Hall & _ & Hsorted & Hapart & Hcover) & Hc).
  - intros s (Hb & Hcol & Hall & Hlt & Hsorted & Hapart & Hcover).
    eexists; split; [done|].
    intros Hc%Nat.ltb_lt.
    destruct (_tokenize_line_body_lexeme current_line line s Hc)
      as (s' & -> & Hp & Hcol' & Ht).
    exists s'. split; [done|]. split; [|lia]. split; [lia|]. split; [lia|].
    assert (Hlt' : Forall (λ t, Token.column t + Z.of_nat (String.length (shown t))
                                <= column0 + Z.of_nat (position s'))
                     (scanned s)).
    { eapply Forall_impl; [exact Hlt|]. simpl. intros t Ht'. lia. }
    destruct Ht as [[-> Hws]|(t & -> & Hline & Hcolt & Hlex & Hplaced & Hend)].
    { split; [done|]. split; [done|]. split; [done|]. split; [done|].
      intros q c Hq Hget.
      destruct (decide (q < position s)%nat) as [Hlow|Hhigh]; [by eapply Hcover|].
      left. destruct (Hws q ltac:(lia)) as (c' & Hc' & Hsp). congruence. }
    split; [|split; [|split; [|split]]].
    + apply Forall_app. split; [done|]. constructor; [|done].
      split; [done|]. split; [done|]. exists (position s). split; [lia|done].
    + apply Forall_app. split; [done|]. constructor; [|done]. lia.
    + apply StronglySorted_app_2; [|done|by repeat constructor].
      intros a b Ha ->%list_elem_of_singleton. unfold column_lt.
      rewrite Forall_forall in Hlt, Hall. specialize (Hlt a Ha). simpl in Hlt.
      destruct (Hall a Ha) as (_ & _ & pa & _ & Hlen & _). lia.
    + apply StronglySorted_app_2; [|done|by repeat constructor].
      intros a b Ha ->%list_elem_of_singleton. unfold ends_before.
      rewrite Forall_forall in Hlt. specialize (Hlt a Ha). simpl in Hlt. lia.
    + intros q c Hq Hget.
      destruct (decide (q < position s)%nat) as [Hlow|Hhigh].
      * destruct (Hcover q c Hlow Hget) as [?|(t' & p & Hin & ? & ?)]; [auto|].
        right. exists t', p. split; [|done]. apply elem_of_app. auto.
      * right. exists t, (position s). split; [|split; [lia|lia]].
        apply elem_of_app. right. apply list_elem_of_here.
  - simpl. split; [lia|]. split; [lia|]. split; [done|]. split; [done|].
    split; [constructor|]. split; [constructor|]. intros; lia.
  - simpl. lia.
  - bind_simpl. eexists. split; [done|]. split; [done|]. split; [done|].
    split; [done|].
    intros q c Hget. eapply Hcover; [|done].
    injection Hc as Hc%Nat.ltb_ge.
    assert (q < String.length line)%nat; [|lia].
    clear -Hget. revert q Hget. induction line as [|c' l IH]; intros q; [done|].
    destruct q as [|q]; cbn [String.get String.length]; [lia|].
    intros H%IH. lia.
Qed.

Lemma placed_content (line : string) (p : nat) (t : Token.t) :
  placed (rstrip (str_drop 6 line)) p t → placed line (6 + p) t.
Proof.
  intros (H1 & H2 & H3). destruct (rstrip_prefix (str_drop 6 line)) as [b Hb].
  pose proof (rstrip_length (str_drop 6 line)) as Hl. rewrite str_drop_length in Hl.
  split; [done|]. split; [lia|].
  unfold substring. rewrite <- str_drop_drop, Hb.
  apply (substring_prefix p _ _ b) in H2. unfold substring in H2, H3.
  by rewrite H2.
Qed.

Lemma StronglySorted_impl {A : Type} (R R' : relation A) (l : list A) :
  StronglySorted R l →
  (∀ a b, a ∈ l → b ∈ l → R a b → R' a b) →
  StronglySorted R' l.
Proof.
  induction 1 as [|a l Hs IH Hall]; intros Himpl; constructor.
  - apply IH. intros x y Hx Hy. apply Himpl; by apply elem_of_cons; right.
  - rewrite Forall_forall in *. intros x Hx. apply Himpl.
    + apply list_elem_of_here.
    + by apply elem_of_cons; right.
    + by apply Hall.
Qed.

Lemma in_source_cons (first : Z) (line : string) (lines : list string) (t : Token.t) :
  in_source (first + 1) lines t → in_source first (line :: lines) t.
Proof.
  intros (Hle & l & Hl & Hcase). split; [lia|]. exists l. split; [|done].
  replace (Z.to_nat (Token.line t - first))
    with (S (Z.to_nat (Token.line t - (first + 1)))) by lia.
  done.
Qed.

Lemma scanned_in_source (line_num : Z) (line : string) (lines : list string)
    (t : Token.t) :
  scanned_in (rstrip (str_drop 6 line)) line_num 7 t →
  in_source line_num (line :: lines) t ∧ Token.line t = line_num.
Proof.
  intros (Hline & _ & p & Hcol & Hplaced). split; [|done]. split; [lia|].
  exists line. rewrite Hline, Z.sub_diag. split; [done|]. right. split; [lia|].
  replace (Z.to_nat (Token.column t - 1)) with (6 + p)%nat by lia.
  by apply placed_content.
Qed.

(** The tokens of a run of source lines: each has the text its type asks
    for and points into the lines; they come in source order; their line
    numbers stay within the run. *)
Lemma tokenize_lines_spec (lines : list string) (line_num : Z) (tokens : list Token.t) :
  ∃ more, tokenize_lines lines line_num tokens = Ok (tokens ++ more)
          ∧ Forall lexical more
          ∧ Forall (in_source line_num lines) more
          ∧ StronglySorted before more.
Proof.
  revert line_num tokens.
  induction lines as [|line lines IH]; intros line_num tokens; cbn [tokenize_lines].
  - exists []. rewrite app_nil_r. repeat split; constructor.
  - assert (Hline : ∀ toks,
      Forall lexical toks →
      Forall (λ t, in_source line_num (line :: lines) t ∧ Token.line t = line_num) toks →
      StronglySorted column_lt toks →
      ∃ more, tokenize_lines lines (line_num + 1) (tokens ++ toks) = Ok (tokens ++ more)
              ∧ Forall lexical more
              ∧ Forall (in_source line_num (line :: lines)) more
              ∧ StronglySorted before more).
    { intros toks Hlex Hsrc Hsorted.
      destruct (IH (line_num + 1) (tokens ++ toks)) as (more & -> & Hlex' & Hsrc' & Hsorted').
      rewrite <- app_assoc. eexists. split; [done|].
      split; [by apply Forall_app|]. split.
      - apply Forall_app. split.
        + eapply Forall_impl; [exact Hsrc|]. by intros t [? _].
        + eapply Forall_impl; [exact Hsrc'|]. intros t. apply in_source_cons.
      - rewrite Forall_forall in Hsrc, Hsrc'.
        apply StronglySorted_app_2; [| |done].
        + intros a b Ha Hb. left.
          destruct (Hsrc a Ha) as [_ ->]. destruct (Hsrc' b Hb) as [? _]. lia.
        + eapply StronglySorted_impl; [exact Hsorted|].
          intros a b Ha Hb Hab. right.
          destruct (Hsrc a Ha) as [_ ->]. destruct (Hsrc b Hb) as [_ ->]. done. }
    destruct (6 <? String.length line)%nat eqn:E6.
    2:{ destruct (IH (line_num + 1) tokens) as (more & -> & Hlex & Hsrc & Hsorted).
        eexists. split; [done|]. split; [done|]. split; [|done].
        eapply Forall_impl; [exact Hsrc|]. intros t. apply in_source_cons. }
    apply Nat.ltb_lt in E6.
    destruct (str_index_ok line 6 E6) as (c & -> & Hget). bind_simpl.
    destruct (_tokenize_line_spec line_num 7 (rstrip (str_drop 6 line)))
      as (toks & Htoks & Hall & Hsorted & _).
    assert (Hscan : ∃ more,
      (line_tokens ← _tokenize_line line_num 7 (rstrip (str_drop 6 line));
       tokenize_lines lines (line_num + 1) (tokens ++ line_tokens))
      = Ok (tokens ++ more)
      ∧ Forall lexical more
      ∧ Forall (in_source line_num (line :: lines)) more
      ∧ StronglySorted before more).
    { rewrite Htoks. bind_simpl. apply Hline; [| |done].
      - eapply Forall_impl; [exact Hall|]. by intros t (_ & ? & _).
      - eapply Forall_impl; [exact Hall|]. intros t. apply scanned_in_source. }
    destruct (7 <? String.length line)%nat eqn:E7; bind_simpl; [|done].
    destruct (Ascii.eqb c "*") eqn:Ec; [|done].
    apply Ascii.eqb_eq in Ec. subst c. apply Nat.ltb_lt in E7.
    apply Hline; [by repeat constructor| |by repeat constructor].
    constructor; [|done]. split; [|done]. split; [cbn [Token.line]; lia|].
    exists line. cbn [Token.line]. rewrite Z.sub_diag. split; [done|]. by left.
Qed.

Lemma in_source_column (first : Z) (lines : list string) (t : Token.t) :
  in_source first lines t → 7 <= Token.column t.
Proof. intros (_ & l & _ & [(_ & -> & _)|[? _]]); lia. Qed.

Lemma in_source_line (first : Z) (lines : list string) (t : Token.t) :
  in_source first lines t → first <= Token.line t < first + Z.of_nat (length lines).
Proof. intros (? & l & Hl%lookup_lt_Some & _). lia. Qed.

Lemma identifier_type_division (text : string) :
  identifier_type text = DIVISION → str_in (upper text) DIVISIONS = true.
Proof.
  unfold identifier_type. destruct (str_in (upper text) DIVISIONS); [done|].
  by destruct (str_in (upper text) KEYWORDS).
Qed.

Lemma lexical_division (t : Token.t) :
  lexical t → Token.type t = DIVISION → str_in (upper (Token.value t)) DIVISIONS = true.
Proof.
  unfold lexical. intros H Hty. rewrite Hty in H. destruct H as [_ H].
  by apply identifier_type_division.
Qed.

Lemma lexical_not_section (t : Token.t) : lexical t → Token.type t ≠ SECTION.
Proof. unfold lexical. intros H Hty. by rewrite Hty in H. Qed.

(** [tokenize] on a source text. *)
Lemma tokenize_spec (source_code : string) :
  ∃ tokens, tokenize source_code = Ok tokens
            ∧ Forall lexical tokens
            ∧ Forall (in_source 1 (splitlines source_code)) tokens
            ∧ StronglySorted before tokens.
Proof. apply (tokenize_lines_spec (splitlines source_code) 1 []). Qed.

(** ** The passes of the parser, field by field *)

(** A pass over the token indices with an invariant on the index reached
    and the program built so far. *)
Lemma pass_inv (tokens : list Token.t) (I : nat → CobolProgram.t → Prop)
    (body : nat * CobolProgram.t → result (nat * CobolProgram.t))
    (program : CobolProgram.t) :
  I 0%nat program →
  (∀ i p, (i < length tokens)%nat → I i p →
          ∃ i' p', body (i, p) = Ok (i', p') ∧ (i < i')%nat ∧ I i' p') →
  ∃ r, while (S (length tokens)) (λ st, in_range tokens st.1) body (0%nat, program)
       = Ok r
       ∧ (length tokens <= r.1)%nat ∧ I r.1 r.2.
Proof.
  intros H0 Hbody.
  destruct (while_index_ok (λ s, I s.1 s.2) fst (length tokens)
    (λ st, in_range tokens st.1) body) with (s := (0%nat, program))
    as (r & Hr & HI & Hc); [|done|].
  - intros [i p] HI. cbn [fst snd] in *. eexists. split; [done|].
    intros Hc%Nat.ltb_lt. split; [done|].
    destruct (Hbody i p Hc HI) as (i' & p' & -> & Hlt & HI'). by exists (i', p').
  - exists r. split; [done|]. split; [|done].
    injection Hc as Hc%Nat.ltb_ge. done.
Qed.

Section ParserFields.
Variable tokens : list Token.t.

Ltac tok_cases i :=
  let t := fresh "t" in
  let E := fresh "E" in
  destruct (tokens !! i) as [t|] eqn:E;
  [ rewrite ?(in_range_Some tokens _ _ E), ?(tok_Some tokens _ _ E),
      ?(type_is_Some tokens _ _ _ E), ?(value_upper_Some tokens _ _ E),
      ?(value_upper_is_Some tokens _ _ _ E)
  | rewrite ?(in_range_None tokens _ E), ?(tok_None tokens _ E),
      ?(type_is_None tokens _ _ E), ?(value_upper_None tokens _ E),
      ?(value_upper_is_None tokens _ _ E) ];
  bind_simpl.

Ltac tok_at i H :=
  let t := fresh "t" in
  let E := fresh "E" in
  destruct (lookup_lt_is_Some_2 tokens i H) as [t E];
  rewrite ?(in_range_Some tokens _ _ E), ?(tok_Some tokens _ _ E),
    ?(type_is_Some tokens _ _ _ E), ?(value_upper_Some tokens _ _ E),
    ?(value_upper_is_Some tokens _ _ _ E);
  bind_simpl.

Ltac crunch := repeat (bind_simpl; progress (try case_match)); bind_simpl.

Ltac crunch_with H :=
  repeat (bind_simpl; rewrite ?H; progress (try case_match)); bind_simpl; rewrite ?H;
  bind_simpl.

(** *** Copybooks *)

Lemma copybooks_body_spec i program :
  (i < length tokens)%nat →
  ∃ program',
    copybooks_body tokens (i, program) = Ok ((i + 1)%nat, program')
    ∧ but_copybooks program' = but_copybooks program
    ∧ ∀ name, name ∈ CobolProgram.copybooks program'
              ↔ name ∈ CobolProgram.copybooks program ∨ copy_operand tokens i name.
Proof.
  intros Hi. unfold copybooks_body, copy_operand.
  destruct (lookup_lt_is_Some_2 tokens i Hi) as [t Et].
  rewrite (type_is_Some tokens _ _ _ Et), (value_upper_is_Some tokens _ _ _ Et).
  bind_simpl.
  destruct (is_type (Token.type t) KEYWORD) eqn:Ety; bind_simpl.
  2:{ eexists. split; [done|]. split; [done|]. intros name. split; [auto|].
      intros [?|(t' & n & Ht' & _ & Hty & _)]; [done|].
      rewrite Et in Ht'. injection Ht' as <-.
      apply bool_decide_eq_false in Ety. done. }
  apply bool_decide_eq_true in Ety.
  destruct (String.eqb (upper (Token.value t)) "COPY") eqn:Ev.
  2:{ eexists. split; [done|]. split; [done|]. intros name. split; [auto|].
      intros [?|(t' & n & Ht' & _ & _ & Hv & _)]; [done|].
      rewrite Et in Ht'. injection Ht' as <-.
      apply String.eqb_neq in Ev. done. }
  apply String.eqb_eq in Ev.
  destruct (tokens !! (i + 1)%nat) as [n|] eqn:En.
  2:{ rewrite (in_range_None tokens _ En). bind_simpl.
      eexists. split; [done|]. split; [done|]. intros name. split; [auto|].
      intros [?|(t' & n & _ & Hn & _)]; [done|]. congruence. }
  rewrite (in_range_Some tokens _ _ En), (tok_Some tokens _ _ En). bind_simpl.
  destruct (is_type (Token.type n) IDENTIFIER || is_type (Token.type n) LITERAL) eqn:En'.
  - rewrite (value_upper_Some tokens _ _ En). bind_simpl.
    eexists. split; [done|]. split; [done|]. intros name. simpl.
    rewrite elem_of_union, elem_of_singleton.
    apply orb_true_iff in En'. split.
    + intros [?| ->]; [auto|]. right. exists t, n.
      repeat split; try done.
      destruct En' as [H%bool_decide_eq_true|H%bool_decide_eq_true]; auto.
    + intros [?|(t' & n' & Ht' & Hn' & _ & _ & _ & ->)]; [auto|].
      right. congruence.
  - eexists. split; [done|]. split; [done|]. intros name. split; [auto|].
    intros [?|(t' & n' & _ & Hn' & _ & _ & Hty & _)]; [done|].
    injection Hn' as <-.
    apply orb_false_iff in En' as [H1%bool_decide_eq_false H2%bool_decide_eq_false].
    by destruct Hty.
Qed.

Lemma _extract_copybooks_spec program :
  ∃ program',
    _extract_copybooks tokens program = Ok program'
    ∧ but_copybooks program' = but_copybooks program
    ∧ ∀ name, name ∈ CobolProgram.copybooks program'
              ↔ name ∈ CobolProgram.copybooks program
                ∨ ∃ k, copy_operand tokens k name.
Proof.
  unfold _extract_copybooks.
  destruct (pass_inv tokens
    (λ i p, but_copybooks p = but_copybooks program
            ∧ ∀ name, name ∈ CobolProgram.copybooks p
                      ↔ name ∈ CobolProgram.copybooks program
                        ∨ ∃ k, (k < i)%nat ∧ copy_operand tokens k name)
    (copybooks_body tokens) program) as (r & -> & Hlen & Hview & Hr).
  - split; [done|]. intros name. split; [auto|]. intros [?|(k & ? & _)]; [done|lia].
  - intros i p Hi [Hview Hp].
    destruct (copybooks_body_spec i p Hi) as (p' & -> & Hview' & Hp').
    exists (i + 1)%nat, p'. split; [done|]. split; [lia|]. split; [congruence|].
    intros name. rewrite Hp', Hp. split.
    + intros [[?|(k & ? & ?)]|?]; [auto| |]; right; [exists k|exists i]; split; (done || lia).
    + intros [?|(k & Hk & Hop)]; [auto|].
      destruct (decide (k = i)) as [->|]; [auto|].
      left. right. exists k. split; [lia|done].
  - bind_simpl. eexists. split; [done|]. split; [done|].
    intros name. rewrite Hr. split.
    + intros [?|(k & _ & ?)]; eauto.
    + intros [?|(k & Hop)]; [auto|]. right. exists k. split; [|done].
      destruct Hop as (t & n & Ht%lookup_lt_Some & _). lia.
Qed.

(** *** Program calls *)

Lemma using_loop_spec i ti st :
  tokens !! i = Some ti →
  ∃ r, while (S (length tokens)) (using_cond tokens i) (using_body tokens) st = Ok r
       ∧ us_parameters r
         = us_parameters st
           ++ using_operands (Token.line ti) (using_found st) (drop (us_j st) tokens).
Proof.
  intros Hi.
  destruct (while_index_ok
    (λ s, us_parameters s
            ++ using_operands (Token.line ti) (using_found s) (drop (us_j s) tokens)
          = us_parameters st
            ++ using_operands (Token.line ti) (using_found st) (drop (us_j st) tokens))
    us_j (length tokens) (using_cond tokens i) (using_body tokens)) with (s := st)
    as (r & Hr & Hinv & Hc); [|done|].
  - intros [j found params] Hinv. unfold using_cond, using_body.
    cbn [us_j using_found us_parameters] in *.
    rewrite (tok_Some tokens _ _ Hi).
    destruct (tokens !! j) as [t|] eqn:Ej.
    2:{ rewrite (in_range_None tokens _ Ej). bind_simpl. eexists. split; [done|]. done. }
    rewrite (in_range_Some tokens _ _ Ej), (tok_Some tokens _ _ Ej),
      !(type_is_Some tokens _ _ _ Ej), (value_upper_is_Some tokens _ _ _ Ej),
      (value_upper_Some tokens _ _ Ej).
    bind_simpl. eexists. split; [done|]. intros Hline%bool_decide_eq_true.
    split; [by eapply lookup_lt_Some|].
    rewrite (drop_S _ _ _ Ej) in Hinv. cbn [using_operands] in Hinv.
    rewrite (bool_decide_eq_true_2 _ Hline) in Hinv.
    replace (j + 1)%nat with (S j) by lia.
    destruct (is_type (Token.type t) KEYWORD) eqn:Ety; bind_simpl.
    + destruct (String.eqb (upper (Token.value t)) "USING") eqn:Ev; cbn [andb] in Hinv.
      * eexists. split; [done|]. cbn [us_j using_found us_parameters]. split; [done|lia].
      * destruct found; bind_simpl.
        -- destruct (is_type (Token.type t) IDENTIFIER) eqn:Eid; cbn [andb] in Hinv.
           ++ eexists. split; [done|]. cbn [us_j using_found us_parameters].
              split; [|lia]. rewrite <- app_assoc. done.
           ++ eexists. split; [done|]. cbn [us_j using_found us_parameters]. split; [done|lia].
        -- eexists. split; [done|]. cbn [us_j using_found us_parameters]. split; [done|lia].
    + cbn [andb] in Hinv. destruct found; bind_simpl.
      * destruct (is_type (Token.type t) IDENTIFIER) eqn:Eid; cbn [andb] in Hinv.
        -- eexists. split; [done|]. cbn [us_j using_found us_parameters].
           split; [|lia]. rewrite <- app_assoc. done.
        -- eexists. split; [done|]. cbn [us_j using_found us_parameters]. split; [done|lia].
      * eexists. split; [done|]. cbn [us_j using_found us_parameters]. split; [done|lia].
  - exists r. split; [done|]. rewrite <- Hinv.
    assert (using_operands (Token.line ti) (using_found r) (drop (us_j r) tokens) = [])
      as ->; [|by rewrite app_nil_r].
    unfold using_cond in Hc. rewrite (tok_Some tokens _ _ Hi) in Hc.
    destruct (tokens !! us_j r) as [t|] eqn:Ej.
    + rewrite (in_range_Some tokens _ _ Ej), (tok_Some tokens _ _ Ej) in Hc.
      revert Hc. bind_simpl. intros [= Hc].
      rewrite (drop_S _ _ _ Ej). cbn [using_operands]. by rewrite Hc.
    + rewrite drop_ge; [done|]. by apply lookup_ge_None.
Qed.

Lemma call_eq (a b : ProgramCall.t) :
  ProgramCall.target a = ProgramCall.target b →
  ProgramCall.is_dynamic a = ProgramCall.is_dynamic b →
  ProgramCall.parameters a = ProgramCall.parameters b →
  ProgramCall.location a = ProgramCall.location b →
  a = b.
Proof. destruct a, b. simpl. by intros -> -> -> ->. Qed.

Lemma truthy_ne (s : string) : truthy s = true ↔ s ≠ "".
Proof.
  unfold truthy. rewrite negb_true_iff. split.
  - by intros H%String.eqb_neq.
  - by intros H%String.eqb_neq.
Qed.

Lemma calls_body_spec i program :
  (i < length tokens)%nat →
  ∃ program' new,
    calls_body tokens (i, program) = Ok ((i + 1)%nat, program')
    ∧ but_calls program' = but_calls program
    ∧ CobolProgram.calls program' = CobolProgram.calls program ++ new
    ∧ ∀ call, call ∈ new ↔ call_site tokens i call.
Proof.
  intros Hi. unfold calls_body.
  destruct (lookup_lt_is_Some_2 tokens i Hi) as [t Et].
  destruct (using_loop_spec i t (mk_using (i + 2) false []) Et) as (r & Hr & Hparams).
  cbn [us_parameters us_j using_found app] in Hparams.
  rewrite (type_is_Some tokens _ _ _ Et), (value_upper_is_Some tokens _ _ _ Et).
  bind_simpl.
  assert (Hnone : ∀ P : Prop, (∀ call, call_site tokens i call → P) → 
            (P → False) →
            ∃ program' new,
              Ok ((i + 1)%nat, program) = Ok ((i + 1)%nat, program')
              ∧ but_calls program' = but_calls program
              ∧ CobolProgram.calls program' = CobolProgram.calls program ++ new
              ∧ ∀ call, call ∈ new ↔ call_site tokens i call).
  { intros P HP HnP. exists program, []. split; [done|]. split; [done|].
    split; [by rewrite app_nil_r|]. intros call. split; [by intros ?%elem_of_nil|].
    intros Hs. destruct HnP. by eapply HP. }
  destruct (is_type (Token.type t) KEYWORD) eqn:Ety; bind_simpl.
  2:{ apply (Hnone (Token.type t = KEYWORD)).
      - intros call (t' & n & Ht' & _ & Hty & _). congruence.
      - by apply bool_decide_eq_false in Ety. }
  apply bool_decide_eq_true in Ety.
  destruct (String.eqb (upper (Token.value t)) "CALL") eqn:Ev.
  2:{ apply (Hnone (upper (Token.value t) = "CALL")).
      - intros call (t' & n & Ht' & _ & _ & Hv & _). congruence.
      - by apply String.eqb_neq in Ev. }
  apply String.eqb_eq in Ev. rewrite (tok_Some tokens _ _ Et). bind_simpl.
  destruct (tokens !! (i + 1)%nat) as [n|] eqn:En.
  2:{ rewrite (in_range_None tokens _ En). bind_simpl. rewrite Hr. bind_simpl.
      apply (Hnone False); [|done].
      intros call (t' & n & _ & Hn & _). congruence. }
  rewrite (in_range_Some tokens _ _ En), (tok_Some tokens _ _ En). bind_simpl.
  assert (Hsome : ∀ tgt dyn,
    (∀ call, call_site tokens i call →
             ProgramCall.target call = tgt ∧ ProgramCall.is_dynamic call = dyn) →
    ((Token.type n = LITERAL ∧ tgt = Token.value n ∧ dyn = false)
     ∨ (Token.type n = IDENTIFIER ∧ tgt = upper (Token.value n) ∧ dyn = true)) →
    ∃ program' new,
      (if truthy tgt
       then Ok ((i + 1)%nat,
                CobolProgram.set_calls program
                  (CobolProgram.calls program
                   ++ [ProgramCall.mk tgt dyn (us_parameters r)
                         (Token.line t, Token.column t)]))
       else Ok ((i + 1)%nat, program)) = Ok ((i + 1)%nat, program')
      ∧ but_calls program' = but_calls program
      ∧ CobolProgram.calls program' = CobolProgram.calls program ++ new
      ∧ ∀ call, call ∈ new ↔ call_site tokens i call).
  { intros tgt dyn Hdet Hkind. destruct (truthy tgt) eqn:Etgt.
    - eexists _, [_]. split; [done|]. split; [done|]. split; [done|].
      apply truthy_ne in Etgt. intros call. rewrite list_elem_of_singleton. split.
      + intros ->. exists t, n. simpl. rewrite Hparams.
        repeat split; try done;
          destruct Hkind as [(? & -> & ->)|(? & -> & ->)]; auto.
      + intros Hs. destruct (Hdet call Hs) as [Ht Hd].
        destruct Hs as (t' & n' & Ht' & _ & _ & _ & _ & _ & Hp & Hl).
        assert (t' = t) as -> by congruence.
        apply call_eq; simpl; congruence.
    - apply (Hnone (tgt ≠ "")).
      + intros call Hs. destruct (Hdet call Hs) as [<- _].
        by destruct Hs as (_ & _ & _ & _ & _ & _ & _ & ? & _).
      + intros Hne%truthy_ne. congruence. }
  destruct (is_type (Token.type n) LITERAL) eqn:Elit; bind_simpl.
  { rewrite Hr. bind_simpl. apply bool_decide_eq_true in Elit.
    apply Hsome; [|auto].
    intros call (t' & n' & _ & Hn' & _ & _ & Hk & _).
    assert (n' = n) as -> by congruence.
    destruct Hk as [(_ & ? & ?)|(? & _)]; [done|congruence]. }
  apply bool_decide_eq_false in Elit.
  destruct (is_type (Token.type n) IDENTIFIER) eqn:Eid; bind_simpl.
  { rewrite Hr. bind_simpl. apply bool_decide_eq_true in Eid.
    apply Hsome; [|auto].
    intros call (t' & n' & _ & Hn' & _ & _ & Hk & _).
    assert (n' = n) as -> by congruence.
    destruct Hk as [(? & _)|(_ & ? & ?)]; [congruence|done]. }
  apply bool_decide_eq_false in Eid.
  rewrite Hr. bind_simpl.
  apply (Hnone False); [|done].
  intros call (t' & n' & _ & Hn' & _ & _ & Hk & _).
  assert (n' = n) as -> by congruence.
  destruct Hk as [(? & _)|(? & _)]; done.
Qed.

Lemma _extract_program_calls_spec program :
  ∃ program' new,
    _extract_program_calls tokens program = Ok program'
    ∧ but_calls program' = but_calls program
    ∧ CobolProgram.calls program' = CobolProgram.calls program ++ new
    ∧ ∀ call, call ∈ new ↔ ∃ k, call_site tokens k call.
Proof.
  unfold _extract_program_calls.
  destruct (pass_inv tokens
    (λ i p, but_calls p = but_calls program
            ∧ ∃ new, CobolProgram.calls p = CobolProgram.calls program ++ new
                     ∧ ∀ call, call ∈ new
                               ↔ ∃ k, (k < i)%nat ∧ call_site tokens k call)
    (calls_body tokens) program) as (r & -> & Hlen & Hview & new & Hnew & Hr).
  - split; [done|]. exists []. split; [by rewrite app_nil_r|].
    intros call. split; [by intros ?%elem_of_nil|]. intros (k & ? & _). lia.
  - intros i p Hi (Hview & new & Hnew & Hp).
    destruct (calls_body_spec i p Hi) as (p' & more & -> & Hview' & Hmore & Hp').
    exists (i + 1)%nat, p'. split; [done|]. split; [lia|]. split; [congruence|].
    exists (new ++ more). split; [by rewrite Hmore, Hnew, app_assoc|].
    intros call. rewrite elem_of_app, Hp', Hp. split.
    + intros [(k & ? & ?)|?]; [exists k|exists i]; split; (done || lia).
    + intros (k & Hk & Hs). destruct (decide (k = i)) as [->|]; [auto|].
      left. exists k. split; [lia|done].
  - bind_simpl. exists r.2, new. split; [done|]. split; [done|]. split; [done|].
    intros call. rewrite Hr. split.
    + intros (k & _ & ?). eauto.
    + intros (k & Hs). exists k. split; [|done].
      destruct Hs as (t & n & Ht%lookup_lt_Some & _). lia.
Qed.

(** *** Resources *)

Lemma scanned_sublanguage_elem (ty : string) :
  scanned_sublanguage ty = true → ty ∈ ["SQL"; "CICS"; "MQ"].
Proof.
  unfold scanned_sublanguage, str_in. intros (x & Hin%list_elem_of_In & <-%String.eqb_eq)%existsb_exists.
  done.
Qed.

Lemma resources_body_spec i program :
  (i < length tokens)%nat →
  ∃ i' program' new,
    resources_body tokens (i, program) = Ok (i', program')
    ∧ (i < i')%nat
    ∧ but_resources program' = but_resources program
    ∧ CobolProgram.resources program' = CobolProgram.resources program ++ new
    ∧ Forall (exec_resource tokens) new.
Proof.
  intros Hi. destruct (lookup_lt_is_Some_2 tokens i Hi) as [t Ht].
  assert (Hskip : ∀ st', resources_body tokens (i, program) = Ok st' →
            st' = ((i + 1)%nat, program) →
            ∃ i' program' new,
              resources_body tokens (i, program) = Ok (i', program')
              ∧ (i < i')%nat
              ∧ but_resources program' = but_resources program
              ∧ CobolProgram.resources program' = CobolProgram.resources program ++ new
              ∧ Forall (exec_resource tokens) new).
  { intros st' -> [= ->]. exists (i + 1)%nat, program, [].
    split; [done|]. split; [lia|]. split; [done|]. by rewrite app_nil_r. }
  destruct (is_type (Token.type t) KEYWORD
            && String.eqb (upper (Token.value t)) "EXEC") eqn:Eexec.
  - apply andb_true_iff in Eexec as [Hty%bool_decide_eq_true Hv%String.eqb_eq].
    destruct (tokens !! (i + 1)%nat) as [n|] eqn:En.
    + destruct (resources_body_exec tokens i program t n Ht Hty Hv En)
        as (blk & i' & -> & Hle & _ & Hblk).
      unfold with_resource.
      destruct (truthy (upper (Token.value n)) && truthy_opt (operation blk)) eqn:Eadd.
      * eexists _, _, [_]. split; [done|]. split; [lia|]. split; [done|].
        split; [done|]. constructor; [|done].
        apply andb_true_iff in Eadd as [_ Hop].
        destruct (operation blk) as [o|] eqn:Eo; [|done]. cbn [truthy_opt] in Hop.
        destruct (scanned_sublanguage (upper (Token.value n))) eqn:Esub; [|done].
        destruct Hblk as (_ & _ & Hfirst). cbn [or_else] in Hfirst.
        unfold exec_resource. cbn [Resource.type Resource.operation Resource.name
          Resource.location default].
        split; [by apply scanned_sublanguage_elem|].
        split; [by apply truthy_ne|]. split.
        { destruct (resource_name blk) as [v|]; cbn [truthy_opt default]; [|done].
          destruct (truthy v) eqn:Ev; [by apply truthy_ne|done]. }
        exists i, t, n. by rewrite <- Hfirst.
      * exists (i' + 1)%nat, program, []. split; [done|]. split; [lia|].
        split; [done|]. by rewrite app_nil_r.
    + eapply Hskip; [|done]. unfold resources_body.
      rewrite (type_is_Some _ _ _ _ Ht), (value_upper_is_Some _ _ _ _ Ht),
        (in_range_None _ _ En).
      bind_simpl. destruct (is_type _ _); bind_simpl;
        [destruct (String.eqb _ _); bind_simpl|]; done.
  - eapply Hskip; [|done]. unfold resources_body.
    rewrite (type_is_Some _ _ _ _ Ht), (value_upper_is_Some _ _ _ _ Ht).
    bind_simpl. destruct (is_type _ _); bind_simpl;
      [destruct (String.eqb _ _); [done|]; bind_simpl|]; done.
Qed.

Lemma _extract_resources_spec program :
  ∃ program' new,
    _extract_resources tokens program = Ok program'
    ∧ but_resources program' = but_resources program
    ∧ CobolProgram.resources program' = CobolProgram.resources program ++ new
    ∧ Forall (exec_resource tokens) new.
Proof.
  unfold _extract_resources.
  destruct (pass_inv tokens
    (λ i p, but_resources p = but_resources program
            ∧ ∃ new, CobolProgram.resources p = CobolProgram.resources program ++ new
                     ∧ Forall (exec_resource tokens) new)
    (resources_body tokens) program) as (r & -> & _ & Hview & new & Hnew & Hr).
  - split; [done|]. exists []. by rewrite app_nil_r.
  - intros i p Hi (Hview & new & Hnew & Hp).
    destruct (resources_body_spec i p Hi) as (i' & p' & more & -> & Hlt & Hview' & Hmore & Hp').
    exists i', p'. split; [done|]. split; [done|]. split; [congruence|].
    exists (new ++ more). split; [by rewrite Hmore, Hnew, app_assoc|].
    by apply Forall_app.
  - bind_simpl. eauto 10.
Qed.

(** *** File references *)

Lemma select_scan_body_spec i program :
  (i < length tokens)%nat →
  ∃ program' new,
    select_scan_body tokens (i, program) = Ok ((i + 1)%nat, program')
    ∧ but_files program' = but_files program
    ∧ CobolProgram.files program' = CobolProgram.files program ++ new
    ∧ Forall (select_site tokens i) new
    ∧ ∀ f, select_site tokens i f → FileReference.name f ∈ FileReference.name <$> new.
Proof.
  intros Hi. unfold select_scan_body.
  destruct (select_loop_ok tokens (mk_select (i + 2) false "SEQUENTIAL" None None))
    as (r & Hr).
  destruct (lookup_lt_is_Some_2 tokens i Hi) as [t Et].
  assert (Hnone : ∀ P : Prop, (∀ f, select_site tokens i f → P) → (P → False) →
            ∃ program' new,
              Ok ((i + 1)%nat, program) = Ok ((i + 1)%nat, program')
              ∧ but_files program' = but_files program
              ∧ CobolProgram.files program' = CobolProgram.files program ++ new
              ∧ Forall (select_site tokens i) new
              ∧ ∀ f, select_site tokens i f
                     → FileReference.name f ∈ FileReference.name <$> new).
  { intros P HP HnP. exists program, []. split; [done|]. split; [done|].
    split; [by rewrite app_nil_r|]. split; [done|].
    intros f Hs. destruct HnP. by eapply HP. }
  rewrite (type_is_Some tokens _ _ _ Et), (value_upper_is_Some tokens _ _ _ Et).
  bind_simpl.
  destruct (is_type (Token.type t) KEYWORD) eqn:Ety; bind_simpl.
  2:{ apply (Hnone (Token.type t = KEYWORD)).
      - intros f (t' & n & Ht' & _ & Hty & _). congruence.
      - by apply bool_decide_eq_false in Ety. }
  apply bool_decide_eq_true in Ety.
  destruct (String.eqb (upper (Token.value t)) "SELECT") eqn:Ev; bind_simpl.
  2:{ apply (Hnone (upper (Token.value t) = "SELECT")).
      - intros f (t' & n & Ht' & _ & _ & Hv & _). congruence.
      - by apply String.eqb_neq in Ev. }
  apply String.eqb_eq in Ev.
  destruct (tokens !! (i + 1)%nat) as [n|] eqn:En.
  2:{ rewrite (in_range_None tokens _ En). bind_simpl.
      apply (Hnone False); [|done].
      intros f (t' & n & _ & Hn & _). congruence. }
  rewrite (in_range_Some tokens _ _ En), (type_is_Some tokens _ _ _ En). bind_simpl.
  destruct (is_type (Token.type n) IDENTIFIER) eqn:Eid; bind_simpl.
  2:{ apply (Hnone (Token.type n = IDENTIFIER)).
      - intros f (t' & n' & _ & Hn' & _ & _ & Hty & _). congruence.
      - by apply bool_decide_eq_false in Eid. }
  apply bool_decide_eq_true in Eid.
  rewrite (tok_Some tokens _ _ Et), (value_upper_Some tokens _ _ En). bind_simpl.
  rewrite Hr. bind_simpl.
  eexists _, [_]. split; [done|]. split; [done|]. split; [done|]. split.
  - constructor; [|done]. exists t, n. done.
  - intros f (t' & n' & _ & Hn' & _ & _ & _ & -> & _).
    assert (n' = n) as -> by congruence. simpl. apply list_elem_of_here.
Qed.

Lemma select_scan_spec program :
  ∃ r selected,
    while (S (length tokens)) (λ st, in_range tokens st.1) (select_scan_body tokens)
      (0%nat, program) = Ok r
    ∧ but_files r.2 = but_files program
    ∧ CobolProgram.files r.2 = CobolProgram.files program ++ selected
    ∧ Forall (λ f, ∃ k, select_site tokens k f) selected
    ∧ ∀ k f, select_site tokens k f
             → FileReference.name f ∈ FileReference.name <$> selected.
Proof.
  destruct (pass_inv tokens
    (λ i p, but_files p = but_files program
            ∧ ∃ selected,
                CobolProgram.files p = CobolProgram.files program ++ selected
                ∧ Forall (λ f, ∃ k, select_site tokens k f) selected
                ∧ ∀ k f, (k < i)%nat → select_site tokens k f
                         → FileReference.name f ∈ FileReference.name <$> selected)
    (select_scan_body tokens) program)
    as (r & Hr & Hlen & Hview & selected & Hsel & Hsound & Hcomplete).
  - split; [done|]. exists []. split; [by rewrite app_nil_r|]. split; [done|].
    intros k f Hk. lia.
  - intros i p Hi (Hview & selected & Hsel & Hsound & Hcomplete).
    destruct (select_scan_body_spec i p Hi)
      as (p' & new & -> & Hview' & Hnew & Hsound' & Hcomplete').
    exists (i + 1)%nat, p'. split; [done|]. split; [lia|]. split; [congruence|].
    exists (selected ++ new). split; [by rewrite Hnew, Hsel, app_assoc|]. split.
    + apply Forall_app. split; [done|].
      eapply Forall_impl; [exact Hsound'|]. eauto.
    + intros k f Hk Hs. rewrite fmap_app, elem_of_app.
      destruct (decide (k = i)) as [->|]; [right; by apply Hcomplete'|].
      left. apply (Hcomplete k); [lia|done].
  - exists r, selected. split; [done|]. split; [done|]. split; [done|].
    split; [done|]. intros k f Hs. apply (Hcomplete k); [|done].
    destruct Hs as (t & n & Ht%lookup_lt_Some & _). lia.
Qed.

Lemma inferred_from_refl start : inferred_from tokens start start.
Proof.
  split; [done|]. exists []. split; [by rewrite app_nil_r|].
  split; [constructor|done].
Qed.

Lemma verb_body_inferred start i j program :
  (i < length tokens)%nat → (j < length tokens)%nat →
  inferred_from tokens start program →
  ∃ program', verb_body tokens i (j, program) = Ok ((j + 1)%nat, program')
              ∧ inferred_from tokens start program'.
Proof.
  intros Hi Hj Hinf. unfold verb_body.
  destruct (lookup_lt_is_Some_2 tokens i Hi) as [ti Ei].
  destruct (lookup_lt_is_Some_2 tokens j Hj) as [t Et].
  rewrite (tok_Some tokens _ _ Et), (tok_Some tokens _ _ Ei). bind_simpl.
  destruct (is_type (Token.type t) IDENTIFIER) eqn:Ety; [|eauto].
  apply bool_decide_eq_true in Ety.
  destruct (file_exists (CobolProgram.files program) (upper (Token.value t))) eqn:Ex;
    [eauto|].
  eexists. split; [done|].
  assert (Hnot : upper (Token.value t) ∉ file_names program).
  { intros Hin%file_exists_names. congruence. }
  destruct Hinf as (Hview & inferred & Hfiles & Hnd & Hall).
  split; [done|]. eexists (inferred ++ [_]). cbn [CobolProgram.files CobolProgram.set_files].
  split; [by rewrite Hfiles, app_assoc|].
  unfold file_names in Hnot. rewrite Hfiles, fmap_app, not_elem_of_app in Hnot.
  destruct Hnot as [Hn1 Hn2]. split.
  - rewrite fmap_app. apply NoDup_app. split; [done|]. split.
    + intros x Hx [->|[]%elem_of_nil]%elem_of_cons. done.
    + apply NoDup_singleton.
  - apply Forall_app. split; [done|]. constructor; [|done].
    split; [done|]. repeat split. exists j, t. done.
Qed.

Lemma verb_scan_body_inferred start i program :
  (i < length tokens)%nat →
  inferred_from tokens start program →
  ∃ program', verb_scan_body tokens (i, program) = Ok ((i + 1)%nat, program')
              ∧ inferred_from tokens start program'.
Proof.
  intros Hi Hinf. unfold verb_scan_body.
  destruct (lookup_lt_is_Some_2 tokens i Hi) as [ti Ei].
  destruct (while_index_ok (λ s, inferred_from tokens start s.2) fst (length tokens)
    (verb_cond tokens i) (verb_body tokens i)) with (s := ((i + 1)%nat, program))
    as (r & Hr & Hinf' & _); [|done|].
  - intros [j p] Hp. cbn [fst snd] in *. unfold verb_cond. cbn [fst].
    rewrite (tok_Some tokens _ _ Ei).
    destruct (tokens !! j) as [t|] eqn:Ej.
    + rewrite (in_range_Some tokens _ _ Ej), (tok_Some tokens _ _ Ej). bind_simpl.
      eexists. split; [done|]. intros _.
      assert (Hj : (j < length tokens)%nat) by by eapply lookup_lt_Some.
      split; [done|].
      destruct (verb_body_inferred start i j p Hi Hj Hp) as (p' & -> & Hp').
      eexists. split; [done|]. cbn [fst snd]. split; [done|lia].
    + rewrite (in_range_None tokens _ Ej). bind_simpl. eexists. split; [done|]. done.
  - rewrite (type_is_Some tokens _ _ _ Ei), (value_upper_Some tokens _ _ Ei).
    bind_simpl. rewrite Hr.
    destruct (is_type (Token.type ti) KEYWORD); bind_simpl;
      [destruct (str_in _ _); bind_simpl|]; eauto.
Qed.

Lemma _extract_file_references_spec program :
  ∃ program' selected inferred,
    _extract_file_references tokens program = Ok program'
    ∧ but_files program' = but_files program
    ∧ CobolProgram.files program' = CobolProgram.files program ++ selected ++ inferred
    ∧ Forall (λ f, ∃ k, select_site tokens k f) selected
    ∧ (∀ k f, select_site tokens k f
              → FileReference.name f ∈ FileReference.name <$> selected)
    ∧ NoDup (FileReference.name <$> inferred)
    ∧ Forall (λ f, (FileReference.name f
                      ∉ FileReference.name <$> (CobolProgram.files program ++ selected))
                   ∧ inferred_file tokens f) inferred.
Proof.
  unfold _extract_file_references.
  destruct (select_scan_spec program)
    as (r1 & selected & -> & Hview1 & Hsel & Hsound & Hcomplete).
  bind_simpl.
  destruct (pass_inv tokens (λ _ p, inferred_from tokens r1.2 p)
    (verb_scan_body tokens) r1.2) as (r2 & -> & _ & Hview2 & inferred & Hinf & Hnd & Hall).
  - apply inferred_from_refl.
  - intros i p Hi Hp.
    destruct (verb_scan_body_inferred r1.2 i p Hi Hp) as (p' & -> & Hp').
    exists (i + 1)%nat, p'. split; [done|]. split; [lia|done].
  - bind_simpl. exists r2.2, selected, inferred. split; [done|].
    split; [congruence|]. split; [by rewrite Hinf, Hsel, app_assoc|].
    split; [done|]. split; [done|]. split; [done|].
    unfold file_names in Hall. by rewrite Hsel in Hall.
Qed.

(** *** Maps *)

Lemma skip_spec i :
  ∃ i', while (S (length tokens)) (not_end_exec tokens) (λ k, Ok (k + 1)%nat) i = Ok i'
        ∧ (i <= i')%nat ∧ not_end_exec tokens i' = Ok false
        ∧ ∀ k, (i <= k < i')%nat → not_end_exec tokens k = Ok true.
Proof.
  destruct (while_ok
    (λ k, (i <= k)%nat ∧ ∀ k', (i <= k' < k)%nat → not_end_exec tokens k' = Ok true)
    (λ k, length tokens - k)%nat
    (not_end_exec tokens) (λ k, Ok (k + 1)%nat))
    with (fuel := S (length tokens)) (s := i) as (i' & Hw & [Hi Hall] & Hc).
  - intros k [Hk Hall]. destruct (not_end_exec_total tokens k) as [c Hc].
    exists c. split; [done|].
    intros ->. pose proof (not_end_exec_true tokens _ Hc). eexists. split; [done|].
    split; [|lia]. split; [lia|]. intros k' Hk'.
    destruct (decide (k' = k)) as [->|]; [done|]. apply Hall. lia.
  - split; [lia|]. intros k' Hk'. lia.
  - lia.
  - eauto.
Qed.

Lemma is_map_spec j :
  tokens !! j = None
  ∨ ∃ b, ((v ← value_upper tokens j; Ok (str_in v SEND_RECEIVE))
          <&> in_range tokens (j + 1) <&> value_upper_is tokens (j + 1) "MAP"
          <&> in_range tokens (j + 2)) = Ok b.
Proof.
  destruct (tokens !! j) as [a|] eqn:Ea; [right|by left].
  rewrite (value_upper_Some tokens _ _ Ea). bind_simpl.
  destruct (str_in _ _); [|eauto].
  destruct (tokens !! (j + 1)%nat) as [b|] eqn:Eb.
  2:{ rewrite (in_range_None tokens _ Eb). bind_simpl. eauto. }
  rewrite (in_range_Some tokens _ _ Eb), (value_upper_is_Some tokens _ _ _ Eb).
  bind_simpl. destruct (String.eqb _ _); [|eauto]. unfold in_range. eauto.
Qed.

Lemma is_map_true j :
  ((v ← value_upper tokens j; Ok (str_in v SEND_RECEIVE))
   <&> in_range tokens (j + 1) <&> value_upper_is tokens (j + 1) "MAP"
   <&> in_range tokens (j + 2)) = Ok true
  ↔ ∃ m, map_operand tokens j m.
Proof.
  split.
  - destruct (tokens !! j) as [a|] eqn:Ea.
    2:{ by rewrite (value_upper_None tokens _ Ea). }
    rewrite (value_upper_Some tokens _ _ Ea). bind_simpl.
    destruct (str_in _ _) eqn:Esr; [|done].
    destruct (tokens !! (j + 1)%nat) as [b|] eqn:Eb.
    2:{ by rewrite (in_range_None tokens _ Eb). }
    rewrite (in_range_Some tokens _ _ Eb), (value_upper_is_Some tokens _ _ _ Eb).
    bind_simpl. destruct (String.eqb _ _) eqn:Emap; [|done].
    apply String.eqb_eq in Emap.
    destruct (tokens !! (j + 2)%nat) as [c|] eqn:Ec.
    2:{ by rewrite (in_range_None tokens _ Ec). }
    intros _. exists (upper (Token.value c)), a, b, c. done.
  - intros (m & a & b & c & Ea & Eb & Ec & Hsr & Hmap & _).
    rewrite (value_upper_Some tokens _ _ Ea), (in_range_Some tokens _ _ Eb),
      (value_upper_is_Some tokens _ _ _ Eb), (in_range_Some tokens _ _ Ec).
    bind_simpl. rewrite Hsr, Hmap. done.
Qed.

Lemma map_operand_name j m c :
  map_operand tokens j m → tokens !! (j + 2)%nat = Some c → m = upper (Token.value c).
Proof. intros (a & b & c' & _ & _ & Ec & _ & _ & ->) Hc. congruence. Qed.

Lemma cics_body_spec st :
  (cics_j st < length tokens)%nat →
  ∃ st', cics_body tokens st = Ok st'
         ∧ cics_j st' = (cics_j st + 1)%nat
         ∧ (∀ m, m ∈ cics_maps st' ↔ m ∈ cics_maps st ∨ map_operand tokens (cics_j st) m)
         ∧ (map_found st' = true
            ↔ map_found st = true ∨ ∃ m, map_operand tokens (cics_j st) m).
Proof.
  intros Hj. unfold cics_body.
  destruct (is_map_spec (cics_j st)) as [Hnone|[b Hb]].
  { apply lookup_ge_None in Hnone. lia. }
  rewrite Hb. bind_simpl. destruct b.
  - pose proof (proj1 (is_map_true _) Hb) as (m0 & Hm0).
    pose proof Hm0 as (a & b & c & _ & _ & Ec & _).
    rewrite (value_upper_Some tokens _ _ Ec). bind_simpl.
    eexists. split; [done|]. cbn [cics_j cics_maps map_found]. split; [done|]. split.
    + intros m. rewrite elem_of_union, elem_of_singleton. split.
      * intros [?| ->]; [auto|]. right. by rewrite <- (map_operand_name _ _ _ Hm0 Ec).
      * intros [?|Hm]; [auto|]. right. by eapply map_operand_name.
    + split; [eauto|done].
  - eexists. split; [done|]. cbn [cics_j cics_maps map_found]. split; [done|].
    assert (Hno : ∀ m, ¬ map_operand tokens (cics_j st) m).
    { intros m Hm. assert (Ok false = Ok true) as [=].
      rewrite <- Hb. apply is_map_true. eauto. }
    split.
    + intros m. split; [auto|]. intros [?|?%Hno]; done.
    + split; [auto|]. intros [?|[m ?%Hno]]; done.
Qed.

Lemma cics_loop_spec i maps0 :
  ∃ r,
    while (S (length tokens)) (λ st, not_end_exec tokens (cics_j st))
      (cics_body tokens) (mk_cics (i + 2) false maps0) = Ok r
    ∧ (i + 2 <= cics_j r)%nat
    ∧ not_end_exec tokens (cics_j r) = Ok false
    ∧ (∀ k, (i + 2 <= k < cics_j r)%nat → not_end_exec tokens k = Ok true)
    ∧ (∀ m, m ∈ cics_maps r
            ↔ m ∈ maps0 ∨ ∃ j, (i + 2 <= j < cics_j r)%nat ∧ map_operand tokens j m)
    ∧ (map_found r = true
       ↔ ∃ j m, (i + 2 <= j < cics_j r)%nat ∧ map_operand tokens j m).
Proof.
  destruct (while_index_ok
    (λ s, (i + 2 <= cics_j s)%nat
          ∧ (∀ k, (i + 2 <= k < cics_j s)%nat → not_end_exec tokens k = Ok true)
          ∧ (∀ m, m ∈ cics_maps s
                  ↔ m ∈ maps0
                    ∨ ∃ j, (i + 2 <= j < cics_j s)%nat ∧ map_operand tokens j m)
          ∧ (map_found s = true
             ↔ ∃ j m, (i + 2 <= j < cics_j s)%nat ∧ map_operand tokens j m))
    cics_j (length tokens) (λ st, not_end_exec tokens (cics_j st)) (cics_body tokens))
    with (s := mk_cics (i + 2) false maps0) as (r & Hr & (H1 & H2 & H3 & H4) & Hc).
  - intros s (H1 & H2 & H3 & H4).
    destruct (not_end_exec_total tokens (cics_j s)) as [c Hc]. exists c. split; [done|].
    intros ->. pose proof (not_end_exec_true tokens _ Hc) as Hj. split; [done|].
    destruct (cics_body_spec s Hj) as (s' & -> & Hj' & Hmaps & Hfound).
    exists s'. split; [done|]. split; [|lia]. rewrite Hj'. split; [lia|]. split.
    { intros k Hk. destruct (decide (k = cics_j s)) as [->|]; [done|]. apply H2. lia. }
    split.
    + intros m. rewrite Hmaps, H3. split.
      * intros [[?|(j & ? & ?)]|?]; [auto| |]; right;
          [exists j|exists (cics_j s)]; split; (done || lia).
      * intros [?|(j & Hjr & Hm)]; [auto|].
        destruct (decide (j = cics_j s)) as [->|]; [auto|].
        left. right. exists j. split; [lia|done].
    + rewrite Hfound, H4. split.
      * intros [(j & m & ? & ?)|(m & ?)]; [exists j, m|exists (cics_j s), m];
          split; (done || lia).
      * intros (j & m & Hjr & Hm).
        destruct (decide (j = cics_j s)) as [->|]; [eauto|].
        left. exists j, m. split; [lia|done].
  - cbn [cics_j cics_maps map_found]. split; [lia|]. split; [intros; lia|]. split.
    + intros m. split; [auto|]. intros [?|(j & ? & _)]; [done|lia].
    + split; [done|]. intros (j & m & ? & _). lia.
  - eauto 10.
Qed.

(** A position of the block opened at [i] lies before the end of the scan,
    and the other way round. *)
Lemma block_before_stop i j stop :
  (i + 2 <= j)%nat → (j < length tokens)%nat →
  not_end_exec tokens stop = Ok false → (i + 2 <= stop)%nat →
  (∀ k, (i + 2 <= k < stop)%nat → not_end_exec tokens k = Ok true) →
  (j < stop)%nat ↔ ∀ k t, (i + 2 <= k <= j)%nat → tokens !! k = Some t
                          → is_end_exec t = false.
Proof.
  intros Hij Hj Hstop Hle Hall. split.
  - intros Hlt k t Hk Ht. specialize (Hall k ltac:(lia)).
    rewrite (not_end_exec_Some tokens _ _ Ht) in Hall.
    injection Hall as Hall. by apply negb_true_iff.
  - intros Hblock. destruct (decide (j < stop)%nat) as [|Hge]; [done|].
    destruct (lookup_lt_is_Some_2 tokens stop ltac:(lia)) as [t Ht].
    rewrite (not_end_exec_Some tokens _ _ Ht), (Hblock stop t ltac:(lia) Ht) in Hstop.
    discriminate.
Qed.

Lemma map_operand_lt j m : map_operand tokens j m → (j + 2 < length tokens)%nat.
Proof. intros (a & b & c & _ & _ & Ec%lookup_lt_Some & _). done. Qed.

Lemma send_receive_values (v : string) :
  str_in v SEND_RECEIVE = true → v = "SEND" ∨ v = "RECEIVE".
Proof.
  unfold str_in, SEND_RECEIVE. cbn [existsb]. rewrite !orb_true_iff.
  intros [?%String.eqb_eq|[?%String.eqb_eq|?]]; auto. done.
Qed.

(** The token an anchor of [map_from] stands on reads SEND, RECEIVE or
    EXEC. *)
Lemma map_from_anchor a m :
  map_from tokens a m →
  ∃ t, tokens !! a = Some t
       ∧ (upper (Token.value t) = "SEND" ∨ upper (Token.value t) = "RECEIVE"
          ∨ upper (Token.value t) = "EXEC").
Proof.
  intros [[(t & _ & _ & Ht & _ & _ & Hsr%send_receive_values & _) _]
         |(j & ((t & n & Ht & _ & _ & Hv & _) & _) & _)];
    exists t; (split; [done|]); tauto.
Qed.

Lemma is_bare_spec i t :
  tokens !! i = Some t →
  ∃ b, (type_is tokens i KEYWORD
        <&> (v ← value_upper tokens i; Ok (str_in v SEND_RECEIVE))
        <&> in_range tokens (i + 1) <&> type_is tokens (i + 1) KEYWORD
        <&> value_upper_is tokens (i + 1) "MAP" <&> in_range tokens (i + 2)) = Ok b
       ∧ (b = true ↔ ∃ m, map_operand tokens i m ∧ keyword_pair tokens i).
Proof.
  intros Et.
  rewrite (type_is_Some tokens _ _ _ Et), (value_upper_Some tokens _ _ Et).
  bind_simpl.
  destruct (is_type (Token.type t) KEYWORD) eqn:Ety.
  2:{ exists false. split; [done|]. split; [done|].
      intros (m & _ & a & b & Ha & _ & Hty & _).
      apply bool_decide_eq_false in Ety. congruence. }
  apply bool_decide_eq_true in Ety.
  destruct (str_in (upper (Token.value t)) SEND_RECEIVE) eqn:Esr.
  2:{ exists false. split; [done|]. split; [done|].
      intros (m & (a & _ & _ & Ha & _ & _ & Hsr & _) & _). congruence. }
  destruct (tokens !! (i + 1)%nat) as [n|] eqn:En.
  2:{ rewrite (in_range_None tokens _ En). bind_simpl.
      exists false. split; [done|]. split; [done|].
      intros (m & (a & b & _ & _ & Hb & _) & _). congruence. }
  rewrite (in_range_Some tokens _ _ En), (type_is_Some tokens _ _ _ En),
    (value_upper_is_Some tokens _ _ _ En).
  bind_simpl.
  destruct (is_type (Token.type n) KEYWORD) eqn:Etyn.
  2:{ exists false. split; [done|]. split; [done|].
      intros (m & _ & a & b & _ & Hb & _ & Hty).
      apply bool_decide_eq_false in Etyn. congruence. }
  apply bool_decide_eq_true in Etyn.
  destruct (String.eqb (upper (Token.value n)) "MAP") eqn:Emap.
  2:{ exists false. split; [done|]. split; [done|].
      intros (m & (a & b & _ & _ & Hb & _ & _ & Hmap & _) & _).
      apply String.eqb_neq in Emap. congruence. }
  apply String.eqb_eq in Emap.
  destruct (tokens !! (i + 2)%nat) as [c|] eqn:Ec.
  2:{ rewrite (in_range_None tokens _ Ec).
      exists false. split; [done|]. split; [done|].
      intros (m & (a & b & c & _ & _ & Hc & _) & _). congruence. }
  rewrite (in_range_Some tokens _ _ Ec). exists true. split; [done|].
  split; [|done]. intros _. exists (upper (Token.value c)).
  split; [exists t, n, c|exists t, n]; done.
Qed.

Lemma is_cics_spec i t :
  tokens !! i = Some t →
  ∃ b, (type_is tokens i KEYWORD <&> value_upper_is tokens i "EXEC"
        <&> in_range tokens (i + 1) <&> value_upper_is tokens (i + 1) "CICS") = Ok b
       ∧ (b = true ↔ ∃ n, tokens !! (i + 1)%nat = Some n ∧ Token.type t = KEYWORD
                          ∧ upper (Token.value t) = "EXEC"
                          ∧ upper (Token.value n) = "CICS").
Proof.
  intros Et.
  rewrite (type_is_Some tokens _ _ _ Et), (value_upper_is_Some tokens _ _ _ Et).
  bind_simpl.
  destruct (is_type (Token.type t) KEYWORD) eqn:Ety.
  2:{ exists false. split; [done|]. split; [done|]. intros (n & _ & Hty & _).
      apply bool_decide_eq_false in Ety. congruence. }
  apply bool_decide_eq_true in Ety.
  destruct (String.eqb (upper (Token.value t)) "EXEC") eqn:Ev.
  2:{ exists false. split; [done|]. split; [done|]. intros (n & _ & _ & Hv & _).
      apply String.eqb_neq in Ev. congruence. }
  apply String.eqb_eq in Ev.
  destruct (tokens !! (i + 1)%nat) as [n|] eqn:En.
  2:{ rewrite (in_range_None tokens _ En). bind_simpl.
      exists false. split; [done|]. split; [done|]. by intros (n & ? & _). }
  rewrite (in_range_Some tokens _ _ En), (value_upper_is_Some tokens _ _ _ En).
  bind_simpl. eexists. split; [done|]. rewrite String.eqb_eq. split.
  - intros Hv. exists n. done.
  - intros (n' & [= <-] & _ & _ & Hv). done.
Qed.

Lemma maps_body_spec i program :
  (i < length tokens)%nat →
  ∃ i' program',
    maps_body tokens (i, program) = Ok (i', program')
    ∧ (i < i')%nat
    ∧ but_maps program' = but_maps program
    ∧ (∀ m, m ∈ CobolProgram.maps_used program'
            → m ∈ CobolProgram.maps_used program ∨ map_from tokens i m)
    ∧ CobolProgram.maps_used program ⊆ CobolProgram.maps_used program'
    ∧ ∀ a m, (i <= a < i')%nat → map_from tokens a m
             → m ∈ CobolProgram.maps_used program'.
Proof.
  intros Hi. unfold maps_body.
  destruct (lookup_lt_is_Some_2 tokens i Hi) as [t Et].
  destruct (is_bare_spec i t Et) as (bare & Hb & Hbare). rewrite Hb. clear Hb.
  destruct (is_cics_spec i t Et) as (cics & Hc & Hcics). rewrite Hc. clear Hc.
  bind_simpl. destruct bare.
  { pose proof (proj1 Hbare eq_refl) as (m0 & Hm0 & Hpair).
    pose proof Hm0 as (a & b & c & _ & _ & Ec & _).
    rewrite (value_upper_Some tokens _ _ Ec). bind_simpl.
    exists (i + 1)%nat. eexists. split; [done|]. split; [lia|]. split; [done|].
    cbn [CobolProgram.maps_used CobolProgram.set_maps_used].
    pose proof (map_operand_name _ _ _ Hm0 Ec) as ->.
    split; [|split].
    - intros m [?| ->%elem_of_singleton]%elem_of_union; [auto|]. right. by left.
    - set_solver.
    - intros a' m Ha' Hfrom. assert (a' = i) as -> by lia.
      destruct Hfrom as [[Hm _]|(j & ((t' & n' & Ht' & _ & _ & Hv & _) & _) & _)].
      + rewrite (map_operand_name _ _ _ Hm Ec). set_solver.
      + destruct Hm0 as (a0 & _ & _ & Ha0 & _ & _ & Hsr%send_receive_values & _).
        assert (a0 = t') as -> by congruence. rewrite Hv in Hsr.
        by destruct Hsr. }
  assert (Hnobare : ∀ m, ¬ (map_operand tokens i m ∧ keyword_pair tokens i)).
  { intros m Hm. assert (false = true) as [=]. apply Hbare. eauto. }
  destruct cics.
  2:{ exists (i + 1)%nat, program. split; [done|]. split; [lia|]. split; [done|].
      split; [auto|]. split; [done|].
      intros a m Ha Hfrom. assert (a = i) as -> by lia.
      destruct Hfrom as [Hb|(j & ((t' & n' & Ht' & Hn' & Hty & Hv & Hc) & _) & _)].
      - by apply Hnobare in Hb.
      - assert (t' = t) as -> by congruence.
        assert (false = true) as [=]. apply Hcics. eauto. }
  pose proof (proj1 Hcics eq_refl) as (n & En & Hty & Hv & Hn).
  destruct (cics_loop_spec i (CobolProgram.maps_used program))
    as (r & -> & Hle & Hstop & Hrun & Hmaps & Hfound).
  bind_simpl.
  assert (Hblock : ∀ j m, map_operand tokens j m →
            (cics_block tokens i j ↔ (i + 2 <= j < cics_j r)%nat)).
  { intros j m Hm%map_operand_lt. split.
    - intros (_ & Hij & Hb). split; [done|].
      apply (block_before_stop i j (cics_j r)); (done || lia).
    - intros [Hij Hlt]. split; [exists t, n; done|]. split; [done|].
      apply (block_before_stop i j (cics_j r)); (done || lia). }
  assert (Hhere : ∀ m, map_from tokens i m → m ∈ cics_maps r).
  { intros m [Hb|(j & Hcb & Hm)]; [by apply Hnobare in Hb|].
    apply Hmaps. right. exists j. split; [|done]. by eapply Hblock. }
  assert (Hsound : ∀ m, m ∈ cics_maps r →
            m ∈ CobolProgram.maps_used program ∨ map_from tokens i m).
  { intros m [?|(j & Hj & Hm)]%Hmaps; [auto|]. right. right. exists j.
    split; [|done]. by eapply Hblock. }
  assert (Hmono : CobolProgram.maps_used program ⊆ cics_maps r).
  { intros m Hm. apply Hmaps. auto. }
  destruct (map_found r) eqn:Efound.
  2:{ exists (i + 1)%nat. eexists. split; [done|]. split; [lia|]. split; [done|].
      cbn [CobolProgram.maps_used CobolProgram.set_maps_used].
      split; [done|]. split; [done|].
      intros a m Ha Hfrom. assert (a = i) as -> by lia. by apply Hhere. }
  destruct (skip_spec i) as (i' & -> & Hi' & Hend & Hskip). bind_simpl.
  exists (i' + 1)%nat. eexists. split; [done|]. split; [lia|]. split; [done|].
  cbn [CobolProgram.maps_used CobolProgram.set_maps_used].
  split; [done|]. split; [done|].
  (* the scan of the block and the skip stop at the same token *)
  assert (Hsame : i' = cics_j r).
  { assert (Hi1 : not_end_exec tokens i = Ok true).
    { rewrite (not_end_exec_Some tokens _ _ Et). unfold is_end_exec. by rewrite Hv. }
    assert (Hi2 : not_end_exec tokens (i + 1) = Ok true).
    { rewrite (not_end_exec_Some tokens _ _ En). unfold is_end_exec. by rewrite Hn. }
    destruct (decide (i' < cics_j r)%nat) as [Hlt|Hge].
    - destruct (decide (i' = i)) as [->|]; [congruence|].
      destruct (decide (i' = i + 1)%nat) as [->|]; [congruence|].
      rewrite (Hrun i') in Hend; [done|lia].
    - destruct (decide (cics_j r < i')%nat) as [Hlt|]; [|lia].
      rewrite (Hskip (cics_j r)) in Hstop; [done|lia]. }
  subst i'.
  intros a m Ha Hfrom.
  destruct (decide (a = i)) as [->|Hne]; [by apply Hhere|].
  destruct (map_from_anchor a m Hfrom) as (ta & Hta & Hva).
  assert (Ha1 : a ≠ (i + 1)%nat).
  { intros ->. assert (ta = n) as -> by congruence. rewrite Hn in Hva.
    by destruct Hva as [|[|]]. }
  assert (Ha2 : a ≠ cics_j r).
  { intros ->. rewrite (not_end_exec_Some tokens _ _ Hta) in Hstop.
    unfold is_end_exec in Hstop.
    destruct Hva as [Hva|[Hva|Hva]]; by rewrite Hva in Hstop. }
  apply Hmaps. right.
  destruct Hfrom as [[Hm _]|(j & Hcb & Hm)].
  - exists a. split; [lia|done].
  - exists j. split; [|done].
    destruct Hcb as ((_ & na & _ & Hna & _ & _ & Hvna) & Haj & Hb).
    split; [lia|].
    destruct (decide (j < cics_j r)%nat) as [|Hge]; [done|].
    pose proof (map_operand_lt _ _ Hm) as Hj.
    destruct (lookup_lt_is_Some_2 tokens (cics_j r) ltac:(lia)) as [ts Hts].
    assert (cics_j r ≠ (a + 1)%nat).
    { intros Heq. rewrite Heq in Hts. assert (ts = na) as -> by congruence.
      rewrite Heq, (not_end_exec_Some tokens _ _ Hna) in Hstop.
      unfold is_end_exec in Hstop. by rewrite Hvna in Hstop. }
    rewrite (not_end_exec_Some tokens _ _ Hts), (Hb (cics_j r) ts ltac:(lia) Hts) in Hstop.
    discriminate.
Qed.

Lemma _extract_maps_spec program :
  ∃ program',
    _extract_maps tokens program = Ok program'
    ∧ but_maps program' = but_maps program
    ∧ ∀ m, m ∈ CobolProgram.maps_used program'
           ↔ m ∈ CobolProgram.maps_used program ∨ ∃ a, map_from tokens a m.
Proof.
  unfold _extract_maps.
  destruct (pass_inv tokens
    (λ i p, but_maps p = but_maps program
            ∧ CobolProgram.maps_used program ⊆ CobolProgram.maps_used p
            ∧ (∀ m, m ∈ CobolProgram.maps_used p
                    → m ∈ CobolProgram.maps_used program ∨ ∃ a, map_from tokens a m)
            ∧ ∀ a m, (a < i)%nat → map_from tokens a m
                     → m ∈ CobolProgram.maps_used p)
    (maps_body tokens) program) as (r & -> & Hlen & Hview & Hmono & Hsound & Hcomplete).
  - split; [done|]. split; [done|]. split; [auto|]. intros a m Ha. lia.
  - intros i p Hi (Hview & Hmono & Hsound & Hcomplete).
    destruct (maps_body_spec i p Hi)
      as (i' & p' & -> & Hlt & Hview' & Hsound' & Hmono' & Hcomplete').
    exists i', p'. split; [done|]. split; [done|]. split; [congruence|].
    split; [set_solver|]. split.
    + intros m [Hm|Hm]%Hsound'; [by apply Hsound|eauto].
    + intros a m Ha Hfrom. destruct (decide (a < i)%nat) as [Hlt'|Hge].
      * apply Hmono', (Hcomplete a); done.
      * apply (Hcomplete' a); [lia|done].
  - bind_simpl. exists r.2. split; [done|]. split; [done|]. intros m. split.
    + apply Hsound.
    + intros [?|(a & Hfrom)]; [by apply Hmono|]. apply (Hcomplete a); [|done].
      destruct (map_from_anchor a m Hfrom) as (t & Ht%lookup_lt_Some & _). lia.
Qed.

(** *** Divisions and data items *)

Ltac guard_false :=
  match goal with
  | H : _ && false = true |- _ => by rewrite andb_false_r in H
  end.

Lemma clause_loop_spec token st :
  ∃ r, while (S (length tokens)) (clause_cond tokens token) (clause_body tokens) st
       = Ok r
       ∧ DataItem.name r.2 = DataItem.name st.2
       ∧ DataItem.level r.2 = DataItem.level st.2
       ∧ DataItem.location r.2 = DataItem.location st.2.
Proof.
  destruct (while_index_ok
    (λ s, DataItem.name s.2 = DataItem.name st.2
          ∧ DataItem.level s.2 = DataItem.level st.2
          ∧ DataItem.location s.2 = DataItem.location st.2)
    fst (length tokens)
    (clause_cond tokens token) (clause_body tokens)) with (s := st)
    as (r & -> & Hinv & _); [|done|eauto].
  intros [j d] (H1 & H2 & H3). unfold clause_cond, clause_body. cbn [fst snd] in *.
  tok_cases j; [|eexists; split; [done|]; done].
  eexists. split; [done|]. intros _. split; [by eapply lookup_lt_Some|].
  tok_cases (j + 1)%nat; crunch; try guard_false;
    eexists; (split; [reflexivity|]); (split; [done|]); simpl; lia.
Qed.

Lemma open_division_unique i a b :
  open_division tokens i a → open_division tokens i b → a = b.
Proof.
  intros (j & t & Hj & Ht & Hty & <- & Hlast) (j' & t' & Hj' & Ht' & Hty' & <- & Hlast').
  destruct (decide (j = j')) as [->|Hne]; [congruence|].
  destruct (decide (j < j')%nat).
  - destruct (Hlast j' t'); (done || lia).
  - destruct (Hlast' j t); (done || lia).
Qed.

Lemma open_division_step i t name :
  tokens !! i = Some t → Token.type t ≠ DIVISION →
  open_division tokens i name → open_division tokens (i + 1) name.
Proof.
  intros Ht Hty (j & tj & Hj & Htj & Htyj & Hv & Hlast).
  exists j, tj. split; [lia|]. repeat split; try done.
  intros k t' Hk Ht'. destruct (decide (k = i)) as [->|]; [congruence|].
  apply (Hlast k); (done || lia).
Qed.

Lemma open_division_here i t :
  tokens !! i = Some t → Token.type t = DIVISION →
  open_division tokens (i + 1) (upper (Token.value t)).
Proof.
  intros Ht Hty. exists i, t. split; [lia|]. repeat split; try done. intros; lia.
Qed.

Lemma division_named_eq div n :
  division_named div n = true ↔ ∃ d, div = Some d ∧ Division.name d = n.
Proof.
  destruct div as [d|]; simpl.
  - rewrite String.eqb_eq. split; [eauto|]. by intros (? & [= <-] & ?).
  - split; [done|]. by intros (? & ? & _).
Qed.

(** One round of the scope pass on a token whose type is neither Division
    nor Section, with no section open: a data item is entered when the DATA
    division is open, the token is a Number that reads a level and an
    Identifier follows; nothing else changes. *)
Lemma _parse_divisions_body_plain i div par program t st' :
  tokens !! i = Some t →
  Token.type t ≠ DIVISION → Token.type t ≠ SECTION →
  _parse_divisions_body tokens (mk_scope i div None par program) = Ok st' →
  (st' = mk_scope (i + 1) div None par program
   ∧ ¬ (division_named div "DATA" = true
        ∧ ∃ n level, tokens !! (i + 1)%nat = Some n ∧ Token.type t = NUMBER
                     ∧ Token.type n = IDENTIFIER ∧ int (Token.value t) = Some level))
  ∨ ∃ n item,
      st' = mk_scope (i + 1) div None par
              (CobolProgram.set_data_items program
                 (<[upper (Token.value n) := item]> (CobolProgram.data_items program)))
      ∧ division_named div "DATA" = true
      ∧ tokens !! (i + 1)%nat = Some n
      ∧ Token.type t = NUMBER ∧ Token.type n = IDENTIFIER
      ∧ DataItem.name item = upper (Token.value n)
      ∧ int (Token.value t) = Some (DataItem.level item)
      ∧ DataItem.location item = (Token.line t, Token.column t).
Proof.
  intros Ht Hdiv Hsec. unfold _parse_divisions_body.
  cbn [sc_i current_division current_section current_paragraph sc_program].
  cbv zeta. rewrite (tok_Some tokens _ _ Ht). bind_simpl.
  unfold is_type at 1 2.
  rewrite (bool_decide_eq_false_2 _ Hdiv), (bool_decide_eq_false_2 _ Hsec).
  destruct (is_type (Token.type t) IDENTIFIER
            && division_named div "PROCEDURE") eqn:Epar.
  - apply andb_true_iff in Epar as [Hid%bool_decide_eq_true _].
    assert (Hnum : is_type (Token.type t) NUMBER = false).
    { apply bool_decide_eq_false_2. rewrite Hid. done. }
    rewrite Hnum, andb_false_r.
    match goal with
    | |- (?X ≫= _) = _ → _ => destruct X as [[]| |]
    end; bind_simpl; try done.
    + intros [= <-]. left. split; [done|].
      intros (_ & n & level & _ & Hty & _). rewrite Hid in Hty. done.
    + intros [= <-]. left. split; [done|].
      intros (_ & n & level & _ & Hty & _). rewrite Hid in Hty. done.
  - destruct (division_named div "DATA" && is_type (Token.type t) NUMBER) eqn:Eitem.
    2:{ intros [= <-]. left. split; [done|].
        intros (Hd & n & level & _ & Hty & _).
        rewrite Hd, Hty in Eitem. done. }
    apply andb_true_iff in Eitem as [Hdata Hnum%bool_decide_eq_true].
    destruct (tokens !! (i + 1)%nat) as [n|] eqn:En.
    2:{ rewrite (in_range_None tokens _ En). bind_simpl.
        intros [= <-]. left. split; [done|]. by intros (_ & n & level & ? & _). }
    rewrite (in_range_Some tokens _ _ En), (type_is_Some tokens _ _ _ En). bind_simpl.
    destruct (is_type (Token.type n) IDENTIFIER) eqn:Eid.
    2:{ intros [= <-]. left. split; [done|].
        intros (_ & n' & level & [= <-] & _ & Hty & _).
        apply bool_decide_eq_false in Eid. done. }
    apply bool_decide_eq_true in Eid.
    destruct (int (Token.value t)) as [level|] eqn:Elevel.
    2:{ intros [= <-]. left. split; [done|].
        by intros (_ & n' & level & _ & _ & _ & ?). }
    rewrite (tok_Some tokens _ _ En). bind_simpl.
    match goal with
    | |- context [while ?f ?c ?b ?s] =>
        destruct (clause_loop_spec t s) as (r & -> & Hname & Hlevel & Hloc)
    end.
    bind_simpl. intros [= <-]. right. exists n, r.2.
    cbn [snd DataItem.name DataItem.level DataItem.location] in *.
    rewrite Hname, Hlevel, Hloc. done.
Qed.

Lemma _parse_divisions_body_division i div par program t :
  tokens !! i = Some t → Token.type t = DIVISION →
  _parse_divisions_body tokens (mk_scope i div None par program)
  = Ok (mk_scope (i + 1)
          (Some (Division.mk (upper (Token.value t)) (Token.line t) 0 ∅)) None None
          (end_division (Token.line t - 1) program div None par)).
Proof.
  intros Ht Hty. unfold _parse_divisions_body.
  cbn [sc_i current_division current_section current_paragraph sc_program].
  cbv zeta. rewrite (tok_Some tokens _ _ Ht). bind_simpl.
  unfold is_type at 1. by rewrite (bool_decide_eq_true_2 _ Hty).
Qed.

Lemma end_division_but_scopes e program div par :
  but_scopes (end_division e program div None par) = but_scopes program
  ∧ CobolProgram.data_items (end_division e program div None par)
    = CobolProgram.data_items program.
Proof. by destruct div. Qed.

Lemma end_division_lookup e program d par k :
  CobolProgram.divisions (end_division e program (Some d) None par) !! k
  = if decide (Division.name d = k)
    then Some (Division.mk (Division.name d) (Division.start_line d) e
                 (Division.sections d))
    else CobolProgram.divisions program !! k.
Proof.
  simpl. case_decide as Hk.
  - subst k. by rewrite lookup_insert_eq.
  - by rewrite lookup_insert_ne.
Qed.

Lemma scope_inv_step program st :
  Forall (λ t, Token.type t ≠ SECTION) tokens →
  (sc_i st < length tokens)%nat →
  scope_inv tokens program st →
  ∃ st', _parse_divisions_body tokens st = Ok st'
         ∧ (sc_i st < sc_i st')%nat ∧ scope_inv tokens program st'.
Proof.
  intros Hnosec Hi (Hsec & Hview & Hdivs & Hcur & Hnone & Hall & Hitems & Hentries).
  destruct (_parse_divisions_body_ok tokens st Hi) as (st' & Hbody & Hlt & _).
  exists st'. split; [done|]. split; [done|].
  destruct st as [i div sec par P]. cbn [sc_i current_division current_section
    sc_program] in *. subst sec.
  destruct (lookup_lt_is_Some_2 tokens i Hi) as [t Ht].
  assert (Htsec : Token.type t ≠ SECTION).
  { rewrite Forall_lookup in Hnosec. by eapply Hnosec. }
  destruct (decide (Token.type t = DIVISION)) as [Hty|Hty].
  - rewrite (_parse_divisions_body_division i div par P t Ht Hty) in Hbody.
    injection Hbody as <-. unfold scope_inv.
    cbn [sc_i current_division current_section sc_program].
    destruct (end_division_but_scopes (Token.line t - 1) P div par) as [Hv Hd].
    split; [done|]. split; [congruence|]. split.
    { intros k d. destruct div as [d0|]; [|apply Hdivs].
      rewrite end_division_lookup. case_decide as Hk; [|apply Hdivs].
      intros [= <-]. right. destruct (Hcur d0 eq_refl) as [(Hn & Hs & Hat) _].
      subst k. split; [done|]. split; [done|]. done. }
    split.
    { intros d [= <-]. cbn [Division.name]. split; [|by apply open_division_here].
      split; [done|]. split; [done|]. exists i, t. done. }
    split; [done|]. split.
    { intros j tj Hj Htj Htyj. destruct (decide (j = i)) as [->|Hne].
      - right. eexists. split; [done|]. cbn [Division.name]. congruence.
      - left. destruct (Hall j tj ltac:(lia) Htj Htyj) as [Hsome|(d & -> & Hn)].
        + destruct div as [d0|]; [|done]. rewrite end_division_lookup.
          by case_decide.
        + rewrite end_division_lookup. rewrite decide_True by done. done. }
    split; [by rewrite Hd|]. rewrite Hd.
    intros j k level location Hj Hentry.
    destruct (decide (j = i)) as [->|Hne]; [|apply (Hentries j k level location); (done || lia)].
    destruct Hentry as (t' & n & Ht' & _ & Hnum & _). 
    assert (t' = t) as -> by congruence. rewrite Hty in Hnum. done.
  - assert (Hopen : ∀ d, div = Some d → open_division tokens (i + 1) (Division.name d)).
    { intros d Hd. eapply open_division_step; [done..|]. by apply Hcur. }
    assert (Hnone' : div = None → ∀ k t', (k < i + 1)%nat → tokens !! k = Some t'
                                         → Token.type t' ≠ DIVISION).
    { intros Hd k t' Hk Ht'. destruct (decide (k = i)) as [->|]; [congruence|].
      apply (Hnone Hd k); (done || lia). }
    assert (Hall' : ∀ j tj, (j < i + 1)%nat → tokens !! j = Some tj →
              Token.type tj = DIVISION →
              is_Some (CobolProgram.divisions P !! upper (Token.value tj))
              ∨ ∃ d, div = Some d ∧ Division.name d = upper (Token.value tj)).
    { intros j tj Hj Htj Htyj. destruct (decide (j = i)) as [->|]; [congruence|].
      apply (Hall j); (done || lia). }
    assert (Hdata : ∀ k level location, data_entry tokens i k level location →
              division_named div "DATA" = true
              ∧ ∃ n, tokens !! (i + 1)%nat = Some n ∧ Token.type t = NUMBER
                     ∧ Token.type n = IDENTIFIER ∧ int (Token.value t) = Some level
                     ∧ k = upper (Token.value n)).
    { intros k level location (t' & n & Ht' & Hn & Hnum & Hid & Hk & Hint & _ & Hop).
      assert (t' = t) as -> by congruence. split; [|eauto 10].
      apply division_named_eq. destruct div as [d|].
      - exists d. split; [done|]. destruct (Hcur d eq_refl) as [_ Hop'].
        by eapply open_division_unique.
      - destruct Hop as (j & tj & Hj & Htj & Htyj & _).
        destruct (Hnone eq_refl j tj Hj Htj Htyj). }
    destruct (_parse_divisions_body_plain i div par P t st' Ht Hty Htsec Hbody)
      as [[-> Hno]|(n & item & -> & Hd & Hn & Hnum & Hid & Hname & Hlevel & Hloc)];
      unfold scope_inv; cbn [sc_i current_division current_section sc_program].
    + split; [done|]. split; [done|]. split; [done|]. split.
      { intros d Hd. split; [by apply Hcur|by apply Hopen]. }
      split; [done|]. split; [done|]. split; [done|].
      intros j k level location Hj Hentry.
      destruct (decide (j = i)) as [->|Hne]; [|apply (Hentries j k level location); (done || lia)].
      destruct Hno. destruct (Hdata _ _ _ Hentry) as (? & n & ? & ? & ? & ? & _).
      eauto 10.
    + split; [done|]. split; [done|]. split; [done|]. split.
      { intros d Hd'. split; [by apply Hcur|by apply Hopen]. }
      split; [done|]. split; [done|].
      cbn [CobolProgram.data_items CobolProgram.set_data_items]. split.
      * intros k item'. destruct (decide (upper (Token.value n) = k)) as [<-|Hne].
        -- rewrite lookup_insert_eq. intros [= <-]. right. split; [done|].
           exists i, t, n. rewrite Hloc. repeat split; try done.
           apply division_named_eq in Hd as (d & -> & <-). by apply Hcur.
        -- rewrite lookup_insert_ne by done. apply Hitems.
      * intros j k level location Hj Hentry.
        destruct (decide (upper (Token.value n) = k)) as [<-|Hne];
          [by rewrite lookup_insert_eq|].
        rewrite lookup_insert_ne by done.
        destruct (decide (j = i)) as [->|Hne']; [|apply (Hentries j k level location); (done || lia)].
        destruct (Hdata _ _ _ Hentry) as (_ & n' & Hn' & _ & _ & _ & ->).
        congruence.
Qed.

(** The scope pass on a stream without Section tokens: the divisions it
    enters are read at Division tokens, every Division token has its
    division entered; the data items it enters are read in the DATA
    division, every entry there with a level has its item entered. *)
Lemma _parse_divisions_spec program :
  Forall (λ t, Token.type t ≠ SECTION) tokens →
  ∃ program',
    _parse_divisions tokens program = Ok program'
    ∧ but_scopes program' = but_scopes program
    ∧ (∀ k d, CobolProgram.divisions program' !! k = Some d →
              CobolProgram.divisions program !! k = Some d ∨ division_at tokens k d)
    ∧ (∀ j t, tokens !! j = Some t → Token.type t = DIVISION →
              is_Some (CobolProgram.divisions program' !! upper (Token.value t)))
    ∧ (∀ k item, CobolProgram.data_items program' !! k = Some item →
                 CobolProgram.data_items program !! k = Some item
                 ∨ data_item_at tokens k item)
    ∧ ∀ j k level location, data_entry tokens j k level location →
        is_Some (CobolProgram.data_items program' !! k).
Proof.
  intros Hnosec. unfold _parse_divisions.
  destruct (while_index_ok (scope_inv tokens program) sc_i (length tokens)
    (λ st, in_range tokens (sc_i st)) (_parse_divisions_body tokens))
    with (s := mk_scope 0 None None None program)
    as (st & -> & (Hsec & Hview & Hdivs & Hcur & Hnone & Hall & Hitems & Hentries) & Hc).
  - intros s Hs. eexists. split; [done|]. intros Hc%Nat.ltb_lt. split; [done|].
    destruct (scope_inv_step program s Hnosec Hc Hs) as (s' & Hbody & Hlt & Hs').
    by exists s'.
  - unfold scope_inv. cbn [sc_i current_division current_section sc_program].
    split; [done|]. split; [done|]. split; [auto|]. split; [done|].
    split; [intros; lia|]. split; [intros; lia|]. split; [auto|]. intros; lia.
  - injection Hc as Hc%Nat.ltb_ge. bind_simpl. eexists. split; [done|].
    destruct st as [i div sec par P]. cbn [sc_i current_division current_section
      current_paragraph sc_program] in *. subst sec.
    destruct (end_division_but_scopes (last_line tokens) P div par) as [Hv Hd].
    split; [congruence|]. split; [|split; [|split]].
    + intros k d. destruct div as [d0|]; [|apply Hdivs].
      rewrite end_division_lookup. case_decide as Hk; [|apply Hdivs].
      intros [= <-]. right. destruct (Hcur d0 eq_refl) as [(Hn & Hs & Hat) _].
      subst k. split; [done|]. split; [done|]. done.
    + intros j t Ht Hty.
      destruct (Hall j t) as [Hsome|(d & -> & Hn)]; [|done..| |].
      * apply lookup_lt_Some in Ht. lia.
      * destruct div as [d0|]; [|done]. rewrite end_division_lookup. by case_decide.
      * rewrite end_division_lookup. rewrite decide_True by done. done.
    + by rewrite Hd.
    + rewrite Hd. intros j k level location Hentry.
      apply (Hentries j k level location); [|done].
      destruct Hentry as (t & n & Ht%lookup_lt_Some & _). lia.
Qed.

End ParserFields.

(** ** What [parse] reads from a source text *)

Lemma parse_spec (source_path source_code : string) :
  ∃ tokens program,
    tokenize source_code = Ok tokens
    ∧ parse source_path source_code = Ok program
    ∧ Forall lexical tokens
    ∧ Forall (in_source 1 (splitlines source_code)) tokens
    ∧ StronglySorted before tokens
    ∧ parsed tokens source_path program.
Proof.
  destruct (tokenize_spec source_code) as (tokens & Htok & Hlex & Hsrc & Hsorted).
  unfold parse. rewrite Htok. bind_simpl. unfold _parse_program.
  set (p0 := CobolProgram.new (program_name_of source_path) source_path).
  destruct (_parse_divisions_spec tokens p0)
    as (p1 & -> & V1 & Hdivs & Hdivtok & Hitems & Hentries).
  { eapply Forall_impl; [exact Hlex|]. intros t. apply lexical_not_section. }
  bind_simpl.
  destruct (_extract_file_references_spec tokens p1)
    as (p2 & selected & inferred & -> & V2 & Hfiles & Hsel & Hselall & Hnd & Hinf).
  bind_simpl.
  destruct (_extract_program_calls_spec tokens p2) as (p3 & calls & -> & V3 & Hcalls & Hsites).
  bind_simpl.
  destruct (_extract_resources_spec tokens p3) as (p4 & res & -> & V4 & Hres & Hexec).
  bind_simpl.
  destruct (_extract_copybooks_spec tokens p4) as (p5 & -> & V5 & Hcopy).
  bind_simpl.
  destruct (_extract_maps_spec tokens p5) as (p6 & -> & V6 & Hmaps).
  exists tokens, p6. split; [done|]. split; [done|]. split; [done|].
  split; [done|]. split; [done|].
  unfold but_scopes, but_files, but_calls, but_resources, but_copybooks, but_maps in *.
  injection V1 as ?. injection V2 as ?. injection V3 as ?.
  injection V4 as ?. injection V5 as ?. injection V6 as ?.
  subst p0. cbn [CobolProgram.new CobolProgram.name CobolProgram.source_path
    CobolProgram.divisions CobolProgram.data_items CobolProgram.files
    CobolProgram.calls CobolProgram.resources CobolProgram.called_by
    CobolProgram.maps_used CobolProgram.copybooks] in *.
  split.
  - congruence.
  - congruence.
  - congruence.
  - intros k d Hk.
    assert (CobolProgram.divisions p6 = CobolProgram.divisions p1) as Heq by congruence.
    rewrite Heq in Hk. destruct (Hdivs k d Hk) as [Hempty|?]; [|done].
    by rewrite lookup_empty in Hempty.
  - intros j t Ht Hty.
    assert (CobolProgram.divisions p6 = CobolProgram.divisions p1) as -> by congruence.
    by eapply Hdivtok.
  - intros k item Hk.
    assert (CobolProgram.data_items p6 = CobolProgram.data_items p1) as Heq by congruence.
    rewrite Heq in Hk. destruct (Hitems k item Hk) as [Hempty|?]; [|done].
    by rewrite lookup_empty in Hempty.
  - intros j k level location Hentry.
    assert (CobolProgram.data_items p6 = CobolProgram.data_items p1) as -> by congruence.
    by eapply Hentries.
  - exists selected, inferred.
    assert (CobolProgram.files p1 = []) as Hnil by congruence.
    rewrite Hnil in Hfiles, Hinf. cbn [app] in Hfiles, Hinf.
    split; [congruence|]. done.
  - intros call.
    assert (CobolProgram.calls p6 = calls) as ->; [|done].
    assert (CobolProgram.calls p2 = []) as Hnil by congruence.
    rewrite Hnil in Hcalls. cbn [app] in Hcalls. congruence.
  - assert (CobolProgram.resources p6 = res) as ->; [|done].
    assert (CobolProgram.resources p3 = []) as Hnil by congruence.
    rewrite Hnil in Hres. cbn [app] in Hres. congruence.
  - intros name.
    assert (CobolProgram.copybooks p6 = CobolProgram.copybooks p5) as -> by congruence.
    rewrite Hcopy.
    assert (CobolProgram.copybooks p4 = ∅) as -> by congruence.
    rewrite elem_of_empty. tauto.
  - intros m. rewrite Hmaps.
    assert (CobolProgram.maps_used p5 = ∅) as -> by congruence.
    rewrite elem_of_empty. tauto.
Qed.

(** ** Properties of the tokenizer *)

(** X1.  In the tokens of every source text the type of a token tells what
    its text is: a Keyword, Identifier or Division token is a word that
    starts with a letter (a word that starts with a digit is split into a
    Number and what follows) and its type is the one [KEYWORDS] and
    [DIVISIONS] give its text; a Number is digits, or digits, a point and
    digits; a Literal holds no double quote; an Operator, Punctuation or
    Special token is one character of its class; an Unknown token is one
    character; and no token has the type Section, Paragraph or Statement. *)
Theorem token_text_follows_type (source_code : string) :
  ∃ tokens, tokenize source_code = Ok tokens ∧ Forall lexical tokens.
Proof.
  destruct (tokenize_spec source_code) as (tokens & Htok & Hlex & _). eauto.
Qed.

(** X2.  The tokens of every source text come in source order, by line and
    then by column, strictly; the line of a token is the number of a line
    of the text, counted from 1, and its column is 7 at least. *)
Theorem tokens_in_source_order (source_code : string) :
  ∃ tokens,
    tokenize source_code = Ok tokens
    ∧ StronglySorted before tokens
    ∧ Forall (λ t, 1 <= Token.line t <= Z.of_nat (length (splitlines source_code))
                   ∧ 7 <= Token.column t) tokens.
Proof.
  destruct (tokenize_spec source_code) as (tokens & Htok & _ & Hsrc & Hsorted).
  exists tokens. split; [done|]. split; [done|].
  eapply Forall_impl; [exact Hsrc|]. intros t Ht.
  pose proof (in_source_line _ _ _ Ht). pose proof (in_source_column _ _ _ Ht). lia.
Qed.

(** X3.  Every token points at its text: the source line with the number
    of the token holds, from the column of the token on, the value of the
    token (for a Literal the value within its double quotes); the one
    exception is the Comment token of a line with [*] in column 7, which
    has column 7 and holds the text after the [*], stripped. *)
Theorem tokens_stand_in_source (source_code : string) :
  ∃ tokens,
    tokenize source_code = Ok tokens
    ∧ Forall (in_source 1 (splitlines source_code)) tokens.
Proof.
  destruct (tokenize_spec source_code) as (tokens & Htok & _ & Hsrc & _). eauto.
Qed.

(** X4.  The scan of a line loses nothing but white space: it returns for
    every line; its tokens stand in the line at their columns, left to
    right and without overlap (the text of a token ends before the text of
    every later token begins); and every character of the line is white
    space or lies within the text of one of the tokens. *)
Theorem line_scan_drops_only_white_space (current_line column0 : Z) (line : string) :
  ∃ toks,
    _tokenize_line current_line column0 line = Ok toks
    ∧ Forall (scanned_in line current_line column0) toks
    ∧ StronglySorted column_lt toks
    ∧ StronglySorted ends_before toks
    ∧ ∀ q c, String.get q line = Some c →
        is_space c = true
        ∨ ∃ t p, t ∈ toks ∧ Token.column t = column0 + Z.of_nat p
                 ∧ (p <= q < p + String.length (shown t))%nat.
Proof. apply _tokenize_line_spec. Qed.

(** ** Properties of the parser *)

Lemma str_in_elem (s : string) (l : list string) : str_in s l = true ↔ s ∈ l.
Proof.
  unfold str_in. rewrite existsb_exists. split.
  - intros (x & Hin%list_elem_of_In & <-%String.eqb_eq). done.
  - intros Hin. exists s. split; [by apply list_elem_of_In|apply String.eqb_refl].
Qed.

Lemma identifier_type_keyword (text : string) :
  identifier_type text = KEYWORD → str_in (upper text) KEYWORDS = true.
Proof.
  unfold identifier_type. destruct (str_in (upper text) DIVISIONS); [done|].
  by destruct (str_in (upper text) KEYWORDS).
Qed.

Lemma lexical_keyword (t : Token.t) :
  lexical t → Token.type t = KEYWORD → str_in (upper (Token.value t)) KEYWORDS = true.
Proof.
  unfold lexical. intros H Hty. rewrite Hty in H. destruct H as [_ H].
  by apply identifier_type_keyword.
Qed.

(** X5.  The copybooks of a parsed program are exactly the names, in upper
    case, of the Identifier and Literal tokens that follow a COPY keyword. *)
Theorem copybooks_are_copy_operands (source_path source_code : string) :
  ∃ tokens program,
    tokenize source_code = Ok tokens
    ∧ parse source_path source_code = Ok program
    ∧ ∀ name, name ∈ CobolProgram.copybooks program
              ↔ ∃ k, copy_operand tokens k name.
Proof.
  destruct (parse_spec source_path source_code)
    as (tokens & program & Htok & Hparse & _ & _ & _ & Hp).
  exists tokens, program. split; [done|]. split; [done|]. apply Hp.
Qed.

(** X6.  The calls of a parsed program are exactly the calls read at the
    CALL keywords: the target is the text of a Literal as it stands, or an
    Identifier in upper case and marked dynamic; a CALL followed by
    anything else, or by an empty Literal, gives no call; the parameters
    are the Identifiers after the first USING on the line of the CALL. *)
Theorem calls_are_call_sites (source_path source_code : string) :
  ∃ tokens program,
    tokenize source_code = Ok tokens
    ∧ parse source_path source_code = Ok program
    ∧ ∀ call, call ∈ CobolProgram.calls program ↔ ∃ k, call_site tokens k call.
Proof.
  destruct (parse_spec source_path source_code)
    as (tokens & program & Htok & Hparse & _ & _ & _ & Hp).
  exists tokens, program. split; [done|]. split; [done|]. apply Hp.
Qed.

(** X7.  Every resource of a parsed program was read at an EXEC keyword:
    its type is SQL, CICS or MQ, the word after EXEC; its operation is the
    first Keyword token after that word and is not empty; its name is not
    empty; its location is that of the EXEC. *)
Theorem resources_are_exec_blocks (source_path source_code : string) :
  ∃ tokens program,
    tokenize source_code = Ok tokens
    ∧ parse source_path source_code = Ok program
    ∧ Forall (exec_resource tokens) (CobolProgram.resources program).
Proof.
  destruct (parse_spec source_path source_code)
    as (tokens & program & Htok & Hparse & _ & _ & _ & Hp).
  exists tokens, program. split; [done|]. split; [done|]. apply Hp.
Qed.

(** X8.  The files of a parsed program are the SELECT entries, in order,
    followed by the entries the second scan infers.  A SELECT entry stands
    for a SELECT keyword followed by an Identifier, and every such SELECT
    has an entry.  The inferred entries have access mode UNKNOWN, no
    organization and no record key, are named after Identifier tokens, and
    their names differ from each other and from every SELECT name: the
    second scan never enters a name twice. *)
Theorem files_selected_then_inferred (source_path source_code : string) :
  ∃ tokens program selected inferred,
    tokenize source_code = Ok tokens
    ∧ parse source_path source_code = Ok program
    ∧ CobolProgram.files program = selected ++ inferred
    ∧ Forall (λ f, ∃ k, select_site tokens k f) selected
    ∧ (∀ k f, select_site tokens k f
              → FileReference.name f ∈ FileReference.name <$> selected)
    ∧ NoDup (FileReference.name <$> inferred)
    ∧ Forall (λ f, (FileReference.name f ∉ FileReference.name <$> selected)
                   ∧ inferred_file tokens f) inferred.
Proof.
  destruct (parse_spec source_path source_code)
    as (tokens & program & Htok & Hparse & _ & _ & _ & Hp).
  destruct (parsed_files _ _ _ Hp) as (selected & inferred & Hfiles).
  exists tokens, program, selected, inferred. split; [done|]. split; [done|]. done.
Qed.

(** X9.  The maps of a parsed program are exactly the names that follow
    SEND MAP or RECEIVE MAP inside an EXEC CICS block, before its
    END-EXEC (or the end of the text, when there is none). *)
Theorem maps_come_from_cics_blocks (source_path source_code : string) :
  ∃ tokens program,
    tokenize source_code = Ok tokens
    ∧ parse source_path source_code = Ok program
    ∧ ∀ m, m ∈ CobolProgram.maps_used program
           ↔ ∃ i j, cics_block tokens i j ∧ map_operand tokens j m.
Proof.
  destruct (parse_spec source_path source_code)
    as (tokens & program & Htok & Hparse & Hlex & _ & _ & Hp).
  exists tokens, program. split; [done|]. split; [done|].
  intros m. rewrite (parsed_maps _ _ _ Hp). split.
  - intros (a & [[Hm Hpair]|(j & Hblock & Hm)]); [|eauto].
    destruct Hm as (ta & tb & _ & _ & Hb & _ & _ & Hmap & _).
    destruct Hpair as (ta' & tb' & _ & Hb' & _ & Hty).
    assert (tb' = tb) as -> by congruence.
    rewrite Forall_lookup in Hlex.
    pose proof (lexical_keyword tb (Hlex _ _ Hb) Hty) as Hkw.
    rewrite Hmap in Hkw. vm_compute in Hkw. discriminate.
  - intros (i & j & Hblock & Hm). exists i. right. eauto.
Qed.

(** X10.  The divisions of a parsed program: every key is one of the four
    division words and its division has that name, no section, and starts
    on the line of a Division token that reads the key; and every Division
    token has its division entered. *)
Theorem divisions_are_division_words (source_path source_code : string) :
  ∃ tokens program,
    tokenize source_code = Ok tokens
    ∧ parse source_path source_code = Ok program
    ∧ (∀ k d, CobolProgram.divisions program !! k = Some d →
              k ∈ DIVISIONS ∧ division_at tokens k d)
    ∧ ∀ j t, tokens !! j = Some t → Token.type t = DIVISION →
             is_Some (CobolProgram.divisions program !! upper (Token.value t)).
Proof.
  destruct (parse_spec source_path source_code)
    as (tokens & program & Htok & Hparse & Hlex & _ & _ & Hp).
  exists tokens, program. split; [done|]. split; [done|].
  split; [|apply Hp].
  intros k d Hk. pose proof (parsed_divisions _ _ _ Hp k d Hk) as Hat.
  split; [|done]. destruct Hat as (_ & _ & j & t & Ht & Hty & <- & _).
  rewrite Forall_lookup in Hlex.
  apply str_in_elem, lexical_division; [by eapply Hlex|done].
Qed.

(** X11.  The data items of a parsed program: every item stands under its
    own name and was read in the DATA division, at a Number token that
    reads its level followed by an Identifier that reads its name; and
    every such pair in the DATA division has an item under its name. *)
Theorem data_items_are_data_entries (source_path source_code : string) :
  ∃ tokens program,
    tokenize source_code = Ok tokens
    ∧ parse source_path source_code = Ok program
    ∧ (∀ k item, CobolProgram.data_items program !! k = Some item →
                 data_item_at tokens k item)
    ∧ ∀ j k level location, data_entry tokens j k level location →
        is_Some (CobolProgram.data_items program !! k).
Proof.
  destruct (parse_spec source_path source_code)
    as (tokens & program & Htok & Hparse & _ & _ & _ & Hp).
  exists tokens, program. split; [done|]. split; [done|]. split; apply Hp.
Qed.

(** X12.  [parse] names the program after the file, records the path as
    given, and never fills [called_by]. *)
Theorem parse_leaves_called_by_empty (source_path source_code : string) :
  ∃ program,
    parse source_path source_code = Ok program
    ∧ CobolProgram.name program = program_name_of source_path
    ∧ CobolProgram.source_path program = source_path
    ∧ CobolProgram.called_by program = ∅.
Proof.
  destruct (parse_spec source_path source_code)
    as (tokens & program & Htok & Hparse & _ & _ & _ & Hp).
  exists program. split; [done|]. split; [|split]; apply Hp.
Qed.

(** ** Levels of data items *)

Lemma digit_not_int_space (c : ascii) : is_digit c = true → is_int_space c = false.
Proof.
  unfold is_digit, char_in, is_int_space.
  change (nat_of_ascii "0") with 48%nat. change (nat_of_ascii "9") with 57%nat.
  intros [H1%Nat.leb_le H2%Nat.leb_le]%andb_true_iff.
  apply orb_false_iff. split.
  - apply andb_false_iff. right. apply Nat.leb_gt. lia.
  - apply Nat.eqb_neq. lia.
Qed.

Lemma int_rstrip_no_space (s : string) :
  all_chars (λ c, negb (is_int_space c)) s = true → int_rstrip s = s.
Proof.
  unfold all_chars. induction s as [|c s IH]; [done|].
  cbn [list_ascii_of_string forallb int_rstrip].
  intros [Hc%negb_true_iff Hs]%andb_true_iff. rewrite (IH Hs), Hc.
  by destruct s.
Qed.

Lemma int_digits_ok (s : string) (acc : Z) (after : bool) :
  all_chars is_digit s = true → 0 <= acc →
  s ≠ EmptyString ∨ after = true →
  ∃ n, int_digits acc after s = Some n ∧ 0 <= n.
Proof.
  unfold all_chars. revert acc after.
  induction s as [|c s IH]; intros acc after Hall Hacc Hne.
  - destruct Hne as [?| ->]; [done|]. exists acc. done.
  - cbn [list_ascii_of_string forallb] in Hall.
    apply andb_true_iff in Hall as [Hc Hs]. cbn [int_digits]. rewrite Hc.
    apply IH; [done| |by right].
    unfold is_digit, char_in in Hc. change (nat_of_ascii "0") with 48%nat in Hc.
    apply andb_true_iff in Hc as [H1%Nat.leb_le _]. lia.
Qed.

Lemma int_digits_point (a b : string) (acc : Z) (after : bool) :
  all_chars is_digit a = true → int_digits acc after (a +:+ String "." b) = None.
Proof.
  unfold all_chars. revert acc after. induction a as [|c a IH]; intros acc after Hall.
  - reflexivity.
  - change (String c a +:+ String "." b) with (String c (a +:+ String "." b)).
    cbn [list_ascii_of_string forallb] in Hall.
    apply andb_true_iff in Hall as [Hc Hs]. cbn [int_digits]. rewrite Hc. by apply IH.
Qed.

Lemma digit_count_digits (s : string) :
  all_chars is_digit s = true → digit_count s = Z.of_nat (String.length s).
Proof.
  unfold all_chars. induction s as [|c s IH]; [done|].
  cbn [list_ascii_of_string forallb digit_count String.length].
  intros [Hc Hs]%andb_true_iff. rewrite Hc, (IH Hs). lia.
Qed.

Lemma all_chars_impl (f g : ascii → bool) (s : string) :
  (∀ c, f c = true → g c = true) → all_chars f s = true → all_chars g s = true.
Proof.
  unfold all_chars. intros Hfg. induction s as [|c s IH]; [done|].
  cbn [list_ascii_of_string forallb].
  intros [Hc Hs]%andb_true_iff. by rewrite (Hfg c Hc), IH.
Qed.

Lemma all_chars_append (f : ascii → bool) (a b : string) :
  all_chars f (a +:+ b) = all_chars f a && all_chars f b.
Proof.
  unfold all_chars. induction a as [|c a IH]; [done|].
  change (String c a +:+ b) with (String c (a +:+ b)).
  cbn [list_ascii_of_string forallb]. by rewrite IH, andb_assoc.
Qed.

Lemma digits_all (s : string) : digits s = true → all_chars is_digit s = true.
Proof. by destruct s. Qed.

Lemma digits_head (s : string) :
  digits s = true → ∃ c tl, s = String c tl ∧ is_digit c = true.
Proof.
  destruct s as [|c tl]; [done|]. unfold digits, all_chars.
  cbn [list_ascii_of_string forallb]. intros [Hc _]%andb_true_iff. eauto.
Qed.

(** [int] on a text that starts with a digit and holds none of the white
    space [int] strips: the digits are counted and the text is read as it
    stands. *)
Lemma int_plain (c : ascii) (tl : string) :
  is_digit c = true → all_chars (λ x, negb (is_int_space x)) (String c tl) = true →
  int (String c tl)
  = if MAX_STR_DIGITS <? digit_count (String c tl) then None
    else int_digits 0 false (String c tl).
Proof.
  intros Hc Hall. unfold int. rewrite (int_rstrip_no_space _ Hall).
  cbn [int_lstrip]. rewrite (digit_not_int_space c Hc).
  assert (Ascii.eqb c "-" = false) as ->.
  { apply Ascii.eqb_neq. intros ->. done. }
  assert (Ascii.eqb c "+" = false) as ->.
  { apply Ascii.eqb_neq. intros ->. done. }
  done.
Qed.

(** [int] on the text of a Number token. *)
Lemma int_numeral (v : string) :
  numeral v →
  if digits v && (Z.of_nat (String.length v) <=? MAX_STR_DIGITS)
  then ∃ n, int v = Some n ∧ 0 <= n
  else int v = None.
Proof.
  intros Hnum.
  assert (Hsp : ∀ c, is_digit c = true → negb (is_int_space c) = true).
  { intros c Hc. by rewrite (digit_not_int_space c Hc). }
  destruct (digits v) eqn:Ed; cbn [andb].
  - destruct (digits_head _ Ed) as (c & tl & Hv & Hc). subst v.
    rewrite int_plain; [|done|].
    2:{ eapply all_chars_impl; [exact Hsp|]. by apply digits_all. }
    rewrite (digit_count_digits _ (digits_all _ Ed)).
    destruct (Z.of_nat (String.length (String c tl)) <=? MAX_STR_DIGITS) eqn:El.
    + apply Z.leb_le in El.
      assert ((MAX_STR_DIGITS <? Z.of_nat (String.length (String c tl))) = false) as ->
        by (apply Z.ltb_ge; lia).
      apply int_digits_ok; [by apply digits_all|done|by left].
    + apply Z.leb_gt in El.
      assert ((MAX_STR_DIGITS <? Z.of_nat (String.length (String c tl))) = true) as ->
        by (apply Z.ltb_lt; lia).
      done.
  - destruct Hnum as [Hd|(a & b & Hv & Ha & Hb)]; [congruence|].
    destruct (digits_head _ Ha) as (c & tl & Hatl & Hc).
    rewrite Hv, Hatl.
    change (String c tl +:+ String "." b) with (String c (tl +:+ String "." b)).
    rewrite int_plain; [|done|].
    + change (String c (tl +:+ String "." b)) with (String c tl +:+ String "." b).
      rewrite <- Hatl, (int_digits_point a b) by (by apply digits_all).
      by case_match.
    + change (String c (tl +:+ String "." b)) with (String c tl +:+ String "." b).
      rewrite <- Hatl, all_chars_append. apply andb_true_iff. split.
      * eapply all_chars_impl; [exact Hsp|]. by apply digits_all.
      * unfold all_chars. cbn [list_ascii_of_string forallb].
        change (negb (is_int_space ".")) with true. cbn [andb].
        fold (all_chars (λ x, negb (is_int_space x)) b).
        eapply all_chars_impl; [exact Hsp|]. by apply digits_all.
Qed.

(** [int] at its edges: white space around the digits, one underscore
    between digits, a sign; and what it refuses: another character of
    [is_space] before the digits, and one digit more than
    [MAX_STR_DIGITS]. *)
Lemma int_edges :
  int " 5 " = Some 5 ∧ int "1_0" = Some 10 ∧ int "-07" = Some (-7)
  ∧ int "1__0" = None ∧ int "5_" = None ∧ int "+ 5" = None
  ∧ int (String (ascii_of_nat 31) "5") = None
  ∧ (λ _, true) <$> int (string_of_list_ascii (replicate 4300 "1"%char)) = Some true
  ∧ int (string_of_list_ascii (replicate 4301 "1"%char)) = None
  ∧ int (string_of_list_ascii (replicate 4301 "0"%char)) = None.
Proof. repeat split; vm_compute; reflexivity. Qed.

(** X21.  The level of a data item is read with [int] from a Number token.
    On the Number tokens of every source text [int] returns exactly for
    those that have no point and no more than [MAX_STR_DIGITS] digits, and
    the number it returns is not negative.  So a Number followed by an
    Identifier in the DATA division enters a data item only when the Number
    is such a whole number ([1.5 NAME] enters none), and no data item of a
    parsed program has a negative level. *)
Theorem levels_are_whole_numbers (source_path source_code : string) :
  ∃ tokens program,
    tokenize source_code = Ok tokens
    ∧ parse source_path source_code = Ok program
    ∧ Forall (λ t, Token.type t = NUMBER →
                   if digits (Token.value t)
                      && (Z.of_nat (String.length (Token.value t)) <=? MAX_STR_DIGITS)
                   then ∃ n, int (Token.value t) = Some n ∧ 0 <= n
                   else int (Token.value t) = None) tokens
    ∧ (∀ j k level location, data_entry tokens j k level location →
         0 <= level
         ∧ ∃ t, tokens !! j = Some t ∧ digits (Token.value t) = true
                ∧ Z.of_nat (String.length (Token.value t)) <= MAX_STR_DIGITS)
    ∧ ∀ k item, CobolProgram.data_items program !! k = Some item →
                0 <= DataItem.level item.
Proof.
  destruct (parse_spec source_path source_code)
    as (tokens & program & Htok & Hparse & Hlex & _ & _ & Hp).
  exists tokens, program. split; [done|]. split; [done|].
  assert (Hnumbers : Forall (λ t, Token.type t = NUMBER →
            if digits (Token.value t)
               && (Z.of_nat (String.length (Token.value t)) <=? MAX_STR_DIGITS)
            then ∃ n, int (Token.value t) = Some n ∧ 0 <= n
            else int (Token.value t) = None) tokens).
  { eapply Forall_impl; [exact Hlex|]. intros t Ht Hty.
    apply int_numeral. unfold lexical in Ht. by rewrite Hty in Ht. }
  assert (Hentries : ∀ j k level location, data_entry tokens j k level location →
            0 <= level
            ∧ ∃ t, tokens !! j = Some t ∧ digits (Token.value t) = true
                   ∧ Z.of_nat (String.length (Token.value t)) <= MAX_STR_DIGITS).
  { intros j k level location (t & n & Ht & _ & Hty & _ & _ & Hint & _).
    rewrite Forall_lookup in Hnumbers. pose proof (Hnumbers j t Ht Hty) as Hn.
    destruct (digits (Token.value t)
              && (Z.of_nat (String.length (Token.value t)) <=? MAX_STR_DIGITS))
      eqn:E; [|congruence].
    apply andb_true_iff in E as [Hd Hl%Z.leb_le].
    destruct Hn as (m & Hm & Hpos). split; [congruence|]. eauto. }
  split; [done|]. split; [done|].
  intros k item Hk.
  destruct (parsed_data_items _ _ _ Hp k item Hk) as (_ & j & Hentry).
  by destruct (Hentries _ _ _ _ Hentry).
Qed.

(** ** The name of a program *)

Lemma existsb_append (f : ascii → bool) (a b : string) :
  existsb f (list_ascii_of_string (a +:+ b))
  = existsb f (list_ascii_of_string a) || existsb f (list_ascii_of_string b).
Proof.
  induction a as [|c a IH]; [done|].
  change (String c a +:+ b) with (String c (a +:+ b)).
  cbn [list_ascii_of_string existsb]. by rewrite IH, orb_assoc.
Qed.

Lemma basename_free (p : string) : free_of "/" p = true → basename p = p.
Proof.
  unfold free_of. destruct p as [|c p]; [done|].
  cbn [list_ascii_of_string existsb basename].
  rewrite negb_true_iff, orb_false_iff. intros [Hc Hp]. rewrite Hp.
  rewrite Ascii.eqb_sym in Hc. by rewrite Hc.
Qed.

Lemma basename_join (dir name : string) :
  free_of "/" name = true → basename (dir +:+ String "/" name) = name.
Proof.
  intros Hname. pose proof Hname as Hfree. unfold free_of in Hname.
  apply negb_true_iff in Hname.
  induction dir as [|c dir IH].
  - change (EmptyString +:+ String "/" name) with (String "/" name).
    cbn [basename]. by rewrite Hname.
  - change (String c dir +:+ String "/" name) with (String c (dir +:+ String "/" name)).
    cbn [basename]. rewrite existsb_append. cbn [list_ascii_of_string existsb].
    change (Ascii.eqb "/" "/") with true. by rewrite orb_true_r.
Qed.

Lemma splitext_root_stem (seen : bool) (stem ext : string) :
  free_of "." ext = true →
  seen || existsb (λ c, negb (Ascii.eqb c ".")) (list_ascii_of_string stem) = true →
  splitext_root seen (stem +:+ String "." ext) = stem.
Proof.
  intros Hext. unfold free_of in Hext. revert seen.
  induction stem as [|c stem IH]; intros seen Hseen.
  - change (EmptyString +:+ String "." ext) with (String "." ext).
    cbn [list_ascii_of_string existsb] in Hseen. rewrite orb_false_r in Hseen.
    subst seen. cbn [splitext_root]. change (Ascii.eqb "." ".") with true.
    by rewrite Hext.
  - change (String c stem +:+ String "." ext)
      with (String c (stem +:+ String "." ext)).
    cbn [splitext_root]. rewrite existsb_append.
    cbn [list_ascii_of_string existsb]. change (Ascii.eqb "." ".") with true.
    rewrite orb_true_r. cbn [negb]. rewrite andb_false_r.
    f_equal. apply IH. cbn [list_ascii_of_string existsb] in Hseen.
    by rewrite <- orb_assoc.
Qed.

(** X19.  The name of a program is the file name without its directory and
    without its extension: for a file name [stem.ext] in which the stem has
    a character other than a point and no slash, and the extension has
    neither a point nor a slash, the name is the stem, with or without a
    directory before the file name. *)
Theorem program_name_is_stem (dir stem ext : string) :
  free_of "/" stem = true →
  existsb (λ c, negb (Ascii.eqb c ".")) (list_ascii_of_string stem) = true →
  free_of "/" ext = true → free_of "." ext = true →
  program_name_of (dir +:+ String "/" (stem +:+ String "." ext)) = stem
  ∧ program_name_of (stem +:+ String "." ext) = stem.
Proof.
  intros Hstem Hother Hext1 Hext2.
  assert (Hname : free_of "/" (stem +:+ String "." ext) = true).
  { unfold free_of in *. rewrite existsb_append. cbn [list_ascii_of_string existsb].
    apply negb_true_iff in Hstem, Hext1. rewrite Hstem, Hext1. done. }
  unfold program_name_of. rewrite basename_join, basename_free by done.
  split; apply splitext_root_stem; try done; by rewrite Hother.
Qed.

Lemma program_name_is_stem_witness :
  program_name_of ("src/batch" +:+ String "/" ("PAYROLL.V2" +:+ String "." "cbl"))
  = "PAYROLL.V2"
  ∧ program_name_of ("PAYROLL.V2" +:+ String "." "cbl") = "PAYROLL.V2".
Proof.
  apply (program_name_is_stem "src/batch" "PAYROLL.V2" "cbl"); reflexivity.
Defined.
(** ** Analyzer queries *)

Lemma analyzer_eq (a b : CobolAnalyzer.t) :
  CobolAnalyzer.copybook_paths a = CobolAnalyzer.copybook_paths b →
  CobolAnalyzer.analyzed_programs a = CobolAnalyzer.analyzed_programs b →
  CobolAnalyzer.call_graph a = CobolAnalyzer.call_graph b →
  CobolAnalyzer.resource_usage a = CobolAnalyzer.resource_usage b →
  a = b.
Proof. destruct a, b. simpl. by intros -> -> -> ->. Qed.

Lemma register_paths (self self' : CobolAnalyzer.t) (program : CobolProgram.t) :
  register self program = Ok self' →
  CobolAnalyzer.copybook_paths self' = CobolAnalyzer.copybook_paths self.
Proof.
  destruct (for_each_add_call (CobolProgram.name program) (CobolProgram.calls program)
              (<[CobolProgram.name program := ∅]> (CobolAnalyzer.call_graph self)) ∅)
    as (cg' & Hcg & _); [apply lookup_insert_eq|].
  destruct (for_each_add_resource (CobolProgram.name program)
              (CobolProgram.resources program) (CobolAnalyzer.resource_usage self))
    as (ru' & Hru & _).
  unfold register. rewrite Hcg. bind_simpl. rewrite Hru. bind_simpl.
  by intros [= <-].
Qed.

(** X13.  [find_caller_programs] and [find_called_programs] are converse
    views of the call graph, in every analyzer state; a name that is not a
    node has no callees. *)
Theorem callers_callees_converse (self : CobolAnalyzer.t) (caller callee : string) :
  (caller ∈ find_caller_programs self callee
   ↔ callee ∈ find_called_programs self caller)
  ∧ (CobolAnalyzer.call_graph self !! caller = None →
     find_called_programs self caller = ∅).
Proof.
  split.
  - rewrite elem_of_find_caller_programs. unfold find_called_programs.
    destruct (CobolAnalyzer.call_graph self !! caller) as [callees|].
    + split; [by intros (? & [= <-] & ?) | eauto].
    + split; [by intros (? & ? & _) | set_solver].
  - unfold find_called_programs. by intros ->.
Qed.

Lemma register_consistent (self self' : CobolAnalyzer.t) (program : CobolProgram.t) :
  register self program = Ok self' → consistent self → consistent self'.
Proof.
  intros Hreg (Hprog & Hfwd & Huse).
  destruct (register_ok self program) as (self0 & Hr & Hprogs & Hn & Hk & Hu).
  rewrite Hreg in Hr. injection Hr as <-.
  split; [|split].
  - intros k p. rewrite Hprogs.
    destruct (decide (CobolProgram.name program = k)) as [<-|Hne].
    + rewrite lookup_insert_eq. by intros [= <-].
    + rewrite lookup_insert_ne by done. intros Hp.
      destruct (Hprog k p Hp) as [Hname Hcg]. split; [done|].
      rewrite (Hk k) by done. by rewrite Hcg.
  - intros k callees. rewrite Hprogs.
    destruct (decide (CobolProgram.name program = k)) as [<-|Hne].
    + by rewrite lookup_insert_eq.
    + rewrite lookup_insert_ne by done. intros Hnone. rewrite (Hk k) by done.
      destruct (CobolAnalyzer.call_graph self !! k) as [v|] eqn:Ecg.
      * intros [= <-]. by eapply Hfwd.
      * case_bool_decide; congruence.
  - intros key users. rewrite Hu, Hprogs, dom_insert_L.
    case_bool_decide.
    + intros [= <-]. split; [set_solver|].
      destruct (CobolAnalyzer.resource_usage self !! key) as [old|] eqn:Eold; simpl.
      * destruct (Huse key old Eold) as [_ Hsub]. set_solver.
      * set_solver.
    + intros Hold. destruct (Huse key users Hold) as [Hne Hsub]. set_solver.
Qed.

Lemma reachable_consistent (self : CobolAnalyzer.t) : reachable self → consistent self.
Proof.
  induction 1 as [paths|self program self' _ IH Hreg].
  - split; [|split]; intros ??; simpl; by rewrite lookup_empty.
  - by eapply register_consistent.
Qed.

Lemma register_twice (self st : CobolAnalyzer.t) (program : CobolProgram.t) :
  register self program = Ok st → register st program = Ok st.
Proof.
  intros Hreg.
  destruct (register_ok self program) as (st0 & Hr & Hp & Hn & Hk & Hu).
  rewrite Hreg in Hr. injection Hr as <-.
  destruct (register_ok st program) as (st2 & Hr2 & Hp2 & Hn2 & Hk2 & Hu2).
  rewrite Hr2. f_equal. apply analyzer_eq.
  - rewrite (register_paths _ _ _ Hr2). done.
  - rewrite Hp2, Hp. apply insert_insert_eq.
  - apply map_eq. intros k.
    destruct (decide (k = CobolProgram.name program)) as [->|Hne]; [congruence|].
    rewrite (Hk2 k Hne). destruct (CobolAnalyzer.call_graph st !! k) eqn:E; [done|].
    rewrite (Hk k Hne) in E.
    destruct (CobolAnalyzer.call_graph self !! k); [done|].
    by case_bool_decide.
  - apply map_eq. intros k. rewrite Hu2, Hu.
    case_bool_decide; [|done]. simpl. f_equal. set_solver.
Qed.

Lemma register_comm (self : CobolAnalyzer.t) (a b : CobolProgram.t) :
  CobolProgram.name a ≠ CobolProgram.name b →
  (sa ← register self a; register sa b) = (sb ← register self b; register sb a).
Proof.
  intros Hne.
  destruct (register_ok self a) as (sa & Hra & Hpa & Hna & Hka & Hua).
  destruct (register_ok self b) as (sb & Hrb & Hpb & Hnb & Hkb & Hub).
  destruct (register_ok sa b) as (sab & Hrab & Hpab & Hnab & Hkab & Huab).
  destruct (register_ok sb a) as (sba & Hrba & Hpba & Hnba & Hkba & Huba).
  rewrite Hra, Hrb. bind_simpl. rewrite Hrab, Hrba. f_equal. apply analyzer_eq.
  - rewrite (register_paths _ _ _ Hrab), (register_paths _ _ _ Hra),
      (register_paths _ _ _ Hrba), (register_paths _ _ _ Hrb). done.
  - rewrite Hpab, Hpa, Hpba, Hpb. by apply insert_insert_ne.
  - apply map_eq. intros k.
    destruct (decide (k = CobolProgram.name a)) as [->|Ha].
    { rewrite Hnba, (Hkab _ Hne), Hna. done. }
    destruct (decide (k = CobolProgram.name b)) as [->|Hb].
    { rewrite Hnab, (Hkba _ Ha), Hnb. done. }
    rewrite (Hkab k Hb), (Hka k Ha), (Hkba k Ha), (Hkb k Hb).
    destruct (CobolAnalyzer.call_graph self !! k); [done|].
    repeat case_bool_decide; done.
  - apply map_eq. intros k. rewrite Huab, Hua, Huba, Hub.
    repeat case_bool_decide; simpl; try done; f_equal; set_solver.
Qed.

Lemma analyze_all_nil (self : CobolAnalyzer.t) : analyze_all self [] = Ok self.
Proof. reflexivity. Qed.

Lemma analyze_all_step (self : CobolAnalyzer.t) (path src : string)
    (sources : list (string * string)) :
  ∃ program self1,
    parse path src = Ok program
    ∧ CobolProgram.name program = program_name_of path
    ∧ register self program = Ok self1
    ∧ analyze_all self ((path, src) :: sources) = analyze_all self1 sources.
Proof.
  destruct (parse_ok path src) as (program & Hp & Hn & _).
  destruct (register_ok self program) as (self1 & Hr & _).
  exists program, self1. split; [done|]. split; [done|]. split; [done|].
  rewrite analyze_all_cons. unfold analyze_program. rewrite Hp. bind_simpl.
  rewrite Hr. bind_simpl. done.
Qed.

Lemma analyze_all_ok (self : CobolAnalyzer.t) (sources : list (string * string)) :
  ∃ self', analyze_all self sources = Ok self'
           ∧ (reachable self → reachable self').
Proof.
  revert self. induction sources as [|[path src] sources IH]; intros self.
  - exists self. by rewrite analyze_all_nil.
  - destruct (analyze_all_step self path src sources) as (p & self1 & _ & _ & Hr & ->).
    destruct (IH self1) as (self' & -> & Hreach). exists self'. split; [done|].
    intros H. apply Hreach. by eapply reachable_register.
Qed.

(** X14.  After any sequence of analyses by a fresh analyzer the three tables
    agree: a registered program is filed under its own name and its callees
    are exactly its call targets; a name without a registered program has no
    callees; the users of every indexed resource are registered programs,
    and no index entry is empty. *)
Theorem analyzer_tables_agree (copybook_paths : list string)
    (sources : list (string * string)) :
  ∃ self,
    analyze_all (CobolAnalyzer.new copybook_paths) sources = Ok self
    ∧ (∀ name program,
         CobolAnalyzer.analyzed_programs self !! name = Some program →
         CobolProgram.name program = name
         ∧ find_called_programs self name = list_to_set (targets program))
    ∧ (∀ name, CobolAnalyzer.analyzed_programs self !! name = None →
               find_called_programs self name = ∅)
    ∧ (∀ key users,
         CobolAnalyzer.resource_usage self !! key = Some users →
         users ≠ ∅ ∧ users ⊆ dom (CobolAnalyzer.analyzed_programs self)).
Proof.
  destruct (analyze_all_ok (CobolAnalyzer.new copybook_paths) sources)
    as (self & Hall & Hreach).
  exists self. split; [done|].
  destruct (reachable_consistent self (Hreach (reachable_new _)))
    as (Hprog & Hfwd & Huse).
  split; [|split; [|done]].
  - intros name program Hp. destruct (Hprog name program Hp) as [Hn Hcg].
    split; [done|]. unfold find_called_programs. by rewrite Hcg.
  - intros name Hnone. unfold find_called_programs.
    destruct (CobolAnalyzer.call_graph self !! name) as [callees|] eqn:E; [|done].
    by eapply Hfwd.
Qed.

(** X15.  The registry after a sequence of analyses: its keys are the keys it
    had and the names derived from the paths analyzed, and under each such
    name stands the program parsed from the last source of that name. *)
Theorem registry_last_writer_wins (self : CobolAnalyzer.t)
    (sources : list (string * string)) :
  ∃ self',
    analyze_all self sources = Ok self'
    ∧ dom (CobolAnalyzer.analyzed_programs self')
      = dom (CobolAnalyzer.analyzed_programs self)
        ∪ list_to_set ((λ s, program_name_of s.1) <$> sources)
    ∧ ∀ before path src after,
        sources = before ++ (path, src) :: after →
        program_name_of path ∉ (λ s, program_name_of s.1) <$> after →
        ∃ program, parse path src = Ok program
                   ∧ CobolAnalyzer.analyzed_programs self' !! program_name_of path
                     = Some program.
Proof.
  revert self. induction sources as [|[path src] sources IH]; intros self.
  - exists self. split; [done|]. split; [set_solver|].
    intros before ??? Heq. by destruct before.
  - destruct (analyze_all_step self path src sources) as (p & self1 & Hp & Hn & Hr & ->).
    destruct (register_ok self p) as (self0 & Hr0 & Hprogs & _).
    rewrite Hr in Hr0. injection Hr0 as <-. rewrite Hn in Hprogs.
    destruct (IH self1) as (self' & Hall & Hdom & Hlast). exists self'.
    split; [done|]. split.
    + rewrite Hdom, Hprogs, dom_insert_L, fmap_cons, list_to_set_cons. simpl. set_solver.
    + intros before path' src' after Heq Hnot.
      destruct before as [|x before]; simpl in Heq.
      * injection Heq as -> -> ->. exists p. split; [done|].
        assert (Hkeep : ∀ l st st', analyze_all st l = Ok st' →
                  program_name_of path' ∉ (λ s, program_name_of s.1) <$> l →
                  CobolAnalyzer.analyzed_programs st' !! program_name_of path'
                  = CobolAnalyzer.analyzed_programs st !! program_name_of path').
        { clear. induction l as [|[q t] l IHl]; intros st st' Hall Hnot.
          - rewrite analyze_all_nil in Hall. by injection Hall as <-.
          - destruct (analyze_all_step st q t l) as (pq & st1 & _ & Hnq & Hrq & Heq).
            rewrite Heq in Hall. rewrite fmap_cons in Hnot. simpl in Hnot.
            apply not_elem_of_cons in Hnot as [Hne Hnot].
            rewrite (IHl st1 st' Hall Hnot).
            destruct (register_ok st pq) as (st0 & Hr0 & Hprogs & _).
            rewrite Hrq in Hr0. injection Hr0 as <-. rewrite Hprogs, Hnq.
            by rewrite lookup_insert_ne. }
        rewrite (Hkeep after self1 self' Hall Hnot), Hprogs.
        apply lookup_insert_eq.
      * injection Heq as Hx ->. by eapply Hlast.
Qed.

(** X16.  The resource index after a sequence of analyses, from any state:
    every membership it had is kept, and every resource of every program
    analyzed has that program among its users. *)
Theorem resources_are_indexed (self : CobolAnalyzer.t)
    (sources : list (string * string)) :
  ∃ self',
    analyze_all self sources = Ok self'
    ∧ (∀ key users,
         CobolAnalyzer.resource_usage self !! key = Some users →
         ∃ users', CobolAnalyzer.resource_usage self' !! key = Some users'
                   ∧ users ⊆ users')
    ∧ ∀ path src program resource,
        (path, src) ∈ sources →
        parse path src = Ok program →
        resource ∈ CobolProgram.resources program →
        ∃ users,
          CobolAnalyzer.resource_usage self'
            !! (Resource.type resource +:+ ":" +:+ Resource.name resource)
          = Some users
          ∧ program_name_of path ∈ users.
Proof.
  revert self. induction sources as [|[path src] sources IH]; intros self.
  - exists self. split; [done|]. split; [eauto|]. intros ???? Hin. by inversion Hin.
  - destruct (analyze_all_step self path src sources) as (p & self1 & Hp & Hn & Hr & ->).
    destruct (IH self1) as (self' & -> & Hmono & Hidx). exists self'.
    split; [done|]. split.
    + intros key users Hu.
      destruct (register_usage_mono _ _ _ _ _ Hr Hu) as (u1 & Hu1 & Hsub1).
      destruct (Hmono key u1 Hu1) as (u2 & Hu2 & Hsub2).
      exists u2. split; [done|]. set_solver.
    + intros path' src' program resource Hin Hparse Hres.
      apply elem_of_cons in Hin as [[= -> ->]|Hin]; [|by eapply Hidx].
      rewrite Hp in Hparse. injection Hparse as <-.
      destruct (register_ok self p) as (self0 & Hr0 & _ & _ & _ & Hu).
      rewrite Hr in Hr0. injection Hr0 as <-.
      specialize (Hu (resource_key resource)).
      rewrite bool_decide_eq_true_2 in Hu
        by (apply list_elem_of_fmap; eauto).
      destruct (Hmono _ _ Hu) as (users & Husers & Hsub).
      exists users. split; [done|]. rewrite <- Hn. set_solver.
Qed.

(** X17.  Analyzing the same file with the same text twice in a row leaves
    the analyzer as the first analysis left it. *)
Theorem analyze_twice_same (self : CobolAnalyzer.t) (path src : string) :
  ∃ st program,
    analyze_program self path src = Ok (st, program)
    ∧ analyze_program st path src = Ok (st, program).
Proof.
  destruct (analyze_program_ok self path src) as (st & program & Ha & Hp & Hr).
  exists st, program. split; [done|]. unfold analyze_program.
  rewrite Hp. bind_simpl. by rewrite (register_twice _ _ _ Hr).
Qed.

Lemma analyze_all_swap (self : CobolAnalyzer.t) (a b : string * string)
    (sources : list (string * string)) :
  program_name_of a.1 ≠ program_name_of b.1 →
  analyze_all self (a :: b :: sources) = analyze_all self (b :: a :: sources).
Proof.
  destruct a as [pa sa], b as [pb sb]. simpl. intros Hne.
  destruct (analyze_all_step self pa sa ((pb, sb) :: sources))
    as (a & s1 & Hpa & Hna & Hra & ->).
  destruct (analyze_all_step s1 pb sb sources) as (b & s12 & Hpb & Hnb & Hrab & ->).
  destruct (analyze_all_step self pb sb ((pa, sa) :: sources))
    as (b' & s2 & Hpb' & _ & Hrb & ->).
  destruct (analyze_all_step s2 pa sa sources) as (a' & s21 & Hpa' & _ & Hrba & ->).
  assert (b' = b) as -> by congruence. assert (a' = a) as -> by congruence.
  pose proof (register_comm self a b) as Hcomm.
  rewrite Hra, Hrb in Hcomm. cbn [mbind result_mbind result_bind] in Hcomm.
  rewrite Hrab, Hrba in Hcomm.
  assert (s12 = s21) as -> by (injection Hcomm; [done | congruence]).
  done.
Qed.

(** X18.  For source files with pairwise different derived names the order of
    analysis does not matter: every permutation of the sequence leaves the
    same analyzer. *)
Theorem analysis_order_irrelevant (self : CobolAnalyzer.t)
    (sources sources' : list (string * string)) :
  NoDup ((λ s, program_name_of s.1) <$> sources) →
  sources ≡ₚ sources' →
  analyze_all self sources = analyze_all self sources'.
Proof.
  intros Hnd Hperm. revert self Hnd.
  induction Hperm as [|x l l' Hperm IH|x y l|l l' l'' H1 IH1 H2 IH2]; intros self Hnd.
  - done.
  - destruct x as [path src].
    destruct (analyze_all_step self path src l) as (p & s1 & Hp & _ & Hr & ->).
    destruct (analyze_all_step self path src l') as (p' & s1' & Hp' & _ & Hr' & ->).
    rewrite fmap_cons in Hnd. apply NoDup_cons in Hnd as [_ Hnd].
    assert (p' = p) as -> by congruence.
    assert (s1' = s1) as -> by congruence.
    by apply IH.
  - symmetry. apply analyze_all_swap.
    rewrite !fmap_cons in Hnd. apply NoDup_cons in Hnd as [Hne _].
    intros Heq. apply Hne. rewrite Heq. apply list_elem_of_here.
  - rewrite (IH1 self Hnd). apply IH2.
    by rewrite <- H1.
Qed.

Lemma analysis_order_irrelevant_witness :
  analyze_all (CobolAnalyzer.new [])
    [("src/ORDERPROC.cbl", ORDERPROC_SOURCE); ("src/BILLING.cob", BILLING_SOURCE)]
  = analyze_all (CobolAnalyzer.new [])
      [("src/BILLING.cob", BILLING_SOURCE); ("src/ORDERPROC.cbl", ORDERPROC_SOURCE)].
Proof.
  apply (analysis_order_irrelevant (CobolAnalyzer.new [])
           [("src/ORDERPROC.cbl", ORDERPROC_SOURCE); ("src/BILLING.cob", BILLING_SOURCE)]
           [("src/BILLING.cob", BILLING_SOURCE); ("src/ORDERPROC.cbl", ORDERPROC_SOURCE)]).
  - apply (bool_decide_unpack _). vm_compute. reflexivity.
  - apply perm_swap.
Defined.

(** X20.  After any sequence of analyses by a fresh analyzer, the callers
    reported for a program are exactly the registered programs that hold a
    call to it. *)
Theorem callers_are_registered_programs (copybook_paths : list string)
    (sources : list (string * string)) :
  ∃ self,
    analyze_all (CobolAnalyzer.new copybook_paths) sources = Ok self
    ∧ ∀ caller callee,
        caller ∈ find_caller_programs self callee
        ↔ ∃ program, CobolAnalyzer.analyzed_programs self !! caller = Some program
                     ∧ callee ∈ targets program.
Proof.
  destruct (analyze_all_ok (CobolAnalyzer.new copybook_paths) sources)
    as (self & Hall & Hreach).
  exists self. split; [done|].
  destruct (reachable_consistent self (Hreach (reachable_new _)))
    as (Hprog & Hfwd & _).
  intros caller callee. rewrite elem_of_find_caller_programs. split.
  - intros (callees & Hcg & Hin).
    destruct (CobolAnalyzer.analyzed_programs self !! caller) as [p|] eqn:Ep.
    + exists p. split; [done|]. destruct (Hprog caller p Ep) as [_ Hcg'].
      rewrite Hcg in Hcg'. injection Hcg' as ->. set_solver.
    + rewrite (Hfwd caller callees Ep Hcg) in Hin. set_solver.
  - intros (p & Hp & Hin). destruct (Hprog caller p Hp) as [_ Hcg].
    eexists. split; [done|]. set_solver.
Qed.
